(** * Diamante campaign sender: the transaction-dispatch engine

    A shallow embedding of the dispatch engine of [diamante.js] (the
    command-line sender: [shuffle], [humanDelay], [DiamanteSender.send],
    [sendRound], [printSummary], [main]) and of [cli.js] (the interactive
    sender: [sendTransaction], [runSending]).

    The programs talk to the outside world through [Math.random], [fetch],
    [Date.now], timers and, for [diamante.js], a SIGINT handler.  Each of
    these is an oracle of the environment [Env], as is the user id a token
    carries (the decoding of a token is not embedded); the program is a
    function of the environment and of an explicit [World] (the array
    store, the sender's statistics, the module-level delay bounds and the
    trace of what has been awaited so far).

    Conventions.  JavaScript numbers are rationals ([Q]) where they are
    amounts, delays and times, and integers where they are counts and
    status codes; sums are taken in the order the program takes them.
    Console output is left out, except for the lines that mark the start
    and the end of a task, the errors and the summary, which are events of
    the trace.  A request and the reading of its body are one wait.  The
    configuration and the command line are taken as already parsed, with
    the types the README documents.  A string is given by its UTF-8 bytes;
    [trim] knows the white space of the ASCII range only, and the objects
    used as maps ([sendCount], [walletStats]) are finite maps: the
    statements that depend on either say for which strings they hold. *)

From stdpp Require Import gmap strings list.
From Stdlib Require Import Ascii.
From Stdlib Require Import QArith Qround.
From Equations Require Import Equations.

Local Open Scope Z_scope.
Local Open Scope nat_scope.
Local Open Scope string_scope.
Local Open Scope list_scope.

(** ** JavaScript values *)

(** The values that occur in the responses and in arrays.  Numbers are the
    integers the API uses (status codes); [JUndefined] also stands for a
    missing property and for a hole of an array. *)
Inductive jsval :=
| JUndefined
| JNull
| JBool (b : bool)
| JNum (n : Z)
| JStr (s : string).

#[global] Instance jsval_eq_dec : EqDecision jsval.
Proof. solve_decision. Defined.

(** [ToBoolean]. *)
Definition truthy (v : jsval) : bool :=
  match v with
  | JUndefined | JNull => false
  | JBool b => b
  | JNum n => negb (n =? 0)%Z
  | JStr s => negb (String.eqb s "")
  end.

(** [a || b]. *)
Definition js_or (a b : jsval) : jsval := if truthy a then a else b.

(** [v === 429] and the like. *)
Definition strict_eq (a b : jsval) : bool := bool_decide (a = b).

(** A byte that continues a character of several bytes. *)
Definition is_continuation (c : ascii) : bool :=
  Nat.leb 128 (nat_of_ascii c) && Nat.ltb (nat_of_ascii c) 192.

(** A byte that starts a character of four bytes: two UTF-16 code units (a
    surrogate pair) in JavaScript. *)
Definition is_astral (c : ascii) : bool := Nat.leb 240 (nat_of_ascii c).

(** The first code unit of the surrogate pair of the character of four
    bytes that starts with [c] and goes on with [s], written with the three
    bytes a surrogate takes on its own. *)
Definition high_surrogate (c : ascii) (s : string) : string :=
  let b1 := match s with String x _ => nat_of_ascii x | _ => 128 end in
  let b2 := match s with String _ (String x _) => nat_of_ascii x | _ => 128 end in
  let hi := 216 * 256 + ((nat_of_ascii c mod 8) * 256 + (b1 mod 64) * 4 + (b2 mod 64) / 16) - 64 in
  String (ascii_of_nat 237)
    (String (ascii_of_nat (128 + (hi / 64) mod 64))
       (String (ascii_of_nat (128 + hi mod 64)) EmptyString)).

(** [s.slice(0, n)] on a string.  A string is given by its UTF-8 bytes and
    JavaScript counts UTF-16 code units: a character of one to three bytes
    is one unit, a character of four bytes is two.  A slice that ends
    between the two units of a character keeps the first of them. *)
Fixpoint slice0 (n : nat) (s : string) : string :=
  match s with
  | EmptyString => EmptyString
  | String c s' =>
      if is_continuation c then String c (slice0 n s')
      else match n with
           | 0 => EmptyString
           | S m =>
               if is_astral c then
                 match m with
                 | 0 => high_surrogate c s'
                 | S m' => String c (slice0 m' s')
                 end
               else String c (slice0 m s')
           end
  end.

(** [x || y] on an optional integer: [None] (undefined, null, NaN) and [0]
    are falsy. *)
Definition num_or (x y : option Z) : option Z :=
  match x with
  | Some n => if (n =? 0)%Z then y else x
  | None => y
  end.

(** The same on an optional rational (an amount, a delay). *)
Definition amount_or (x y : option Q) : option Q :=
  match x with
  | Some q => if Qeq_bool q 0 then y else x
  | None => y
  end.

(** ** Arrays *)

(** [a[i]]: out of range reads give [undefined]. *)
Definition js_get (a : list jsval) (i : nat) : jsval := default JUndefined (a !! i).

(** [a[i] = v]: a write past the end grows the array, the skipped slots
    read as [undefined]. *)
Definition js_set (a : list jsval) (i : nat) (v : jsval) : list jsval :=
  if decide (i < length a) then <[i:=v]> a
  else a ++ replicate (i - length a) JUndefined ++ [v].

(** [[a[i], a[j]] = [a[j], a[i]]]: both reads happen before both writes. *)
Definition js_swap (a : list jsval) (i j : nat) : list jsval :=
  let x := js_get a j in
  let y := js_get a i in
  js_set (js_set a i x) j y.

(** [Math.floor(r * n)] as an array index. *)
Definition floor_index (r : Q) (n : nat) : nat :=
  Z.to_nat (Qfloor (r * inject_Z (Z.of_nat n))).

(** ** Responses of the transfer API *)

(** The parsed body: the properties the senders read, and the text
    [JSON.stringify] gives for it. *)
Record Json := {
  j_status : jsval;            (* data.status *)
  j_success : jsval;           (* data.success *)
  j_message : jsval;           (* data.message *)
  j_error : jsval;             (* data.error *)
  j_transfer_hash : jsval;     (* data.data?.transferData?.hash *)
  j_transfer_txHash : jsval;   (* data.data?.transferData?.txHash *)
  j_txHash : jsval;            (* data.txHash *)
  j_text : string              (* JSON.stringify(data) *)
}.

Inductive Body :=
| BodyJson (data : Json)       (* the body parses to an object *)
| BodyRaw (text : string) (stringified : string) (error : string).
    (* the body is not JSON; [stringified] is JSON.stringify({raw: text}) and
       [error] the message of the SyntaxError of JSON.parse(text) *)

(** What one [fetch] gives: the request fails (the promise rejects), or a
    response with a status and a body arrives. *)
Inductive FetchResult :=
| NetworkError (message : string)
| Response (status : Z) (body : Body).

(** ** The environment *)

(** What [extractUserId(token)] gives, as far as the sender uses it: no
    user id ([null] when the token cannot be decoded, [undefined] when its
    payload has none), a string, an array (which has a [slice] method), or
    another value (a number, a boolean, an object). *)
Inductive UserId :=
| NoUserId
| TextUserId (id : string)
| ArrayUserId
| OtherUserId.

Record Env := {
  random : nat -> Q;             (* the n-th Math.random() *)
  network : nat -> FetchResult;  (* what the n-th fetch gives *)
  clock : nat -> Z;              (* the n-th Date.now(), in ms *)
  sigint : nat -> bool;          (* SIGINT is pending at the n-th wait *)
  extractUserId : string -> UserId   (* extractUserId(token) *)
}.

(** [Math.random] returns a number in [0, 1). *)
Definition random_unit (E : Env) : Prop :=
  forall n, (0 <= random E n)%Q /\ (random E n < 1)%Q.

(** No interruption during the run. *)
Definition no_sigint (E : Env) : Prop := forall n, sigint E n = false.

(** ** Results, statistics, events *)

(** What [send] returns: [{success: true, hash, toAddress, amount, data}] or
    [{success: false, error, toAddress, amount}]. *)
Inductive SendResult :=
| Sent (hash : jsval) (toAddress : string) (amount : Q) (data : Json)
| NotSent (error : jsval) (toAddress : string) (amount : Q).

Definition r_success (r : SendResult) : bool :=
  match r with Sent _ _ _ _ => true | NotSent _ _ _ => false end.

Definition r_toAddress (r : SendResult) : string :=
  match r with Sent _ a _ _ => a | NotSent _ a _ => a end.

Definition r_amount (r : SendResult) : Q :=
  match r with Sent _ _ q _ => q | NotSent _ _ q => q end.

(** [this.stats] of a [DiamanteSender]. *)
Record Stats := {
  total : nat;
  success : nat;
  failed : nat;
  amount : Q;
  start : option Z
}.

(** The constructor's [{ total: 0, success: 0, failed: 0, amount: 0, start: null }]. *)
Definition new_stats : Stats :=
  {| total := 0; success := 0; failed := 0; amount := 0%Q; start := None |}.

(** What [printSummary] computes and prints. *)
Record Summary := {
  s_total : nat;
  s_success : nat;
  s_failed : nat;
  s_amount : Q;
  elapsedSeconds : Q;
  throughputPerSecond : Q;
  perWallet : option (gmap string (nat * nat))
}.

(** Where a [sleep] is called from. *)
Inductive Site :=
| HumanDelay      (* humanDelay, the pause between two tasks *)
| Backoff         (* the wait after a rate-limited response *)
| RoundPause      (* sleep(5000) between two rounds *)
| Countdown       (* cli.js: one second of the pause between two tasks *)
| RetryCountdown  (* cli.js: one second of the rate-limit wait *)
| Notice.         (* cli.js: the time a message stays on the screen *)

#[global] Instance Site_eq_dec : EqDecision Site.
Proof. solve_decision. Defined.

Inductive Event :=
| EvSleep (site : Site) (ms : Q)
| EvFetch (toAddress : string) (amount : Q)
| EvTask (wallet : string) (sendNum : option nat)  (* "[wallet] Send n/k" *)
| EvSpin (wallet : string)                         (* cli.js: the task's spinner starts *)
| EvProgress (done all : nat)                      (* the progress bar after a task *)
| EvRound (iter : nat)
| EvInterrupted                                    (* the SIGINT handler's message *)
| EvError (message : string)                       (* console.error / a red line *)
| EvHistory                                        (* the request of getHistory *)
| EvDone (succeeded all : nat)                     (* cli.js: "done! s/n successful" *)
| EvSummary (s : Summary).

(** ** The world and the monad of effects *)

Record World := {
  heap : gmap nat (list jsval);   (* the arrays, by address *)
  stats : Stats;                  (* this.stats *)
  MIN_DELAY : Q;
  MAX_DELAY : Q;
  results : list SendResult;      (* sendRound's [results] *)
  n_random : nat;                 (* Math.random() calls so far *)
  n_fetch : nat;                  (* fetch calls so far *)
  n_clock : nat;                  (* Date.now() calls so far *)
  n_wait : nat;                   (* waits (timers, requests) so far *)
  trace : list Event              (* oldest first *)
}.

(** The state of the module when it is loaded. *)
Definition initial_world : World :=
  {| heap := ∅; stats := new_stats; MIN_DELAY := 1.5%Q; MAX_DELAY := 4.0%Q;
     results := []; n_random := 0; n_fetch := 0; n_clock := 0; n_wait := 0;
     trace := [] |}.

Definition set_heap (h : gmap nat (list jsval)) (w : World) : World :=
  {| heap := h; stats := stats w; MIN_DELAY := MIN_DELAY w; MAX_DELAY := MAX_DELAY w;
     results := results w; n_random := n_random w; n_fetch := n_fetch w;
     n_clock := n_clock w; n_wait := n_wait w; trace := trace w |}.

Definition set_stats (s : Stats) (w : World) : World :=
  {| heap := heap w; stats := s; MIN_DELAY := MIN_DELAY w; MAX_DELAY := MAX_DELAY w;
     results := results w; n_random := n_random w; n_fetch := n_fetch w;
     n_clock := n_clock w; n_wait := n_wait w; trace := trace w |}.

Definition set_delays (lo hi : Q) (w : World) : World :=
  {| heap := heap w; stats := stats w; MIN_DELAY := lo; MAX_DELAY := hi;
     results := results w; n_random := n_random w; n_fetch := n_fetch w;
     n_clock := n_clock w; n_wait := n_wait w; trace := trace w |}.

Definition set_results (rs : list SendResult) (w : World) : World :=
  {| heap := heap w; stats := stats w; MIN_DELAY := MIN_DELAY w; MAX_DELAY := MAX_DELAY w;
     results := rs; n_random := n_random w; n_fetch := n_fetch w;
     n_clock := n_clock w; n_wait := n_wait w; trace := trace w |}.

Definition tick_random (w : World) : World :=
  {| heap := heap w; stats := stats w; MIN_DELAY := MIN_DELAY w; MAX_DELAY := MAX_DELAY w;
     results := results w; n_random := S (n_random w); n_fetch := n_fetch w;
     n_clock := n_clock w; n_wait := n_wait w; trace := trace w |}.

Definition tick_fetch (w : World) : World :=
  {| heap := heap w; stats := stats w; MIN_DELAY := MIN_DELAY w; MAX_DELAY := MAX_DELAY w;
     results := results w; n_random := n_random w; n_fetch := S (n_fetch w);
     n_clock := n_clock w; n_wait := n_wait w; trace := trace w |}.

Definition tick_clock (w : World) : World :=
  {| heap := heap w; stats := stats w; MIN_DELAY := MIN_DELAY w; MAX_DELAY := MAX_DELAY w;
     results := results w; n_random := n_random w; n_fetch := n_fetch w;
     n_clock := S (n_clock w); n_wait := n_wait w; trace := trace w |}.

Definition tick_wait (w : World) : World :=
  {| heap := heap w; stats := stats w; MIN_DELAY := MIN_DELAY w; MAX_DELAY := MAX_DELAY w;
     results := results w; n_random := n_random w; n_fetch := n_fetch w;
     n_clock := n_clock w; n_wait := S (n_wait w); trace := trace w |}.

Definition add_event (e : Event) (w : World) : World :=
  {| heap := heap w; stats := stats w; MIN_DELAY := MIN_DELAY w; MAX_DELAY := MAX_DELAY w;
     results := results w; n_random := n_random w; n_fetch := n_fetch w;
     n_clock := n_clock w; n_wait := n_wait w; trace := trace w ++ [e] |}.

(** A computation returns, throws an [Error] with a message, ends the
    process ([process.exit]), or is cut off by the bound on the number of
    turns of a loop that the embedding unrolls ([rounds], [retry_loop]). *)
Inductive Outcome (A : Type) :=
| Ret (a : A) (w : World)
| Throw (message : string) (w : World)
| Exit (code : Z) (w : World)
| OutOfFuel (w : World).
Arguments Ret {A} a w.
Arguments Throw {A} message w.
Arguments Exit {A} code w.
Arguments OutOfFuel {A} w.

Definition world_of {A} (o : Outcome A) : World :=
  match o with Ret _ w | Throw _ w | Exit _ w | OutOfFuel w => w end.

Definition M (A : Type) : Type := World -> Outcome A.

#[global] Instance M_ret : MRet M := fun A a w => Ret a w.

#[global] Instance M_bind : MBind M := fun A B f m w =>
  match m w with
  | Ret a w' => f a w'
  | Throw e w' => Throw e w'
  | Exit c w' => Exit c w'
  | OutOfFuel w' => OutOfFuel w'
  end.

Definition throw {A} (message : string) : M A := fun w => Throw message w.
Definition exit {A} (code : Z) : M A := fun w => Exit code w.
Definition get : M World := fun w => Ret w w.
Definition modify (f : World -> World) : M unit := fun w => Ret tt (f w).
Definition emit (e : Event) : M unit := modify (add_event e).

(** [try { body } catch (e) { handler(e.message) }]: [process.exit] is not
    caught. *)
Definition try_catch {A} (body : M A) (handler : string -> M A) : M A := fun w =>
  match body w with
  | Throw e w' => handler e w'
  | o => o
  end.

Section Primitives.
Context (E : Env).

(** [Math.random()]. *)
Definition math_random : M Q := fun w => Ret (random E (n_random w)) (tick_random w).

(** [Date.now()]. *)
Definition date_now : M Z := fun w => Ret (clock E (n_clock w)) (tick_clock w).

(** The event loop turns while the program waits.  [main] of diamante.js
    installs [process.on('SIGINT', ...)]: a pending SIGINT runs the handler
    there, which prints a line and calls [process.exit(130)]. *)
Definition wait : M unit := fun w =>
  if sigint E (n_wait w)
  then Exit 130 (add_event EvInterrupted (tick_wait w))
  else Ret tt (tick_wait w).

(** [await sleep(ms)]. *)
Definition sleep (site : Site) (ms : Q) : M unit :=
  emit (EvSleep site ms) ;; wait.

(** [await fetch(API_URL, ...)] followed by reading the body. *)
Definition fetch (toAddress : string) (amount : Q) : M (Z * Body) := fun w =>
  let w1 := add_event (EvFetch toAddress amount) (tick_fetch w) in
  match wait w1 with
  | Ret _ w2 =>
      match network E (n_fetch w) with
      | NetworkError msg => Throw msg w2
      | Response status body => Ret (status, body) w2
      end
  | Throw e w2 => Throw e w2
  | Exit c w2 => Exit c w2
  | OutOfFuel w2 => OutOfFuel w2
  end.
End Primitives.

(** ** The array store *)

(** A new array: a fresh address, holding the given elements. *)
Definition alloc (a : list jsval) : M nat := fun w =>
  let l := fresh (dom (heap w)) in
  Ret l (set_heap (<[l:=a]> (heap w)) w).

(** The elements of the array at an address. *)
Definition array_at (w : World) (l : nat) : list jsval := default [] (heap w !! l).

Definition read_array (l : nat) : M (list jsval) := fun w => Ret (array_at w l) w.

(** An update in place of the array at an address. *)
Definition update_array (l : nat) (f : list jsval -> list jsval) : M unit := fun w =>
  Ret tt (set_heap (<[l:=f (array_at w l)]> (heap w)) w).

(** [queue.push(v)]. *)
Definition push (l : nat) (v : jsval) : M unit := update_array l (fun a => a ++ [v]).

(** The Fisher-Yates loop both senders run,
    [for (let i = a.length - 1; i > 0; i--) { j = Math.floor(Math.random() * (i + 1)); swap }],
    from index [i] down, on the array at address [a]. *)
Fixpoint shuffle_loop (E : Env) (a : nat) (i : nat) : M unit :=
  match i with
  | 0 => mret tt
  | S i' =>
      r ← math_random E;
      let j := floor_index r (i + 1) in
      update_array a (fun xs => js_swap xs i j) ;;
      shuffle_loop E a i'
  end.

(** [for (const wallet of wallets) for (let i = 0; i < sendPerWallet; i++) queue.push(wallet)]. *)
Fixpoint push_times (queue : nat) (wallet : string) (n : nat) : M unit :=
  match n with
  | 0 => mret tt
  | S n' => push queue (JStr wallet) ;; push_times queue wallet n'
  end.

Fixpoint push_wallets (queue : nat) (wallets : list string) (sendPerWallet : Z) : M unit :=
  match wallets with
  | [] => mret tt
  | wallet :: rest =>
      push_times queue wallet (Z.to_nat sendPerWallet) ;;
      push_wallets queue rest sendPerWallet
  end.

(** The message of the [TypeError] of [wallet.slice(...)] on a value that is
    not a string. *)
Definition slice_type_error (v : jsval) : string :=
  match v with
  | JUndefined => "Cannot read properties of undefined (reading 'slice')"
  | JNull => "Cannot read properties of null (reading 'slice')"
  | _ => "wallet.slice is not a function"
  end.

(** ** Strings of the command line *)

(** [s.split(',')]. *)
Fixpoint split_comma (s : string) : list string :=
  match s with
  | EmptyString => [EmptyString]
  | String c s' =>
      if Ascii.eqb c ","%char then EmptyString :: split_comma s'
      else match split_comma s' with
           | x :: xs => String c x :: xs
           | [] => [String c EmptyString]
           end
  end.

(** White space, of the ASCII range (JavaScript also counts U+00A0, U+FEFF
    and the other Unicode spaces and line ends). *)
Definition is_space (c : ascii) : bool :=
  let n := nat_of_ascii c in
  Nat.eqb n 32 || (Nat.leb 9 n && Nat.leb n 13).

Fixpoint trim_left (s : string) : string :=
  match s with
  | EmptyString => EmptyString
  | String c s' => if is_space c then trim_left s' else s
  end.

Fixpoint trim_right (s : string) : string :=
  match s with
  | EmptyString => EmptyString
  | String c s' =>
      match trim_right s' with
      | EmptyString => if is_space c then EmptyString else String c EmptyString
      | t => String c t
      end
  end.

(** [s.trim()], on an ASCII string. *)
Definition trim (s : string) : string := trim_right (trim_left s).

(** [hay.includes(needle)]. *)
Fixpoint includes (needle hay : string) : bool :=
  String.prefix needle hay ||
  match hay with
  | EmptyString => false
  | String _ hay' => includes needle hay'
  end.

(** A string option as a condition: missing and empty strings are falsy. *)
Definition truthy_str (s : option string) : bool :=
  match s with
  | Some t => negb (String.eqb t "")
  | None => false
  end.

(** ** The configuration *)

(** [config.json], with the types its fields are documented to have. *)
Record Config := {
  accessToken : option string;
  c_wallets : option (list string);
  amountPerSend : option Q;
  c_sendPerWallet : option Z;
  c_continuous : bool;
  maxIterations : option Z;
  delays : option (Q * Q)       (* { min, max } *)
}.

Module Diamante.

Section Program.
Context (E : Env).

(** *** Utilities *)

(** [humanDelay]. *)
Definition humanDelay : M unit :=
  r ← math_random E;
  w ← get;
  let delay := (MIN_DELAY w + r * (MAX_DELAY w - MIN_DELAY w))%Q in
  sleep E HumanDelay (delay * 1000)%Q.

(** [shuffle(arr)]: [const a = [...arr]] is a new array; the swaps are
    done on it, and it is returned. *)
Definition shuffle (arr : nat) : M nat :=
  xs ← read_array arr;
  a ← alloc xs;
  shuffle_loop E a (length xs - 1) ;;
  mret a.

(** *** The API client *)

Definition MAX_RETRIES : nat := 3.

(** The wait before retry number [retryCount + 1], in seconds. *)
Definition waitTime (retryCount : nat) : Z := 5 + Z.of_nat retryCount * 3.

(** [data] of [send]: the parsed body, or [{ raw: responseText }]. *)
Definition parse_body (body : Body) : Json :=
  match body with
  | BodyJson data => data
  | BodyRaw text stringified _ =>
      {| j_status := JUndefined; j_success := JUndefined; j_message := JUndefined;
         j_error := JUndefined; j_transfer_hash := JUndefined;
         j_transfer_txHash := JUndefined; j_txHash := JUndefined;
         j_text := stringified |}
  end.

(** [data.status === 429 || res.status === 429]. *)
Definition rate_limited (status : Z) (data : Json) : bool :=
  strict_eq (j_status data) (JNum 429) || (status =? 429)%Z.

(** [this.stats.total++; if (!this.stats.start) this.stats.start = Date.now()]. *)
Definition count_attempt : M unit :=
  modify (fun w =>
    let s := stats w in
    set_stats {| total := S (total s); success := success s; failed := failed s;
                 amount := amount s; start := start s |} w) ;;
  w ← get;
  match start (stats w) with
  | Some t =>
      if (t =? 0)%Z then
        now ← date_now E;
        modify (fun w =>
          let s := stats w in
          set_stats {| total := total s; success := success s; failed := failed s;
                       amount := amount s; start := Some now |} w)
      else mret tt
  | None =>
      now ← date_now E;
      modify (fun w =>
        let s := stats w in
        set_stats {| total := total s; success := success s; failed := failed s;
                     amount := amount s; start := Some now |} w)
  end.

(** [this.stats.success++; this.stats.amount += Number(amount)]. *)
Definition count_success (q : Q) : M unit :=
  modify (fun w =>
    let s := stats w in
    set_stats {| total := total s; success := S (success s); failed := failed s;
                 amount := (amount s + q)%Q; start := start s |} w).

(** [this.stats.failed++]. *)
Definition count_failed : M unit :=
  modify (fun w =>
    let s := stats w in
    set_stats {| total := total s; success := success s; failed := S (failed s);
                 amount := amount s; start := start s |} w).

(** The end of [send]'s [try] block, from "Check for actual success" on. *)
(** [transferData.hash || transferData.txHash || data.txHash || '✓']. *)
Definition hash_of (data : Json) : jsval :=
  js_or (j_transfer_hash data)
    (js_or (j_transfer_txHash data) (js_or (j_txHash data) (JStr "✓"))).

(** [data.message || data.error || JSON.stringify(data).slice(0, 60)]. *)
Definition errMsg_of (data : Json) : jsval :=
  js_or (j_message data) (js_or (j_error data) (JStr (slice0 60 (j_text data)))).

Definition conclude (toAddress : string) (q : Q) (data : Json) : M SendResult :=
  if strict_eq (j_success data) (JBool true) then
    count_success q ;;
    mret (Sent (hash_of data) toAddress q data)
  else
    count_failed ;;
    mret (NotSent (errMsg_of data) toAddress q).

(** [async send(toAddress, amount, retryCount = 0)]. *)
Equations? send (toAddress : string) (q : Q) (retryCount : nat) : M SendResult
  by wf (MAX_RETRIES - retryCount) lt :=
send toAddress q retryCount :=
  (if decide (retryCount = 0) then count_attempt else mret tt) ;;
  try_catch
    (res ← fetch E toAddress q;
     let data := parse_body res.2 in
     if rate_limited res.1 data then
       match lt_dec retryCount MAX_RETRIES with
       | left _ =>
           sleep E Backoff (inject_Z (waitTime retryCount * 1000)) ;;
           send toAddress q (retryCount + 1)
       | right _ => conclude toAddress q data
       end
     else conclude toAddress q data)
    (fun message =>
       count_failed ;;
       mret (NotSent (JStr message) toAddress q)).
Proof. lia. Qed.

(** *** Rounds *)

(** [buildQueue] of [sendRound]. *)
Definition buildQueue (wallets : list string) (sendPerWallet : Z) : M nat :=
  queue ← alloc [];
  push_wallets queue wallets sendPerWallet ;;
  shuffle queue.

(** [sendCount[wallet]++]: a missing entry becomes [NaN] ([None]).  The
    counters are the own properties of a plain object, which this map is
    for every wallet but [__proto__]. *)
Definition bump (sendCount : gmap string (option nat)) (wallet : string)
  : gmap string (option nat) :=
  <[wallet := match sendCount !! wallet with
              | Some (Some n) => Some (S n)
              | _ => None
              end]> sendCount.

(** [results.push(result)]. *)
Definition push_result (r : SendResult) : M unit :=
  modify (fun w => set_results (results w ++ [r]) w).

(** The [for] loop of a round, from index [i] on; [queue] holds
    [queue[i]], [queue[i+1]], ... and [n] is [queue.length]. *)
Fixpoint dispatch (q : Q) (iter n i : nat) (queue : list jsval)
    (sendCount : gmap string (option nat)) : M unit :=
  match queue with
  | [] => mret tt
  | v :: rest =>
      (if decide (0 < i ∨ 1 < iter) then humanDelay else mret tt) ;;
      match v with
      | JStr wallet =>
          let sendCount := bump sendCount wallet in
          emit (EvTask wallet (default None (sendCount !! wallet))) ;;
          result ← send wallet q 0;
          push_result result ;;
          emit (EvProgress (i + 1) n) ;;
          dispatch q iter n (i + 1) rest sendCount
      | _ => throw (slice_type_error v)
      end
  end.

(** [maxIter && iter >= maxIter]. *)
Definition reached (maxIter : option Z) (iter : nat) : bool :=
  match maxIter with
  | Some m => negb (m =? 0)%Z && (m <=? Z.of_nat iter)%Z
  | None => false
  end.

(** One turn of the [while (true)] loop of [sendRound], up to the end of
    its [for] loop; [iter] is the number of the round. *)
Definition round (wallets : list string) (q : Q) (sendPerWallet : Z) (iter : nat) : M unit :=
  queue ← buildQueue wallets sendPerWallet;
  emit (EvRound iter) ;;
  let sendCount : gmap string (option nat) :=
    list_to_map ((fun w => (w, Some 0)) <$> wallets) in
  xs ← read_array queue;
  dispatch q iter (length xs) 0 xs sendCount.

(** The [while (true)] loop of [sendRound]; [iter] is the number of rounds
    done.  The loop has no bound of its own in continuous mode: [fuel]
    bounds the number of rounds unrolled. *)
Fixpoint rounds (fuel : nat) (wallets : list string) (q : Q) (sendPerWallet : Z)
    (continuous : bool) (maxIter : option Z) (iter : nat) : M unit :=
  match fuel with
  | 0 => fun w => OutOfFuel w
  | S fuel' =>
      let iter := S iter in
      round wallets q sendPerWallet iter ;;
      if negb continuous then mret tt
      else if reached maxIter iter then mret tt
      else
        sleep E RoundPause 5000 ;;
        rounds fuel' wallets q sendPerWallet continuous maxIter iter
  end.

(** [elapsed] of [printSummary] once [Date.now()] is known. *)
Definition elapsed_of (start : Z) (now : Z) : Q :=
  (inject_Z (now - start) / 1000)%Q.

(** [tps = elapsed > 0 ? s.total / elapsed : 0]. *)
Definition tps_of (total : nat) (elapsed : Q) : Q :=
  if Qlt_le_dec 0 elapsed then (inject_Z (Z.of_nat total) / elapsed)%Q else 0%Q.

(** The per-wallet tally of [printSummary].  The tally is kept in a plain
    object, which this map is for the addresses that do not name a
    property every object has ([constructor], [__proto__], ...). *)
Definition tally (m : gmap string (nat * nat)) (r : SendResult) : gmap string (nat * nat) :=
  let '(s, f) := default (0, 0) (m !! r_toAddress r) in
  <[r_toAddress r := if r_success r then (S s, f) else (s, S f)]> m.

Definition summary_of (s : Stats) (elapsed : Q) (rs : list SendResult) (walletCount : nat)
  : Summary :=
  {| s_total := total s; s_success := success s; s_failed := failed s;
     s_amount := amount s;
     elapsedSeconds := elapsed;
     throughputPerSecond := tps_of (total s) elapsed;
     perWallet := if decide (walletCount <= 10) then Some (foldl tally ∅ rs) else None |}.

(** [printSummary(results, walletCount, sendPerWallet)]. *)
Definition printSummary (rs : list SendResult) (walletCount : nat) : M unit :=
  w ← get;
  let s := stats w in
  elapsed ← match start s with
            | Some t =>
                if (t =? 0)%Z then mret 0%Q
                else now ← date_now E; mret (elapsed_of t now)
            | None => mret 0%Q
            end;
  emit (EvSummary (summary_of s elapsed rs walletCount)).

(** [async sendRound(wallets, amount, sendPerWallet, continuous, maxIter)]. *)
Definition sendRound (fuel : nat) (wallets : list string) (q : Q) (sendPerWallet : Z)
    (continuous : bool) (maxIter : option Z) : M (list SendResult) :=
  modify (set_results []) ;;
  try_catch
    (rounds fuel wallets q sendPerWallet continuous maxIter 0)
    (fun message =>
       if String.eqb message "interrupted" then mret tt else throw message) ;;
  w ← get;
  printSummary (results w) (length wallets) ;;
  mret (results w).

(** *** The command line *)

(** What [parseArgs] returns; a missing option is [None]. *)
Record Opts := {
  o_token : option string;
  o_to : option string;
  o_amount : option Q;          (* the number the --amount string denotes *)
  o_sendPerWallet : option Z;   (* parseInt of --sends; NaN is [None] *)
  o_continuous : bool;
  o_iterations : option Z;
  o_fast : bool;
  o_history : bool;
  o_config : bool
}.

(** [getHistory] as [main] uses it: one request, and
    [res.ok ? res.json() : null], which is printed. *)
Definition getHistory : M unit := fun w =>
  let w1 := add_event EvHistory (tick_fetch w) in
  match network E (n_fetch w) with
  | NetworkError msg => Throw msg w1
  | Response status body =>
      if (200 <=? status)%Z && (status <=? 299)%Z then
        match body with
        | BodyJson _ => Ret tt w1
        | BodyRaw _ _ error => Throw error w1
        end
      else Ret tt w1
  end.

(** [new DiamanteSender(token)]: the statistics are new, and the line
    "Initialized | User: ..." is printed with
    [this.userId?.slice(0, 8) || 'unknown'], a [TypeError] when the user
    id of the token is there and has no [slice] method. *)
Definition new_sender (token : string) : M unit :=
  modify (set_stats new_stats) ;;
  match extractUserId E token with
  | NoUserId | TextUserId _ | ArrayUserId => mret tt
  | OtherUserId => throw "this.userId?.slice is not a function"
  end.

(** The wallets [main] sends to. *)
Definition resolve_wallets (opts : Opts) (config : option Config) : list string :=
  match o_to opts with
  | Some to =>
      if String.eqb to "" then default [] (config ≫= c_wallets)
      else filter (fun a => a ≠ "") (trim <$> split_comma to)
  | None => default [] (config ≫= c_wallets)
  end.

(** [opts.sendPerWallet || config?.sendPerWallet || 2]. *)
Definition resolve_sendPerWallet (opts : Opts) (config : option Config) : Z :=
  default 2%Z (num_or (o_sendPerWallet opts) (num_or (config ≫= c_sendPerWallet) None)).

(** [opts.amount || config?.amountPerSend || '1'], as a number. *)
Definition resolve_amount (opts : Opts) (config : option Config) : Q :=
  match o_amount opts with
  | Some q => q
  | None => default 1%Q (amount_or (config ≫= amountPerSend) None)
  end.

(** [config] of [main]: [loadConfig()] is called only without a token or
    with --config; [file_config] is what it gives then. *)
Definition effective_config (opts : Opts) (file_config : option Config) : option Config :=
  if o_config opts || negb (truthy_str (o_token opts)) then file_config else None.

(** [async function main()]. *)
Definition main (fuel : nat) (opts : Opts) (file_config : option Config) : M unit :=
  let config := effective_config opts file_config in
  if bool_decide (config = None) && negb (truthy_str (o_token opts)) then
    emit (EvError "No config.json found and no --token provided") ;;
    exit 1
  else
    let token := if truthy_str (o_token opts) then o_token opts
                 else config ≫= accessToken in
    let wallets := resolve_wallets opts config in
    let q := resolve_amount opts config in
    let sendPerWallet := resolve_sendPerWallet opts config in
    let continuous := o_continuous opts || from_option c_continuous false config in
    let maxIter := num_or (o_iterations opts) (num_or (config ≫= maxIterations) None) in
    match config ≫= delays with
    | Some (lo, hi) => modify (set_delays lo hi)
    | None => mret tt
    end ;;
    (if o_fast opts then modify (set_delays 0.5 1.0) else mret tt) ;;
    if negb (truthy_str token) then
      emit (EvError "--token is required") ;;
      exit 1
    else if bool_decide (length wallets = 0) then
      emit (EvError "No wallets provided") ;;
      exit 1
    else
      new_sender (default "" token) ;;
      if o_history opts then getHistory
      else
        rs ← sendRound fuel wallets q sendPerWallet continuous maxIter;
        exit (if existsb (fun r => negb (r_success r)) rs then 1 else 0)%Z.

(** [main().catch(e => { console.error(...); process.exit(1); })]. *)
Definition run (fuel : nat) (opts : Opts) (file_config : option Config) : M unit :=
  try_catch (main fuel opts file_config)
    (fun message => emit (EvError message) ;; exit 1).
End Program.

End Diamante.

Module Cli.

(** What [sendTransaction] returns: [{retry: true, waitTime, retryCount}],
    [{success: true, hash}] or [{success: false, error}]. *)
Inductive TxResult :=
| Retry (waitTime : Z) (retryCount : nat)
| TxSent (hash : jsval)
| TxFailed (error : jsval).

Section Program.
Context (E : Env).

(** cli.js installs no SIGINT handler: its waits only let time pass. *)
Definition sleep (site : Site) (ms : Q) : M unit :=
  emit (EvSleep site ms) ;; modify tick_wait.

(** [await fetch(API_URL, ...)]. *)
Definition fetch (toAddress : string) (q : Q) : M (Z * Body) := fun w =>
  let w1 := tick_wait (add_event (EvFetch toAddress q) (tick_fetch w)) in
  match network E (n_fetch w) with
  | NetworkError msg => Throw msg w1
  | Response status body => Ret (status, body) w1
  end.

(** [await res.json()]: a body that is not JSON is a [SyntaxError]. *)
Definition res_json (body : Body) : M Json :=
  match body with
  | BodyJson data => mret data
  | BodyRaw _ _ error => throw error
  end.

(** [data.message && data.message.includes('guardian')]. *)
Definition mentions_guardian (message : jsval) : M bool :=
  if truthy message then
    match message with
    | JStr s => mret (includes "guardian" s)
    | _ => throw "data.message.includes is not a function"
    end
  else mret false.

Definition MAX_RETRIES : nat := 3.

(** [15 + retryCount * 10]: 15s, 25s, 35s. *)
Definition waitTime (retryCount : nat) : Z := 15 + Z.of_nat retryCount * 10.

(** [sendTransaction(token, userId, toAddress, amount, retryCount = 0)]. *)
Definition sendTransaction (toAddress : string) (q : Q) (retryCount : nat) : M TxResult :=
  try_catch
    (res ← fetch toAddress q;
     data ← res_json res.2;
     limited ← (if strict_eq (j_status data) (JNum 429) || (res.1 =? 429)%Z
                then mret true
                else mentions_guardian (j_message data));
     if limited && bool_decide (retryCount < MAX_RETRIES) then
       mret (Retry (waitTime retryCount) (retryCount + 1))
     else if truthy (j_success data) then
       mret (TxSent (js_or (j_transfer_hash data) (JStr "✓")))
     else
       mret (TxFailed (js_or (j_message data) (JStr "Failed"))))
    (fun message => mret (TxFailed (JStr message))).

(** [for (let sec = n; sec > 0; sec--) await sleep(1000)], and the same
    loop written with [while (remaining > 0)]. *)
Fixpoint countdown (site : Site) (n : nat) : M unit :=
  match n with
  | 0 => mret tt
  | S n' => sleep site 1000 ;; countdown site n'
  end.

(** [while (result.retry) { ...; result = await sendTransaction(..., result.retryCount); }];
    [fuel] bounds the number of iterations unrolled. *)
Fixpoint retry_loop (fuel : nat) (toAddress : string) (q : Q) (result : TxResult)
  : M TxResult :=
  match result with
  | Retry wt retryCount =>
      match fuel with
      | 0 => fun w => OutOfFuel w
      | S fuel' =>
          countdown RetryCountdown (Z.to_nat wt) ;;
          result' ← sendTransaction toAddress q retryCount;
          retry_loop fuel' toAddress q result'
      end
  | _ => mret result
  end.

(** One submission with its retries, as [runSending] does it. *)
Definition submit (fuel : nat) (toAddress : string) (q : Q) : M TxResult :=
  result ← sendTransaction toAddress q 0;
  retry_loop fuel toAddress q result.

(** "Build queue" and "Shuffle" of [runSending]: the queue is shuffled in
    place. *)
Definition buildQueue (wallets : list string) (sendsPerWallet : Z) : M nat :=
  queue ← alloc [];
  push_wallets queue wallets sendsPerWallet ;;
  xs ← read_array queue;
  shuffle_loop E queue (length xs - 1) ;;
  mret queue.

(** The pause before a task, in whole seconds. *)
Definition pause_seconds (minDelay maxDelay r : Q) : Z :=
  Qfloor (minDelay + r * (maxDelay - minDelay)).

(** The line [runSending] ends a task with.  A failure is shown with
    [result.error?.slice(0, 30) || 'Error']: a [TypeError] when the error
    is neither a string nor missing. *)
Definition shown (result : TxResult) : M unit :=
  match result with
  | TxFailed (JBool _) | TxFailed (JNum _) => throw "result.error?.slice is not a function"
  | _ => mret tt
  end.

(** The [for] loop of [runSending], from index [i] on. *)
Fixpoint send_all (fuel : nat) (q minDelay maxDelay : Q) (n i : nat)
    (queue : list jsval) (success failed : nat) : M (nat * nat) :=
  match queue with
  | [] => mret (success, failed)
  | v :: rest =>
      match v with
      | JStr wallet =>
          (if decide (0 < i) then
             r ← math_random E;
             countdown Countdown (Z.to_nat (pause_seconds minDelay maxDelay r))
           else mret tt) ;;
          emit (EvSpin wallet) ;;
          result ← submit fuel wallet q;
          let counts := match result with
                        | TxSent _ => (S success, failed)
                        | _ => (success, S failed)
                        end in
          shown result ;;
          emit (EvProgress (i + 1) n) ;;
          send_all fuel q minDelay maxDelay n (i + 1) rest counts.1 counts.2
      | _ => throw (slice_type_error v)
      end
  end.

(** [config.delays?.min || 92.4] and [config.delays?.max || 143.7]. *)
Definition minDelay_of (config : Config) : Q :=
  default 92.4%Q (amount_or (fst <$> delays config) None).

Definition maxDelay_of (config : Config) : Q :=
  default 143.7%Q (amount_or (snd <$> delays config) None).

(** [config.sendPerWallet || 2]. *)
Definition sendsPerWallet_of (config : Config) : Z :=
  default 2%Z (num_or (c_sendPerWallet config) None).

(** [runSending(config)]. *)
Definition runSending (fuel : nat) (config : Config) : M unit :=
  let wallets := default [] (c_wallets config) in
  let sendsPerWallet := sendsPerWallet_of config in
  let q := default 1%Q (amount_or (amountPerSend config) None) in
  if bool_decide (length wallets = 0) then
    emit (EvError "no wallets configured") ;;
    sleep Notice 2000
  else
    queue ← buildQueue wallets sendsPerWallet;
    xs ← read_array queue;
    counts ← send_all fuel q (minDelay_of config) (maxDelay_of config) (length xs) 0 xs 0 0;
    emit (EvDone counts.1 (length xs)) ;;
    sleep Notice 3000.
End Program.

End Cli.

(** ** Reading a trace *)

(** The sleeps that make the pause between two tasks. *)
Definition is_pause (site : Site) : bool :=
  match site with
  | HumanDelay | Countdown => true
  | _ => false
  end.

(** One step of [gaps]: [(closed, pending)] are the pauses before the tasks
    seen so far, and the pause sleeps since the last task started. *)
Definition gap_step (st : list (list Q) * list Q) (e : Event) : list (list Q) * list Q :=
  match e with
  | EvSleep site ms => if is_pause site then (st.1, st.2 ++ [ms]) else st
  | EvTask _ _ | EvSpin _ => (st.1 ++ [st.2], [])
  | _ => st
  end.

(** For each task of a trace, in order, the pause sleeps (in ms) between the
    start of the task before it (or the start of the trace) and its own
    start. *)
Definition gaps (tr : list Event) : list (list Q) := (foldl gap_step ([], []) tr).1.

(** The pause sleeps of a trace that no task follows. *)
Definition loose_pauses (tr : list Event) : list Q := (foldl gap_step ([], []) tr).2.

(** The number of times a wallet occurs in a queue. *)
Definition occurrences (r : string) (xs : list jsval) : nat :=
  length (filter (fun v => v = JStr r) xs).


(** The number of successful and of failed results. *)
Definition succeeded (rs : list SendResult) : nat := length (filter (fun r => r_success r = true) rs).
Definition failures (rs : list SendResult) : nat := length (filter (fun r => r_success r = false) rs).

(** The number of times a wallet is listed among the recipients. *)
Definition copies (r : string) (wallets : list string) : nat :=
  length (filter (fun w => w = r) wallets).

(** The queue before it is shuffled: [k] copies of each wallet, in the order
    of the list. *)
Fixpoint expand (wallets : list string) (k : nat) : list jsval :=
  match wallets with
  | [] => []
  | wallet :: rest => replicate k (JStr wallet) ++ expand rest k
  end.

(** The world after [n] more draws of [Math.random] and with the store [h]. *)
Definition redrawn (h : gmap nat (list jsval)) (n : nat) (w : World) : World :=
  set_heap h (Nat.iter n tick_random w).
Arguments redrawn : simpl never.

(** ** What a run of [send] leaves behind *)

(** The events [send] adds to the trace. *)
Definition send_event (e : Event) : Prop :=
  match e with
  | EvFetch _ _ | EvSleep Backoff _ | EvInterrupted => True
  | _ => False
  end.

(** No SIGINT is pending at the waits [lo], ..., [hi - 1]. *)
Definition calm (E : Env) (lo hi : nat) : Prop :=
  forall k, lo <= k < hi -> sigint E k = false.

(** Two worlds that differ by the statistics and the clock only. *)
Definition same_io (w w' : World) : Prop :=
  heap w' = heap w /\ results w' = results w /\ MIN_DELAY w' = MIN_DELAY w
  /\ MAX_DELAY w' = MAX_DELAY w /\ n_random w' = n_random w
  /\ n_fetch w' = n_fetch w /\ n_wait w' = n_wait w /\ trace w' = trace w.

(** How one call of [send] (with its retries) that returns [r] changes the
    statistics. *)
Definition counted (retryCount : nat) (q : Q) (s : Stats) (r : SendResult) (s' : Stats) : Prop :=
  total s' = total s + (if decide (retryCount = 0) then 1 else 0)
  /\ success s' = success s + (if r_success r then 1 else 0)
  /\ failed s' = failed s + (if r_success r then 0 else 1)
  /\ amount s' = (if r_success r then (amount s + q)%Q else amount s)
  /\ r_amount r = q.

(** What holds of the outcome [o] of [send toAddress q retryCount] from [w]. *)
Definition send_post (E : Env) (toAddress : string) (q : Q) (retryCount : nat)
    (w : World) (o : Outcome SendResult) : Prop :=
  let w' := world_of o in
  heap w' = heap w /\ results w' = results w /\ MIN_DELAY w' = MIN_DELAY w
  /\ MAX_DELAY w' = MAX_DELAY w /\ n_random w' = n_random w
  /\ (exists evs, trace w' = trace w ++ evs /\ Forall send_event evs)
  /\ n_fetch w' <= n_fetch w + S (Diamante.MAX_RETRIES - retryCount)
  /\ match o with
     | Ret r w' =>
         n_wait w <= n_wait w' /\ calm E (n_wait w) (n_wait w')
         /\ counted retryCount q (stats w) r (stats w') /\ r_toAddress r = toAddress
     | Exit c w' =>
         c = 130%Z /\ exists k, n_wait w <= k /\ n_wait w' = S k
                              /\ sigint E k = true /\ calm E (n_wait w) k
     | _ => False
     end.

(** A response that makes [send] retry while it has retries left. *)
Definition limited (fr : FetchResult) : bool :=
  match fr with
  | NetworkError _ => false
  | Response status body => Diamante.rate_limited status (Diamante.parse_body body)
  end.

(** What [send] returns when [fr] is the response it does not retry on. *)
Definition final_result (toAddress : string) (q : Q) (fr : FetchResult) : SendResult :=
  match fr with
  | NetworkError msg => NotSent (JStr msg) toAddress q
  | Response _ body =>
      let data := Diamante.parse_body body in
      if strict_eq (j_success data) (JBool true)
      then Sent (Diamante.hash_of data) toAddress q data
      else NotSent (Diamante.errMsg_of data) toAddress q
  end.


(** The delay [humanDelay] computes from the draw [r], in seconds. *)
Definition jitter (w : World) (r : Q) : Q :=
  (MIN_DELAY w + r * (MAX_DELAY w - MIN_DELAY w))%Q.

(** The outcome of a computation that can only be cut short by SIGINT:
    it does not throw; if it returns (or is cut off by the bound of the
    model) no SIGINT was pending at any of its waits; if the process
    exits, the code is 130 and SIGINT was pending at its last wait. *)
Definition interruptible {A} (E : Env) (w : World) (o : Outcome A) : Prop :=
  match o with
  | Ret _ w' | OutOfFuel w' => n_wait w <= n_wait w' /\ calm E (n_wait w) (n_wait w')
  | Exit c w' =>
      c = 130%Z /\ exists k, n_wait w <= k /\ n_wait w' = S k
                           /\ sigint E k = true /\ calm E (n_wait w) k
  | Throw _ _ => False
  end.

(** The first task of a run: index 0 of round 1. *)
Definition first_task (iter i : nat) : bool := bool_decide (¬ (0 < i ∨ 1 < iter)).

(** The events one submission of [runSending] adds to the trace. *)
Definition submit_event (e : Event) : Prop :=
  match e with
  | EvFetch _ _ | EvSleep RetryCountdown _ => True
  | _ => False
  end.


(** The fetches a result still allows the retry loop to make. *)
Definition budget (result : Cli.TxResult) : nat :=
  match result with
  | Cli.Retry _ retryCount => S (Cli.MAX_RETRIES - retryCount)
  | _ => 0
  end.

Definition is_retry (result : Cli.TxResult) : bool :=
  match result with
  | Cli.Retry _ _ => true
  | _ => false
  end.



(** ** Concrete environments and inputs *)

(** The double quote, for the texts of JSON bodies. *)
Definition dq : string := String (ascii_of_nat 34) EmptyString.

(** [{"success":true,"data":{"transferData":{"hash":"0xfeed"}}}]. *)
Definition json_ok : Json :=
  {| j_status := JUndefined; j_success := JBool true; j_message := JUndefined;
     j_error := JUndefined; j_transfer_hash := JStr "0xfeed";
     j_transfer_txHash := JUndefined; j_txHash := JUndefined;
     j_text := "{" ++ dq ++ "success" ++ dq ++ ":true," ++ dq ++ "data" ++ dq ++ ":{"
               ++ dq ++ "transferData" ++ dq ++ ":{" ++ dq ++ "hash" ++ dq ++ ":"
               ++ dq ++ "0xfeed" ++ dq ++ "}}}" |}.

(** [{"status":429,"success":false,"message":"Too Many Requests"}]. *)
Definition json_429 : Json :=
  {| j_status := JNum 429; j_success := JBool false; j_message := JStr "Too Many Requests";
     j_error := JUndefined; j_transfer_hash := JUndefined;
     j_transfer_txHash := JUndefined; j_txHash := JUndefined;
     j_text := "{" ++ dq ++ "status" ++ dq ++ ":429," ++ dq ++ "success" ++ dq ++ ":false,"
               ++ dq ++ "message" ++ dq ++ ":" ++ dq ++ "Too Many Requests" ++ dq ++ "}" |}.

(** Every transfer succeeds; the draws are all 1/2; time passes; no SIGINT. *)
Definition E_ok : Env :=
  {| random := fun _ => (1 # 2)%Q;
     network := fun _ => Response 200 (BodyJson json_ok);
     clock := fun n => (1000 + 250 * Z.of_nat n)%Z;
     sigint := fun _ => false;
     extractUserId := fun _ => NoUserId |}.

(** Every request is answered 429. *)
Definition E_429 : Env :=
  {| random := fun _ => (1 # 2)%Q;
     network := fun _ => Response 429 (BodyJson json_429);
     clock := fun n => (1000 + 250 * Z.of_nat n)%Z;
     sigint := fun _ => false;
     extractUserId := fun _ => NoUserId |}.


(** SIGINT arrives during the second wait of the run (the pause before the
    second task). *)
Definition E_sigint : Env :=
  {| random := fun _ => (1 # 2)%Q;
     network := fun _ => Response 200 (BodyJson json_ok);
     clock := fun n => (1000 + 250 * Z.of_nat n)%Z;
     sigint := fun n => bool_decide (n = 1);
     extractUserId := fun _ => NoUserId |}.


(** The clock is set back by a second after its first reading. *)
Definition E_back : Env :=
  {| random := fun _ => (1 # 2)%Q;
     network := fun _ => Response 200 (BodyJson json_ok);
     clock := fun n => if decide (n = 0) then 2000%Z else 1000%Z;
     sigint := fun _ => false;
     extractUserId := fun _ => NoUserId |}.

(** [node diamante.js --token tok --to <to> --sends <sends>]. *)
Definition opts_of (to : string) (sends : option Z) : Diamante.Opts :=
  {| Diamante.o_token := Some "tok"; Diamante.o_to := Some to;
     Diamante.o_amount := None; Diamante.o_sendPerWallet := sends;
     Diamante.o_continuous := false; Diamante.o_iterations := None;
     Diamante.o_fast := false; Diamante.o_history := false;
     Diamante.o_config := false |}.

(** A [config.json] with a token and a list of wallets only. *)
Definition config_of (ws : list string) : Config :=
  {| accessToken := Some "tok"; c_wallets := Some ws; amountPerSend := None;
     c_sendPerWallet := None; c_continuous := false; maxIterations := None;
     delays := None |}.

(** * The helpers, the command line and the menus

    The parts of the two programs around the dispatch engine: [progressBar]
    and [parseArgs] of diamante.js (with [parseInt], which both programs
    read numbers with), the wallets menu and the integer settings of the
    main loop of cli.js, and what is needed to state how the loops of the
    engine behave round by round.  [parseArgs] returns the options as it
    reads them (the amount is a string); [main] above takes them with the
    amount as the number it denotes. *)

(** ** The progress bar of diamante.js *)

(** What a helper without effects gives: a value, or an exception, named by
    its class. *)
Inductive Try (A : Type) :=
| Ok (a : A)
| Raise (error : string).
Arguments Ok {A} a.
Arguments Raise {A} error.

(** The numbers [progressBar] computes with: an integer, [NaN] or an
    infinity. *)
Inductive jsnum :=
| Finite (z : Z)
| NaN
| PosInf
| NegInf.

(** [Math.floor(a / b)] on integers; [b] is never [-0]. *)
Definition floor_div (a b : Z) : jsnum :=
  if (b =? 0)%Z then
    if (a =? 0)%Z then NaN else if (0 <? a)%Z then PosInf else NegInf
  else Finite (a / b)%Z.

(** [w - f]. *)
Definition js_sub (w : Z) (f : jsnum) : jsnum :=
  match f with
  | Finite z => Finite (w - z)%Z
  | NaN => NaN
  | PosInf => NegInf
  | NegInf => PosInf
  end.

Fixpoint repeat_string (s : string) (n : nat) : string :=
  match n with
  | 0 => ""
  | S n' => s +:+ repeat_string s n'
  end.

(** [s.repeat(count)]: [NaN] counts as 0; a negative or infinite count is a
    [RangeError].  (The limit of the engine on the length of a string is
    not modelled: [progressBar] raises before it could be reached.) *)
Definition js_repeat (s : string) (count : jsnum) : Try string :=
  match count with
  | Finite z => if (z <? 0)%Z then Raise "RangeError" else Ok (repeat_string s (Z.to_nat z))
  | NaN => Ok ""
  | PosInf | NegInf => Raise "RangeError"
  end.

(** [progressBar(curr, total)], on integers. *)
Definition progressBar (curr total : Z) : Try string :=
  let w := 25%Z in
  let f := floor_div (w * curr) total in
  match js_repeat "█" f with
  | Ok filled =>
      match js_repeat "░" (js_sub w f) with
      | Ok rest => Ok (filled +:+ rest)
      | Raise e => Raise e
      end
  | Raise e => Raise e
  end.

(** [s.length]: the number of UTF-16 code units of a string given by its
    UTF-8 bytes. *)
Fixpoint js_length (s : string) : nat :=
  match s with
  | EmptyString => 0
  | String c s' =>
      let n := nat_of_ascii c in
      (if Nat.ltb n 128 then 1
       else if Nat.ltb n 192 then 0
       else if Nat.ltb n 240 then 1
       else 2) + js_length s'
  end.

(** ** The command line of diamante.js *)

(** The value of a character as a digit, up to radix 16. *)
Definition digit_of (c : ascii) : option Z :=
  let n := Z.of_nat (nat_of_ascii c) in
  if (48 <=? n)%Z && (n <=? 57)%Z then Some (n - 48)%Z
  else if (97 <=? n)%Z && (n <=? 102)%Z then Some (n - 87)%Z
  else if (65 <=? n)%Z && (n <=? 70)%Z then Some (n - 55)%Z
  else None.

(** The value of the longest prefix of [s] made of digits of the radix;
    [acc] is the value read so far, [None] before the first digit. *)
Fixpoint read_digits (radix : Z) (acc : option Z) (s : string) : option Z :=
  match s with
  | EmptyString => acc
  | String c s' =>
      match digit_of c with
      | Some d =>
          if (d <? radix)%Z then read_digits radix (Some (default 0 acc * radix + d))%Z s'
          else acc
      | None => acc
      end
  end.

(** [parseInt(s)] without a radix: leading white space (of the ASCII
    range) and a sign are skipped, [0x] selects radix 16, the digits are
    read up to the first character that is not one; [None] is [NaN].
    Integers are exact here; a JavaScript number holds them exactly up to
    2^53 in absolute value ([exactly_read] below). *)
Definition parseInt (s : string) : option Z :=
  let s := trim_left s in
  let '(negative, s) :=
    match s with
    | String c s' =>
        if Ascii.eqb c "-"%char then (true, s')
        else if Ascii.eqb c "+"%char then (false, s')
        else (false, s)
    | EmptyString => (false, s)
    end in
  let '(radix, s) :=
    match s with
    | String c (String x s') =>
        if Ascii.eqb c "0"%char && (Ascii.eqb x "x"%char || Ascii.eqb x "X"%char)
        then (16, s')%Z else (10, s)%Z
    | _ => (10, s)%Z
    end in
  (fun z => if negative : bool then (- z)%Z else z) <$> read_digits radix None s.

Module Argv.

(** What [parseArgs] returns: [amount] is still the string of the command
    line; a [null] or [undefined] property is [None]. *)
Record Parsed := {
  token : option string;
  to : option string;
  amount : option string;
  sendPerWallet : option Z;       (* parseInt(next); NaN is [None] *)
  continuous : bool;
  iterations : option Z;
  fast : bool;
  history : bool;
  config : bool
}.

(** [opts] as [parseArgs] declares it. *)
Definition initial : Parsed :=
  {| token := None; to := None; amount := None; sendPerWallet := None;
     continuous := false; iterations := None; fast := false; history := false;
     config := false |}.

Definition set_token (v : option string) (o : Parsed) : Parsed :=
  {| token := v; to := to o; amount := amount o; sendPerWallet := sendPerWallet o;
     continuous := continuous o; iterations := iterations o; fast := fast o;
     history := history o; config := config o |}.

Definition set_to (v : option string) (o : Parsed) : Parsed :=
  {| token := token o; to := v; amount := amount o; sendPerWallet := sendPerWallet o;
     continuous := continuous o; iterations := iterations o; fast := fast o;
     history := history o; config := config o |}.

Definition set_amount (v : option string) (o : Parsed) : Parsed :=
  {| token := token o; to := to o; amount := v; sendPerWallet := sendPerWallet o;
     continuous := continuous o; iterations := iterations o; fast := fast o;
     history := history o; config := config o |}.

Definition set_sendPerWallet (v : option Z) (o : Parsed) : Parsed :=
  {| token := token o; to := to o; amount := amount o; sendPerWallet := v;
     continuous := continuous o; iterations := iterations o; fast := fast o;
     history := history o; config := config o |}.

Definition set_continuous (o : Parsed) : Parsed :=
  {| token := token o; to := to o; amount := amount o; sendPerWallet := sendPerWallet o;
     continuous := true; iterations := iterations o; fast := fast o;
     history := history o; config := config o |}.

Definition set_iterations (v : option Z) (o : Parsed) : Parsed :=
  {| token := token o; to := to o; amount := amount o; sendPerWallet := sendPerWallet o;
     continuous := continuous o; iterations := v; fast := fast o;
     history := history o; config := config o |}.

Definition set_fast (o : Parsed) : Parsed :=
  {| token := token o; to := to o; amount := amount o; sendPerWallet := sendPerWallet o;
     continuous := continuous o; iterations := iterations o; fast := true;
     history := history o; config := config o |}.

Definition set_history (o : Parsed) : Parsed :=
  {| token := token o; to := to o; amount := amount o; sendPerWallet := sendPerWallet o;
     continuous := continuous o; iterations := iterations o; fast := fast o;
     history := true; config := config o |}.

Definition set_config (o : Parsed) : Parsed :=
  {| token := token o; to := to o; amount := amount o; sendPerWallet := sendPerWallet o;
     continuous := continuous o; iterations := iterations o; fast := fast o;
     history := history o; config := true |}.

(** [parseInt(next)]: [parseInt(undefined)] is [NaN]. *)
Definition parseInt_next (next : option string) : option Z := next ≫= parseInt.

(** [arg] is one of the two spellings of an option. *)
Definition is_opt (arg long short : string) : bool :=
  String.eqb arg long || String.eqb arg short.

(** The [for] loop of [parseArgs], from [args[i]] on: [args] holds
    [args[i]], [args[i+1]], ...  An option with a value skips the next
    element ([i++]), also when there is none. *)
Fixpoint parse_from (args : list string) (opts : Parsed) : M Parsed :=
  match args with
  | [] => mret opts
  | arg :: rest =>
      let next := head rest in
      let skip (o : Parsed) : M Parsed :=
        match rest with
        | [] => mret o
        | _ :: rest' => parse_from rest' o
        end in
      if is_opt arg "--token" "-t" then skip (set_token next opts)
      else if String.eqb arg "--to" then skip (set_to next opts)
      else if String.eqb arg "--amount" then skip (set_amount next opts)
      else if is_opt arg "--sends" "-s" then skip (set_sendPerWallet (parseInt_next next) opts)
      else if is_opt arg "--continuous" "-c" then parse_from rest (set_continuous opts)
      else if is_opt arg "--iterations" "-i" then skip (set_iterations (parseInt_next next) opts)
      else if is_opt arg "--fast" "-f" then parse_from rest (set_fast opts)
      else if String.eqb arg "--history" then parse_from rest (set_history opts)
      else if String.eqb arg "--config" then parse_from rest (set_config opts)
      else if is_opt arg "--help" "-h" then exit 0
      else parse_from rest opts
  end.

(** [parseArgs()], of [args = process.argv.slice(2)]. *)
Definition parseArgs (args : list string) : M Parsed :=
  if bool_decide (length args = 0) then mret (set_config initial)
  else parse_from args initial.

End Argv.

(** ** Reading a command line *)

(** A well-formed element of a command line: an option with its value, a
    flag, or a word that is no option; [short] selects the one-letter
    spelling. *)
Inductive Item :=
| IToken (short : bool) (v : string)
| ITo (v : string)
| IAmount (v : string)
| ISends (short : bool) (v : string)
| IContinuous (short : bool)
| IIterations (short : bool) (v : string)
| IFast (short : bool)
| IHistory
| IConfig
| IWord (word : string).

(** The words of [process.argv] an element is written with. *)
Definition words (it : Item) : list string :=
  match it with
  | IToken short v => [if short then "-t" else "--token"; v]
  | ITo v => ["--to"; v]
  | IAmount v => ["--amount"; v]
  | ISends short v => [if short then "-s" else "--sends"; v]
  | IContinuous short => [if short then "-c" else "--continuous"]
  | IIterations short v => [if short then "-i" else "--iterations"; v]
  | IFast short => [if short then "-f" else "--fast"]
  | IHistory => ["--history"]
  | IConfig => ["--config"]
  | IWord word => [word]
  end.

Definition render (items : list Item) : list string := concat (words <$> items).

(** The words [parseArgs] knows. *)
Definition known (word : string) : bool :=
  bool_decide (word ∈ ["--token"; "-t"; "--to"; "--amount"; "--sends"; "-s";
                       "--continuous"; "-c"; "--iterations"; "-i"; "--fast"; "-f";
                       "--history"; "--config"; "--help"; "-h"]).

(** An element that stands for itself: a word is no option. *)
Definition plain (it : Item) : bool :=
  match it with
  | IWord word => negb (known word)
  | _ => true
  end.

(** What an element means. *)
Definition apply (o : Argv.Parsed) (it : Item) : Argv.Parsed :=
  match it with
  | IToken _ v => Argv.set_token (Some v) o
  | ITo v => Argv.set_to (Some v) o
  | IAmount v => Argv.set_amount (Some v) o
  | ISends _ v => Argv.set_sendPerWallet (parseInt v) o
  | IContinuous _ => Argv.set_continuous o
  | IIterations _ v => Argv.set_iterations (parseInt v) o
  | IFast _ => Argv.set_fast o
  | IHistory => Argv.set_history o
  | IConfig => Argv.set_config o
  | IWord _ => o
  end.

(** An option that takes a value, and what it means without one. *)
Inductive ValueOption :=
| VToken (short : bool)
| VTo
| VAmount
| VSends (short : bool)
| VIterations (short : bool).

Definition option_word (v : ValueOption) : string :=
  match v with
  | VToken short => if short then "-t" else "--token"
  | VTo => "--to"
  | VAmount => "--amount"
  | VSends short => if short then "-s" else "--sends"
  | VIterations short => if short then "-i" else "--iterations"
  end.

Definition unset (o : Argv.Parsed) (v : ValueOption) : Argv.Parsed :=
  match v with
  | VToken _ => Argv.set_token None o
  | VTo => Argv.set_to None o
  | VAmount => Argv.set_amount None o
  | VSends _ => Argv.set_sendPerWallet None o
  | VIterations _ => Argv.set_iterations None o
  end.

(** ** The inputs the embedding is exact for *)

(** The string is made of ASCII characters: its white space is the white
    space [trim] and [parseInt] know here. *)
Fixpoint ascii_only (s : string) : bool :=
  match s with
  | EmptyString => true
  | String c s' => Nat.ltb (nat_of_ascii c) 128 && ascii_only s'
  end.

(** An integer a JavaScript number holds exactly. *)
Definition safe_integer (n : Z) : bool := (Z.abs n <=? 2 ^ 53)%Z.

(** A text [parseInt] reads exactly: ASCII, and what it denotes (if
    anything) is an integer a number holds. *)
Definition exactly_read (v : string) : bool :=
  ascii_only v && from_option safe_integer true (parseInt v).

(** The values of [--sends] and [--iterations] of an element are read
    exactly. *)
Definition exact_item (it : Item) : bool :=
  match it with
  | ISends _ v | IIterations _ v => exactly_read v
  | _ => true
  end.

(** An address as the README writes them: it starts with [0x], so it is
    not the name of a property every object has ([__proto__],
    [constructor], ...). *)
Definition is_address (a : string) : bool := String.prefix "0x" a.

(** The constructor of the sender does not raise for the token: the user id
    of its payload is a string (or an array), or there is none. *)
Definition known_user (E : Env) (token : string) : bool :=
  match extractUserId E token with
  | OtherUserId => false
  | _ => true
  end.

(** The token [main] uses. *)
Definition token_of (opts : Diamante.Opts) (config : option Config) : string :=
  default "" (if truthy_str (Diamante.o_token opts) then Diamante.o_token opts
              else config ≫= accessToken).

(** ** The outline of a run *)

(** The events that make the outline of a run: the task lines, the progress
    lines, the starts of the rounds, the pauses between two rounds and the
    summary. *)
Definition is_mark (e : Event) : bool :=
  match e with
  | EvTask _ _ | EvProgress _ _ | EvRound _ | EvSleep RoundPause _ | EvSummary _ => true
  | _ => false
  end.

Definition outline (tr : list Event) : list Event := filter (fun e => is_mark e = true) tr.

(** The outline of the [for] loop of a round of diamante.js from index [i]
    on, for the queue [ws] and the counters [sendCount]. *)
Fixpoint task_lines (n i : nat) (ws : list string) (sendCount : gmap string (option nat))
    : list Event :=
  match ws with
  | [] => []
  | a :: rest =>
      let sendCount := Diamante.bump sendCount a in
      EvTask a (default None (sendCount !! a)) :: EvProgress (i + 1) n
        :: task_lines n (i + 1) rest sendCount
  end.

(** [wallets.forEach(w => sendCount[w] = 0)]. *)
Definition zero_counts (wallets : list string) : gmap string (option nat) :=
  list_to_map ((fun w => (w, Some 0)) <$> wallets).

(** The task lines of a trace are numbered per wallet, from 1, anew in each
    round: [seen] holds the wallets of the tasks of the round so far. *)
Fixpoint well_numbered (seen : list string) (tr : list Event) : bool :=
  match tr with
  | [] => true
  | EvRound _ :: tr' => well_numbered [] tr'
  | EvTask a n :: tr' =>
      bool_decide (n = Some (S (copies a seen))) && well_numbered (a :: seen) tr'
  | _ :: tr' => well_numbered seen tr'
  end.

(** The progress lines of a trace: [(done, all)]. *)
Definition progress_lines (tr : list Event) : list (nat * nat) :=
  omap (fun e => match e with EvProgress d n => Some (d, n) | _ => None end) tr.

(** The starts of the rounds of a trace. *)
Definition round_starts (tr : list Event) : list nat :=
  omap (fun e => match e with EvRound iter => Some iter | _ => None end) tr.

(** The pauses between two rounds of a trace, in ms. *)
Definition round_pauses (tr : list Event) : list Q :=
  omap (fun e => match e with EvSleep RoundPause ms => Some ms | _ => None end) tr.

(** The summaries of a trace. *)
Definition summaries (tr : list Event) : list Summary :=
  omap (fun e => match e with EvSummary s => Some s | _ => None end) tr.

(** The number of rounds the loop of [sendRound] makes within [fuel] turns
    from round [iter] on, and whether it leaves the loop within them. *)
Fixpoint rounds_made (fuel : nat) (continuous : bool) (maxIter : option Z) (iter : nat)
    : nat * bool :=
  match fuel with
  | 0 => (0, false)
  | S fuel' =>
      if negb continuous then (1, true)
      else if Diamante.reached maxIter (S iter) then (1, true)
      else let '(n, b) := rounds_made fuel' continuous maxIter (S iter) in (S n, b)
  end.

(** The world in which [main] creates the sender: the delays of the
    configuration and of [--fast] are set and the statistics are new. *)
Definition prepared (opts : Diamante.Opts) (config : option Config) (w : World) : World :=
  let w1 := match config ≫= delays with
            | Some (lo, hi) => set_delays lo hi w
            | None => w
            end in
  let w2 := if Diamante.o_fast opts then set_delays 0.5 1.0 w1 else w1 in
  set_stats new_stats w2.

(** ** The list of wallets of [--to] *)

(** [ws.join(',')]. *)
Fixpoint join_comma (ws : list string) : string :=
  match ws with
  | [] => ""
  | [a] => a
  | a :: rest => a +:+ "," +:+ join_comma rest
  end.

(** The string contains a comma. *)
Fixpoint has_comma (s : string) : bool :=
  match s with
  | EmptyString => false
  | String c s' => Ascii.eqb c ","%char || has_comma s'
  end.

(** An address as [main] keeps it: not empty, without a comma and without
    white space at its ends. *)
Definition clean (a : string) : Prop := a ≠ "" /\ has_comma a = false /\ trim a = a.

(** ** The per-wallet lines of the summary *)

(** The number of successful, resp. failed, results for an address. *)
Definition sent_to (a : string) (rs : list SendResult) : nat :=
  length (filter (fun r => r_toAddress r = a /\ r_success r = true) rs).

Definition failed_to (a : string) (rs : list SendResult) : nat :=
  length (filter (fun r => r_toAddress r = a /\ r_success r = false) rs).

(** ** The menus of cli.js *)

Module Menu.

(** The state of a session of cli.js: the configuration in memory, and the
    one [config.json] holds ([None]: there is no file). *)
Record Session := {
  config : Config;
  file : option Config
}.

(** [saveConfig(config)]. *)
Definition saveConfig (s : Session) : Session :=
  {| config := config s; file := Some (config s) |}.

Definition with_config (c : Config) (s : Session) : Session :=
  {| config := c; file := file s |}.

Definition set_wallets (ws : option (list string)) (c : Config) : Config :=
  {| accessToken := accessToken c; c_wallets := ws; amountPerSend := amountPerSend c;
     c_sendPerWallet := c_sendPerWallet c; c_continuous := c_continuous c;
     maxIterations := maxIterations c; delays := delays c |}.

Definition set_sendPerWallet (n : option Z) (c : Config) : Config :=
  {| accessToken := accessToken c; c_wallets := c_wallets c; amountPerSend := amountPerSend c;
     c_sendPerWallet := n; c_continuous := c_continuous c;
     maxIterations := maxIterations c; delays := delays c |}.

Definition set_continuous (b : bool) (c : Config) : Config :=
  {| accessToken := accessToken c; c_wallets := c_wallets c; amountPerSend := amountPerSend c;
     c_sendPerWallet := c_sendPerWallet c; c_continuous := b;
     maxIterations := maxIterations c; delays := delays c |}.

Definition set_maxIterations (n : option Z) (c : Config) : Config :=
  {| accessToken := accessToken c; c_wallets := c_wallets c; amountPerSend := amountPerSend c;
     c_sendPerWallet := c_sendPerWallet c; c_continuous := c_continuous c;
     maxIterations := n; delays := delays c |}.

(** What the user answers in the wallets menu before going back: "add
    wallet" and the address typed, or the wallet at an index and the answer
    to "remove this wallet?". *)
Inductive WalletsChoice :=
| Add (addr : string)
| Remove (idx : nat) (doRemove : bool).

(** One turn of the loop of the wallets menu.  [config.wallets.splice(idx, 1)]
    removes nothing when [idx] is past the end, and is a [TypeError] when
    there is no list. *)
Definition wallets_turn (c : WalletsChoice) (s : Session) : Try Session :=
  match c with
  | Add addr =>
      if negb (String.eqb (trim addr) "") then
        let wallets := default [] (c_wallets (config s)) ++ [trim addr] in
        Ok (saveConfig (with_config (set_wallets (Some wallets) (config s)) s))
      else Ok s
  | Remove idx doRemove =>
      if doRemove then
        match c_wallets (config s) with
        | Some wallets =>
            Ok (saveConfig (with_config (set_wallets (Some (delete idx wallets)) (config s)) s))
        | None => Raise "TypeError"
        end
      else Ok s
  end.

(** The loop of the wallets menu, for the choices made until "back". *)
Fixpoint wallets_menu (choices : list WalletsChoice) (s : Session) : Try Session :=
  match choices with
  | [] => Ok s
  | c :: rest =>
      match wallets_turn c s with
      | Ok s' => wallets_menu rest s'
      | Raise e => Raise e
      end
  end.

(** What the user answers in the settings menu, for the settings that are
    integers or switches: the choice and the text typed.  (The choices
    "amount" and "delay" read their numbers with [parseFloat]; they are not
    part of this embedding.) *)
Inductive SettingsChoice :=
| Continuous
| Sends (val : string)
| MaxIterations (val : string).

(** One turn of the loop of the settings menu. *)
Definition settings_turn (c : SettingsChoice) (s : Session) : Session :=
  match c with
  | Continuous =>
      saveConfig (with_config (set_continuous (negb (c_continuous (config s))) (config s)) s)
  | Sends val =>
      if negb (String.eqb val "") then
        saveConfig (with_config
                      (set_sendPerWallet (num_or (parseInt val) (Some 2%Z)) (config s)) s)
      else s
  | MaxIterations val =>
      if negb (String.eqb val "") then
        saveConfig (with_config
                      (set_maxIterations (num_or (parseInt val) (Some 1%Z)) (config s)) s)
      else s
  end.

End Menu.





(** ** The clock of a run *)

(** What the first attempt of a call of [send] makes of [stats.start], and
    the number of readings of the clock after it. *)
Definition start_after (E : Env) (w : World) : option Z :=
  match start (stats w) with
  | Some t => if (t =? 0)%Z then Some (clock E (n_clock w)) else Some t
  | None => Some (clock E (n_clock w))
  end.

Definition clock_after (w : World) : nat :=
  match start (stats w) with
  | Some t => if (t =? 0)%Z then S (n_clock w) else n_clock w
  | None => S (n_clock w)
  end.

(** ** Responses cli.js does not retry on *)



(** * Proofs *)

(** ** Arrays and the shuffle *)

Lemma floor_index_le (r : Q) (i : nat) :
  (0 <= r)%Q -> (r < 1)%Q -> floor_index r (i + 1) <= i.
Proof.
  intros H0 H1. unfold floor_index.
  assert (Hlt : (r * inject_Z (Z.of_nat (i + 1)) < inject_Z (Z.of_nat (i + 1)))%Q).
  { rewrite <- (Qmult_1_l (inject_Z (Z.of_nat (i + 1)))) at 2.
    apply Qmult_lt_compat_r; [|exact H1].
    replace 0%Q with (inject_Z 0) by reflexivity. rewrite <- Zlt_Qlt. lia. }
  assert (Hf : (Qfloor (r * inject_Z (Z.of_nat (i + 1))) < Z.of_nat (i + 1))%Z).
  { rewrite Zlt_Qlt. eapply Qle_lt_trans; [apply Qfloor_le | exact Hlt]. }
  lia.
Qed.

Lemma js_swap_in_range (a : list jsval) (i j : nat) x y :
  a !! i = Some x -> a !! j = Some y ->
  js_swap a i j = <[j:=x]> (<[i:=y]> a).
Proof.
  intros Hi Hj. unfold js_swap, js_get, js_set. rewrite Hi, Hj. simpl.
  pose proof (lookup_lt_Some _ _ _ Hi). pose proof (lookup_lt_Some _ _ _ Hj).
  destruct (decide (i < length a)); [|lia].
  rewrite length_insert. destruct (decide (j < length a)); [done|lia].
Qed.

Lemma insert_cons_perm (l : list jsval) (j : nat) (x y : jsval) :
  l !! j = Some y -> y :: <[j:=x]> l ≡ₚ x :: l.
Proof.
  revert j. induction l as [|h t IH]; intros [|j] Hj; simplify_eq/=.
  - apply Permutation_swap.
  - rewrite Permutation_swap, (IH _ Hj). apply Permutation_swap.
Qed.

Lemma swap_perm (a : list jsval) (i j : nat) x y :
  a !! i = Some x -> a !! j = Some y ->
  <[j:=x]> (<[i:=y]> a) ≡ₚ a.
Proof.
  revert i j. induction a as [|h t IH]; intros [|i] [|j] Hi Hj; simplify_eq/=.
  - done.
  - by apply insert_cons_perm.
  - by apply insert_cons_perm.
  - constructor. by apply IH.
Qed.

Lemma js_swap_perm (a : list jsval) (i j : nat) :
  i < length a -> j < length a -> js_swap a i j ≡ₚ a.
Proof.
  intros Hi Hj.
  destruct (lookup_lt_is_Some_2 a i Hi) as [x Hx].
  destruct (lookup_lt_is_Some_2 a j Hj) as [y Hy].
  rewrite (js_swap_in_range a i j x y) by done. by apply swap_perm.
Qed.

(** *** Worlds that differ by the store and by random draws only *)

Lemma iter_tick_set_heap h n w :
  Nat.iter n tick_random (set_heap h w) = set_heap h (Nat.iter n tick_random w).
Proof. induction n as [|n IH]; simpl; [done|]. by rewrite IH. Qed.

Lemma iter_tick_heap n w : heap (Nat.iter n tick_random w) = heap w.
Proof. induction n as [|n IH]; simpl; done. Qed.

Lemma iter_tick_S n w :
  Nat.iter n tick_random (tick_random w) = Nat.iter (S n) tick_random w.
Proof. induction n as [|n IH]; simpl; [done|]. by rewrite IH. Qed.

Lemma shuffle_loop_spec (E : Env) (a : nat) :
  random_unit E ->
  forall (i : nat) (w : World) (xs : list jsval),
    heap w !! a = Some xs ->
    i < length xs ∨ i = 0 ->
    exists ys,
      shuffle_loop E a i w
      = Ret tt (set_heap (<[a:=ys]> (heap w)) (Nat.iter i tick_random w))
      /\ ys ≡ₚ xs.
Proof.
  intros HE. induction i as [|i IH]; intros w xs Hxs Hi.
  - exists xs. split; [|done]. simpl. unfold mret, M_ret.
    rewrite insert_id by done. by destruct w.
  - assert (Li : S i < length xs) by lia.
    destruct (HE (n_random w)) as [H0 H1].
    pose proof (floor_index_le _ (S i) H0 H1) as Hj.
    set (j := floor_index (random E (n_random w)) (S i + 1)) in *.
    destruct (IH (set_heap (<[a:=js_swap xs (S i) j]> (heap w)) (tick_random w))
                 (js_swap xs (S i) j)) as (ys & Hrun & Hperm).
    { simpl. apply lookup_insert_eq. }
    { left. rewrite (Permutation_length (js_swap_perm xs (S i) j Li ltac:(lia))). lia. }
    exists ys. split.
    + simpl. unfold mbind, M_bind, math_random, update_array, array_at. simpl.
      rewrite Hxs. simpl. change (S (i + 1)) with (S i + 1). fold j.
      rewrite Hrun. f_equal. simpl.
      rewrite insert_insert_eq, iter_tick_set_heap, iter_tick_S. done.
    + rewrite Hperm. apply js_swap_perm; lia.
Qed.

Lemma redrawn_fields h n w :
  heap (redrawn h n w) = h /\ stats (redrawn h n w) = stats w
  /\ MIN_DELAY (redrawn h n w) = MIN_DELAY w /\ MAX_DELAY (redrawn h n w) = MAX_DELAY w
  /\ results (redrawn h n w) = results w /\ n_random (redrawn h n w) = n_random w + n
  /\ n_fetch (redrawn h n w) = n_fetch w /\ n_clock (redrawn h n w) = n_clock w
  /\ n_wait (redrawn h n w) = n_wait w /\ trace (redrawn h n w) = trace w.
Proof.
  unfold redrawn. simpl. induction n as [|n IH]; simpl.
  - repeat split; try done; lia.
  - destruct IH as (?&?&?&?&?&?&?&?&?&?). repeat split; try done; lia.
Qed.

Lemma set_heap_set_heap h h' w : set_heap h' (set_heap h w) = set_heap h' w.
Proof. reflexivity. Qed.

Lemma redrawn_redrawn h h' n m w :
  redrawn h' m (redrawn h n w) = redrawn h' (n + m) w.
Proof.
  unfold redrawn. rewrite iter_tick_set_heap, set_heap_set_heap.
  f_equal. rewrite Nat.add_comm. symmetry. apply Nat.iter_add.
Qed.

Lemma redrawn_0 w : redrawn (heap w) 0 w = w.
Proof. by destruct w. Qed.

Lemma shuffle_spec (E : Env) (arr : nat) (w : World) (xs : list jsval) :
  random_unit E ->
  heap w !! arr = Some xs ->
  exists ys,
    Diamante.shuffle E arr w
    = Ret (fresh (dom (heap w)))
          (redrawn (<[fresh (dom (heap w)):=ys]> (heap w)) (length xs - 1) w)
    /\ ys ≡ₚ xs.
Proof.
  intros HE Hxs.
  set (a := fresh (dom (heap w))).
  destruct (shuffle_loop_spec E a HE (length xs - 1)
              (set_heap (<[a:=xs]> (heap w)) w) xs) as (ys & Hrun & Hperm).
  { simpl. apply lookup_insert_eq. }
  { destruct xs; simpl; [by right | left; lia]. }
  exists ys. split; [|done].
  unfold Diamante.shuffle, mbind, M_bind, read_array, alloc, array_at.
  rewrite Hxs. simpl. fold a. rewrite Hrun. unfold mret, M_ret, redrawn. f_equal.
  simpl. rewrite insert_insert_eq. by rewrite iter_tick_set_heap.
Qed.

Lemma push_times_spec (queue : nat) (wallet : string) (n : nat) (w : World) (xs : list jsval) :
  heap w !! queue = Some xs ->
  push_times queue wallet n w
  = Ret tt (set_heap (<[queue:=xs ++ replicate n (JStr wallet)]> (heap w)) w).
Proof.
  revert w xs. induction n as [|n IH]; intros w xs Hxs; simpl.
  - unfold mret, M_ret. rewrite app_nil_r, insert_id by done. by destruct w.
  - unfold mbind, M_bind, push, update_array, array_at. rewrite Hxs. simpl.
    rewrite (IH _ (xs ++ [JStr wallet])) by (simpl; apply lookup_insert_eq).
    simpl. rewrite insert_insert_eq, <- app_assoc. done.
Qed.

Lemma push_wallets_spec (queue : nat) (wallets : list string) (k : Z) (w : World)
    (xs : list jsval) :
  heap w !! queue = Some xs ->
  push_wallets queue wallets k w
  = Ret tt (set_heap (<[queue:=xs ++ expand wallets (Z.to_nat k)]> (heap w)) w).
Proof.
  revert w xs. induction wallets as [|r rest IH]; intros w xs Hxs; simpl.
  - unfold mret, M_ret. rewrite app_nil_r, insert_id by done. by destruct w.
  - unfold mbind, M_bind. rewrite (push_times_spec _ _ _ _ xs) by done.
    rewrite (IH _ (xs ++ replicate (Z.to_nat k) (JStr r))) by (simpl; apply lookup_insert_eq).
    simpl. rewrite insert_insert_eq, <- app_assoc. done.
Qed.

Lemma expand_length wallets k : length (expand wallets k) = length wallets * k.
Proof.
  induction wallets as [|r rest IH]; simpl; [done|].
  rewrite length_app, length_replicate, IH. lia.
Qed.

Lemma occurrences_app r xs ys :
  occurrences r (xs ++ ys) = occurrences r xs + occurrences r ys.
Proof. unfold occurrences. by rewrite filter_app, length_app. Qed.

Lemma occurrences_replicate r r' k :
  occurrences r (replicate k (JStr r')) = if decide (r' = r) then k else 0.
Proof.
  unfold occurrences. destruct (decide (r' = r)) as [->|Hne].
  - induction k as [|k IH]; simpl; [done|].
    rewrite filter_cons_True by done. simpl. by rewrite IH.
  - induction k as [|k IH]; simpl; [done|].
    rewrite filter_cons_False by congruence. done.
Qed.

Lemma occurrences_expand r wallets k :
  occurrences r (expand wallets k) = copies r wallets * k.
Proof.
  induction wallets as [|r' rest IH]; simpl; [done|].
  rewrite occurrences_app, occurrences_replicate, IH. unfold copies.
  rewrite filter_cons. case_decide; simpl; lia.
Qed.

Lemma occurrences_perm r xs ys : xs ≡ₚ ys -> occurrences r xs = occurrences r ys.
Proof. intros H. unfold occurrences. by rewrite H. Qed.

Lemma buildQueue_spec (E : Env) (wallets : list string) (k : Z) (w : World) :
  random_unit E ->
  exists a ys h n,
    Diamante.buildQueue E wallets k w = Ret a (redrawn h n w)
    /\ h !! a = Some ys
    /\ ys ≡ₚ expand wallets (Z.to_nat k).
Proof.
  intros HE. unfold Diamante.buildQueue, mbind, M_bind, alloc.
  set (queue := fresh (dom (heap w))).
  set (w1 := set_heap (<[queue:=[]]> (heap w)) w).
  rewrite (push_wallets_spec queue wallets k w1 []) by (simpl; apply lookup_insert_eq).
  simpl. rewrite insert_insert_eq.
  set (w2 := set_heap _ w1).
  destruct (shuffle_spec E queue w2 (expand wallets (Z.to_nat k)) HE) as (ys & Hrun & Hperm).
  { simpl. apply lookup_insert_eq. }
  rewrite Hrun. eexists _, ys, _, _. split; [|split; [|done]].
  - f_equal. unfold redrawn, w2, w1. rewrite iter_tick_set_heap. simpl.
    rewrite iter_tick_set_heap. simpl. reflexivity.
  - apply lookup_insert_eq.
Qed.

Lemma same_io_refl w : same_io w w.
Proof. by repeat split. Qed.

Lemma pre_spec (E : Env) (rc : nat) (w : World) :
  exists w0,
    (if decide (rc = 0) then Diamante.count_attempt E else mret tt) w = Ret tt w0
    /\ same_io w w0
    /\ total (stats w0) = total (stats w) + (if decide (rc = 0) then 1 else 0)
    /\ success (stats w0) = success (stats w)
    /\ failed (stats w0) = failed (stats w)
    /\ amount (stats w0) = amount (stats w).
Proof.
  destruct (decide (rc = 0)) as [->|Hne].
  - unfold Diamante.count_attempt, mbind, M_bind, modify, get. simpl.
    destruct (start (stats w)) as [t|]; [destruct (t =? 0)%Z|];
      (eexists; split; [reflexivity|]; simpl; repeat split; lia).
  - exists w. split; [done|]. split; [apply same_io_refl|]. repeat split; lia.
Qed.

Lemma conclude_spec (a : string) (q : Q) (data : Json) (w : World) :
  exists r w',
    Diamante.conclude a q data w = Ret r w'
    /\ same_io w w' /\ n_clock w' = n_clock w
    /\ total (stats w') = total (stats w)
    /\ success (stats w') = success (stats w) + (if r_success r then 1 else 0)
    /\ failed (stats w') = failed (stats w) + (if r_success r then 0 else 1)
    /\ amount (stats w') = (if r_success r then (amount (stats w) + q)%Q else amount (stats w))
    /\ r_amount r = q /\ r_toAddress r = a
    /\ r = (if strict_eq (j_success data) (JBool true)
            then Sent (Diamante.hash_of data) a q data
            else NotSent (Diamante.errMsg_of data) a q).
Proof.
  unfold Diamante.conclude.
  destruct (strict_eq (j_success data) (JBool true));
    (eexists _, _; split; [reflexivity|]; simpl; repeat split; lia).
Qed.

Lemma calm_empty E n : calm E n n.
Proof. intros k Hk. lia. Qed.

Lemma calm_snoc E lo hi : lo <= hi -> calm E lo hi -> sigint E hi = false -> calm E lo (S hi).
Proof.
  intros Hle Hc Hs k Hk. destruct (decide (k = hi)) as [->|]; [done|]. apply Hc. lia.
Qed.

Lemma calm_app E lo mid hi : calm E lo mid -> calm E mid hi -> calm E lo hi.
Proof.
  intros H1 H2 k Hk. destruct (decide (k < mid)); [apply H1 | apply H2]; lia.
Qed.

Lemma calm_sub E lo hi lo' hi' : calm E lo hi -> lo <= lo' -> hi' <= hi -> calm E lo' hi'.
Proof. intros H ? ? k Hk. apply H. lia. Qed.

Lemma send_spec (E : Env) (a : string) (q : Q) :
  forall (k rc : nat) (w : World),
    Diamante.MAX_RETRIES - rc = k ->
    send_post E a q rc w (Diamante.send E a q rc w).
Proof.
  induction k as [k IH] using lt_wf_ind. intros rc w Hk.
  rewrite Diamante.send_equation_1. unfold mbind at 1. unfold M_bind at 1.
  destruct (pre_spec E rc w) as (w0 & -> & Hio & Ht & Hs & Hf & Ha).
  destruct Hio as (Hh & Hr & Hmin & Hmax & Hrand & Hnf & Hnw & Htr).
  unfold try_catch, mbind, M_bind, fetch, wait. simpl.
  destruct (sigint E (n_wait w0)) eqn:Hsig.
  { (* interrupted during the request *)
    unfold send_post. simpl. rewrite Hh, Hr, Hmin, Hmax, Hrand, Htr, Hnf, Hnw.
    repeat split; try done.
    - eexists. split; [by rewrite <- app_assoc|]. repeat constructor.
    - lia.
    - exists (n_wait w). rewrite <- Hnw. repeat split; try done. apply calm_empty. }
  destruct (network E (n_fetch w0)) as [msg|status body] eqn:Hnet.
  { (* the request fails: the catch block *)
    unfold send_post, mret, M_ret. simpl. rewrite Hh, Hr, Hmin, Hmax, Hrand, Htr, Hnf, Hnw.
    repeat split; try done; try lia.
    - eexists. split; [done|]. repeat constructor.
    - apply calm_snoc; [lia|apply calm_empty|by rewrite <- Hnw].
    - simpl. lia.
    - simpl. lia. }
  simpl.
  set (w2 := tick_wait (add_event (EvFetch a q) (tick_fetch w0))).
  set (data := Diamante.parse_body body).
  assert (Hconcl : send_post E a q rc w
            match Diamante.conclude a q data w2 with
            | Throw e w' =>
                Ret (NotSent (JStr e) a q)
                  (set_stats
                     {| total := total (stats w'); success := success (stats w');
                        failed := S (failed (stats w')); amount := amount (stats w');
                        start := start (stats w') |} w')
            | o => o
            end).
  { destruct (conclude_spec a q data w2)
      as (r & w3 & -> & Hio & Hc & Ht3 & Hs3 & Hf3 & Ha3 & Hq & Haddr & _).
    destruct Hio as (Hh3 & Hr3 & Hmin3 & Hmax3 & Hrand3 & Hnf3 & Hnw3 & Htr3).
    unfold send_post. simpl.
    rewrite Hh3, Hr3, Hmin3, Hmax3, Hrand3, Htr3, Hnf3, Hnw3. simpl.
    rewrite Hh, Hr, Hmin, Hmax, Hrand, Htr, Hnf, Hnw.
    repeat split; try done; try lia.
    - eexists. split; [done|]. repeat constructor.
    - apply calm_snoc; [lia|apply calm_empty|by rewrite <- Hnw].
    - rewrite Ht3. simpl. done.
    - rewrite Hs3. simpl. lia.
    - rewrite Hf3. simpl. lia.
    - rewrite Ha3. simpl. by rewrite Ha. }
  destruct (Diamante.rate_limited status data); [|exact Hconcl].
  destruct (lt_dec rc Diamante.MAX_RETRIES) as [Hlt|Hge]; [|exact Hconcl].
  clear Hconcl.
  unfold sleep, mbind, M_bind, emit, modify, wait. simpl.
  destruct (sigint E (S (n_wait w0))) eqn:Hsig2.
  { (* interrupted during the wait *)
    unfold send_post. simpl. rewrite Hh, Hr, Hmin, Hmax, Hrand, Htr, Hnf, Hnw.
    repeat split; try done; try lia.
    - eexists. split; [by rewrite <- !app_assoc|]. repeat constructor.
    - exists (S (n_wait w)). rewrite <- Hnw. repeat split; try done; try lia.
      apply calm_snoc; [lia|apply calm_empty|done]. }
  set (w4 := tick_wait _).
  pose proof (IH (Diamante.MAX_RETRIES - (rc + 1)) ltac:(lia) (rc + 1) w4 eq_refl) as Hrec.
  unfold send_post in Hrec |- *.
  destruct (Diamante.send E a q (rc + 1) w4) as [r w5|e w5|c w5|w5]; simpl in *;
    destruct Hrec as (Hh5 & Hr5 & Hmin5 & Hmax5 & Hrand5 & (evs & Htr5 & Hevs) & Hnf5 & Hrest);
    try done.
  - destruct Hrest as (Hnw5 & Hcalm & (Ht5 & Hs5 & Hf5 & Ha5 & Hq5) & Haddr).
    rewrite Hh5, Hr5, Hmin5, Hmax5, Hrand5, Htr5, Hh, Hr, Hmin, Hmax, Hrand, Htr.
    repeat split; try done; try lia.
    + eexists. split; [by rewrite <- !app_assoc|]. repeat constructor. done.
    + apply (calm_app E _ (S (S (n_wait w0)))); [|done].
      rewrite <- Hnw.
      apply calm_snoc; [lia| |done]. apply calm_snoc; [lia|apply calm_empty|done].
    + rewrite Ht5, Ht. destruct (decide (rc + 1 = 0)); lia.
    + rewrite Ha5, Ha. done.
  - destruct Hrest as (-> & k' & Hk1 & Hk2 & Hk3 & Hk4).
    rewrite Hh5, Hr5, Hmin5, Hmax5, Hrand5, Htr5, Hh, Hr, Hmin, Hmax, Hrand, Htr.
    repeat split; try done; try lia.
    + eexists. split; [by rewrite <- !app_assoc|]. repeat constructor. done.
    + exists k'. repeat split; try done; try lia.
      apply (calm_app E _ (S (S (n_wait w0)))); [|done].
      rewrite <- Hnw.
      apply calm_snoc; [lia| |done]. apply calm_snoc; [lia|apply calm_empty|done].
Qed.

(** ** Runs without interruption *)

Lemma send_run (E : Env) (a : string) (q : Q) (rc : nat) (w : World) :
  no_sigint E ->
  exists r w',
    Diamante.send E a q rc w = Ret r w'
    /\ send_post E a q rc w (Ret r w').
Proof.
  intros HE. pose proof (send_spec E a q _ rc w eq_refl) as H.
  destruct (Diamante.send E a q rc w) as [r w'|e w'|c w'|w'] eqn:Hrun.
  - by exists r, w'.
  - unfold send_post in H. tauto.
  - unfold send_post in H. destruct H as (_&_&_&_&_&_&_&_&k&_&_&Hs&_).
    rewrite HE in Hs. done.
  - unfold send_post in H. tauto.
Qed.

Lemma humanDelay_run (E : Env) (w : World) :
  no_sigint E ->
  Diamante.humanDelay E w
  = Ret tt (tick_wait (add_event
              (EvSleep HumanDelay (jitter w (random E (n_random w)) * 1000)%Q)
              (tick_random w))).
Proof.
  intros HE. unfold Diamante.humanDelay, sleep, emit, modify, wait, math_random, get,
    mbind, M_bind. simpl. rewrite HE. done.
Qed.

Lemma gap_step_send st evs : Forall send_event evs -> foldl gap_step st evs = st.
Proof.
  intros H. revert st. induction H as [|e evs He _ IH]; intros st; simpl; [done|].
  rewrite <- (IH st) at 2. f_equal.
  destruct e as [site ms| | | | | | | | | | ]; simpl in *; try done.
  by destruct site.
Qed.

Lemma succeeded_app rs rs' : succeeded (rs ++ rs') = succeeded rs + succeeded rs'.
Proof. unfold succeeded. by rewrite filter_app, length_app. Qed.

Lemma failures_app rs rs' : failures (rs ++ rs') = failures rs + failures rs'.
Proof. unfold failures. by rewrite filter_app, length_app. Qed.

Lemma in_range_jitter (w : World) (r : Q) :
  (MIN_DELAY w <= MAX_DELAY w)%Q -> (0 <= r)%Q -> (r < 1)%Q ->
  (MIN_DELAY w <= jitter w r)%Q /\ (jitter w r <= MAX_DELAY w)%Q.
Proof.
  intros Hle H0 H1. unfold jitter.
  assert (Hd : (0 <= MAX_DELAY w - MIN_DELAY w)%Q).
  { unfold Qminus. rewrite <- Qle_minus_iff. done. }
  split.
  - rewrite <- (Qplus_0_r (MIN_DELAY w)) at 1.
    apply Qplus_le_compat; [apply Qle_refl|]. by apply Qmult_le_0_compat.
  - assert (Heq : (MIN_DELAY w + 1 * (MAX_DELAY w - MIN_DELAY w) == MAX_DELAY w)%Q) by ring.
    eapply Qle_trans; [|apply Qle_lteq; right; exact Heq].
    apply Qplus_le_compat; [apply Qle_refl|].
    apply Qmult_le_compat_r; [by apply Qlt_le_weak | done].
Qed.

(** The pauses a run of the [for] loop adds, given the delays drawn. *)
Lemma dispatch_run (E : Env) (q : Q) (iter n : nat) :
  no_sigint E ->
  forall (ws : list string) (i : nat) (sendCount : gmap string (option nat)) (w : World),
  exists w' rs ds evs,
    Diamante.dispatch E q iter n i (JStr <$> ws) sendCount w = Ret tt w'
    /\ heap w' = heap w /\ MIN_DELAY w' = MIN_DELAY w /\ MAX_DELAY w' = MAX_DELAY w
    /\ results w' = results w ++ rs
    /\ r_toAddress <$> rs = ws
    /\ Forall (fun r => r_amount r = q) rs
    /\ total (stats w') = total (stats w) + length ws
    /\ success (stats w') = success (stats w) + succeeded rs
    /\ failed (stats w') = failed (stats w) + failures rs
    /\ amount (stats w')
       = foldl (fun acc r => if r_success r then (acc + r_amount r)%Q else acc)
           (amount (stats w)) rs
    /\ n_fetch w' <= n_fetch w + length ws * S Diamante.MAX_RETRIES
    /\ trace w' = trace w ++ evs
    /\ (forall st, foldl gap_step (st, []) evs
                  = (st ++ (if first_task iter i && bool_decide (ws ≠ []) then [[]] else [])
                        ++ ((fun d => [(d * 1000)%Q]) <$> ds), []))
    /\ Forall (fun d => exists k, d = jitter w (random E k)) ds
    /\ length ds = length ws - (if first_task iter i then 1 else 0).
Proof.
  intros HE. induction ws as [|a ws IH]; intros i sendCount w.
  - exists w, [], [], []. simpl. rewrite !app_nil_r, andb_false_r.
    repeat split; try done; try lia. intros st. by rewrite app_nil_r.
  - simpl.
    set (pre := if decide (0 < i ∨ 1 < iter) then Diamante.humanDelay E else mret tt).
    unfold mbind at 1. unfold M_bind at 1.
    assert (Hpre : exists w0 pevs pds,
      pre w = Ret tt w0 /\ heap w0 = heap w /\ MIN_DELAY w0 = MIN_DELAY w
      /\ MAX_DELAY w0 = MAX_DELAY w /\ results w0 = results w /\ stats w0 = stats w
      /\ n_fetch w0 = n_fetch w /\ trace w0 = trace w ++ pevs
      /\ (forall st, foldl gap_step (st, []) pevs = (st, (fun d => (d * 1000)%Q) <$> pds))
      /\ pds = (if first_task iter i then [] else [jitter w (random E (n_random w))])).
    { unfold pre, first_task. destruct (decide (0 < i ∨ 1 < iter)) as [Hd|Hd].
      - rewrite humanDelay_run by done. eexists _, [_], [_]. split; [done|].
        rewrite bool_decide_false by tauto. simpl. repeat split; done.
      - exists w, [], []. rewrite bool_decide_true by done. simpl.
        rewrite app_nil_r. repeat split; done. }
    destruct Hpre as (w0 & pevs & pds & -> & Hh0 & Hmin0 & Hmax0 & Hr0 & Hs0 & Hnf0 & Htr0
                      & Hg0 & Hpds).
    unfold emit, modify, mbind, M_bind. simpl.
    set (w1 := add_event _ w0).
    destruct (send_run E a q 0 w1 HE) as (r & w2 & -> & Hpost).
    destruct Hpost as (Hh2 & Hr2 & Hmin2 & Hmax2 & Hrand2 & (sevs & Htr2 & Hsevs) & Hnf2
                       & Hnw2 & Hcalm2 & (Ht2 & Hs2 & Hf2 & Ha2 & Hq2) & Haddr2).
    simpl in *.
    unfold Diamante.push_result, modify. simpl.
    set (w3 := add_event _ _).
    change (list_fmap string jsval JStr ws) with (JStr <$> ws).
    destruct (IH (i + 1) (Diamante.bump sendCount a) w3)
      as (w' & rs & ds & evs & -> & Hh & Hmin & Hmax & Hr & Haddrs & Hqs & Ht & Hs & Hf & Ha
          & Hnf & Htr & Hg & Hds & Hlen).
    assert (Hnf1 : first_task iter (i + 1) = false).
    { unfold first_task. apply bool_decide_false. intros Hn. apply Hn. left. lia. }
    exists w', (r :: rs), (pds ++ ds),
      (pevs ++ [EvTask a (default None (Diamante.bump sendCount a !! a))] ++ sevs
       ++ [EvProgress (i + 1) n] ++ evs).
    unfold w3 in *. simpl in Hh, Hmin, Hmax, Hr, Ht, Hs, Hf, Ha, Hnf, Htr.
    repeat split.
    + rewrite Hh, Hh2, Hh0. done.
    + rewrite Hmin, Hmin2, Hmin0. done.
    + rewrite Hmax, Hmax2, Hmax0. done.
    + rewrite Hr, Hr2, Hr0. by rewrite <- app_assoc.
    + by rewrite fmap_cons, Haddrs, Haddr2.
    + by constructor.
    + rewrite Ht, Ht2, Hs0. simpl. lia.
    + rewrite Hs, Hs2, Hs0. unfold succeeded. rewrite filter_cons.
      destruct (r_success r); simpl; lia.
    + rewrite Hf, Hf2, Hs0. unfold failures. rewrite filter_cons.
      destruct (r_success r); simpl; lia.
    + rewrite Ha, Ha2, Hs0. simpl. rewrite Hq2. done.
    + rewrite Hnf0 in Hnf2. unfold Diamante.MAX_RETRIES in *. lia.
    + rewrite Htr, Htr2, Htr0. rewrite <- !app_assoc. reflexivity.
    + intros st. rewrite foldl_app, Hg0. simpl.
      rewrite foldl_app, (gap_step_send _ sevs Hsevs). simpl.
      rewrite Hg. f_equal. rewrite Hpds.
      rewrite Hnf1. simpl.
      destruct (first_task iter i); simpl; rewrite <- ?app_assoc; done.
    + rewrite Hpds. apply Forall_app. split.
      * destruct (first_task iter i); [constructor|]. repeat constructor. by eexists.
      * eapply Forall_impl; [exact Hds|]. intros d [k ->]. exists k.
        unfold jitter. simpl. by rewrite Hmin2, Hmax2, Hmin0, Hmax0.
    + rewrite length_app, Hlen, Hnf1, Hpds. destruct (first_task iter i); simpl; lia.
Qed.

Lemma expand_names (wallets : list string) (k : nat) :
  exists names, expand wallets k = JStr <$> names.
Proof.
  induction wallets as [|r rest [names IH]]; simpl.
  - by exists [].
  - exists (replicate k r ++ names). by rewrite fmap_app, fmap_replicate, IH.
Qed.

Lemma perm_names (ys : list jsval) (names : list string) :
  ys ≡ₚ JStr <$> names -> exists ws, ys = JStr <$> ws.
Proof.
  intros Hp.
  assert (HF : Forall (fun v => exists s, v = JStr s) ys).
  { rewrite Hp. apply Forall_fmap, Forall_true. intros s. by exists s. }
  clear Hp. induction HF as [|v ys [s ->] _ [ws ->]].
  - by exists [].
  - by exists (s :: ws).
Qed.

(** One round, when nothing interrupts it. *)
Lemma round_run (E : Env) (wallets : list string) (q : Q) (k : Z) (iter : nat) (w : World) :
  no_sigint E -> random_unit E ->
  exists w' rs ds evs,
    Diamante.round E wallets q k iter w = Ret tt w'
    /\ MIN_DELAY w' = MIN_DELAY w /\ MAX_DELAY w' = MAX_DELAY w
    /\ results w' = results w ++ rs
    /\ length rs = length wallets * Z.to_nat k
    /\ Forall (fun r => r_amount r = q) rs
    /\ (forall r, occurrences r (JStr <$> (r_toAddress <$> rs)) = copies r wallets * Z.to_nat k)
    /\ total (stats w') = total (stats w) + length rs
    /\ success (stats w') = success (stats w) + succeeded rs
    /\ failed (stats w') = failed (stats w) + failures rs
    /\ amount (stats w')
       = foldl (fun acc r => if r_success r then (acc + r_amount r)%Q else acc)
           (amount (stats w)) rs
    /\ n_fetch w' <= n_fetch w + length rs * S Diamante.MAX_RETRIES
    /\ trace w' = trace w ++ evs
    /\ (forall st, foldl gap_step (st, []) evs
                  = (st ++ (if first_task iter 0 && bool_decide (rs ≠ []) then [[]] else [])
                        ++ ((fun d => [(d * 1000)%Q]) <$> ds), []))
    /\ Forall (fun d => exists n, d = jitter w (random E n)) ds
    /\ length ds = length rs - (if first_task iter 0 then 1 else 0).
Proof.
  intros HE HR. unfold Diamante.round. unfold mbind at 1. unfold M_bind at 1.
  destruct (buildQueue_spec E wallets k w HR) as (a & ys & h & m & -> & Hys & Hperm).
  destruct (expand_names wallets (Z.to_nat k)) as [names Hnames].
  destruct (perm_names ys names) as [ws ->]; [by rewrite <- Hnames|].
  destruct (redrawn_fields h m w) as (Hh1 & Hs1 & Hmin1 & Hmax1 & Hr1 & _ & Hnf1 & _ & _ & Htr1).
  unfold emit, modify, read_array, array_at, mbind, M_bind. simpl.
  rewrite ?Hh1, Hys. simpl.
  set (w1 := add_event _ _).
  destruct (dispatch_run E q iter (length (JStr <$> ws)) HE ws 0
              (list_to_map ((fun w => (w, Some 0)) <$> wallets)) w1)
    as (w' & rs & ds & evs & Hrun & _ & Hmin & Hmax & Hr & Haddr & Hq & Ht & Hs & Hf & Ha
        & Hnf & Htr & Hg & Hds & Hlends).
  change (list_fmap string jsval JStr ws) with (JStr <$> ws).
  rewrite Hrun. exists w', rs, ds, (EvRound iter :: evs).
  assert (Hlen : length rs = length ws).
  { by rewrite <- Haddr, length_fmap. }
  unfold w1 in *. cbn in Hmin, Hmax, Hr, Ht, Hs, Hf, Ha, Hnf, Htr.
  split; [done|]. repeat split.
  - by rewrite Hmin, Hmin1.
  - by rewrite Hmax, Hmax1.
  - by rewrite Hr, Hr1.
  - rewrite Hlen, <- (length_fmap JStr ws), Hperm. apply expand_length.
  - done.
  - intros r. rewrite Haddr, (occurrences_perm _ _ _ Hperm). apply occurrences_expand.
  - rewrite Ht, Hs1. lia.
  - by rewrite Hs, Hs1.
  - by rewrite Hf, Hs1.
  - by rewrite Ha, Hs1.
  - rewrite Hnf1 in Hnf. lia.
  - rewrite Htr, Htr1. by rewrite <- app_assoc.
  - intros st. simpl. rewrite Hg.
    replace (bool_decide (rs ≠ [])) with (bool_decide (ws ≠ [])); [done|].
    destruct rs, ws; simpl in *; try done.
  - eapply Forall_impl; [exact Hds|]. intros d [n ->]. exists n. unfold jitter. cbn.
    by rewrite Hmin1, Hmax1.
  - by rewrite Hlen.
Qed.

Lemma printSummary_run (E : Env) (rs : list SendResult) (wc : nat) (w : World) :
  exists w' elapsed,
    Diamante.printSummary E rs wc w = Ret tt w'
    /\ stats w' = stats w /\ results w' = results w /\ n_fetch w' = n_fetch w
    /\ n_wait w' = n_wait w /\ MIN_DELAY w' = MIN_DELAY w /\ MAX_DELAY w' = MAX_DELAY w
    /\ trace w' = trace w ++ [EvSummary (Diamante.summary_of (stats w) elapsed rs wc)].
Proof.
  unfold Diamante.printSummary, mbind, M_bind, get, emit, modify, date_now.
  destruct (start (stats w)) as [t|]; [destruct (t =? 0)%Z|]; simpl;
    eexists _, _; (split; [reflexivity|]); simpl; repeat split; done.
Qed.

(** The pauses of the rounds, when nothing interrupts them. *)
Lemma rounds_paced (E : Env) (wallets : list string) (q : Q) (k : Z)
    (continuous : bool) (maxIter : option Z) :
  no_sigint E -> random_unit E ->
  forall (fuel iter : nat) (w : World),
  exists w' ds evs gs,
    (Diamante.rounds E fuel wallets q k continuous maxIter iter w = Ret tt w'
     \/ Diamante.rounds E fuel wallets q k continuous maxIter iter w = OutOfFuel w')
    /\ MIN_DELAY w' = MIN_DELAY w /\ MAX_DELAY w' = MAX_DELAY w
    /\ trace w' = trace w ++ evs
    /\ (forall st, foldl gap_step (st, []) evs = (st ++ gs, []))
    /\ ((gs = [] /\ ds = [])
        \/ (iter = 0 /\ gs = [] :: ((fun d => [(d * 1000)%Q]) <$> ds))
        \/ (iter ≠ 0 /\ gs = (fun d => [(d * 1000)%Q]) <$> ds))
    /\ (length wallets * Z.to_nat k = 0 -> gs = [] /\ ds = [])
    /\ Forall (fun d => exists n, d = jitter w (random E n)) ds
    /\ length (results w') = length (results w) + length gs.
Proof.
  intros HE HR. induction fuel as [|fuel IH]; intros iter w.
  - exists w, [], [], []. simpl. rewrite app_nil_r. repeat split; try done.
    + by right.
    + intros st. by rewrite app_nil_r.
    + by left.
  - remember (Diamante.rounds E (S fuel) wallets q k continuous maxIter iter w) as o eqn:Ho.
    simpl in Ho. unfold mbind at 1 in Ho. unfold M_bind at 1 in Ho.
    destruct (round_run E wallets q k (S iter) w HE HR)
      as (w1 & rs & ds1 & evs1 & Hround & Hmin1 & Hmax1 & Hres1 & HN & _ & _ & _ & _ & _ & _ & _
          & Htr1 & Hg1 & Hds1 & Hlen1).
    rewrite Hround in Ho. clear Hround.
    set (gs1 := (if first_task (S iter) 0 && bool_decide (rs ≠ []) then [[]] else [])
                ++ ((fun d => [(d * 1000)%Q]) <$> ds1)) in *.
    assert (Hshape : (rs = [] /\ gs1 = [] /\ ds1 = [])
        \/ (rs ≠ [] /\ iter = 0 /\ gs1 = [] :: ((fun d => [(d * 1000)%Q]) <$> ds1))
        \/ (iter ≠ 0 /\ gs1 = (fun d => [(d * 1000)%Q]) <$> ds1)).
    { unfold gs1, first_task in *. destruct (decide (iter = 0)) as [->|Hne].
      - rewrite bool_decide_true in * by lia.
        destruct rs; simpl in *.
        + left. destruct ds1; simpl in *; [done|lia].
        + right. left. done.
      - rewrite bool_decide_false in * by lia. simpl. right. right. done. }
    assert (Hlgs : length gs1 = length rs).
    { unfold gs1, first_task in *. rewrite length_app, length_fmap, Hlen1.
      destruct (decide (iter = 0)) as [->|Hne].
      - rewrite bool_decide_true by lia. destruct rs; simpl; [done|lia].
      - rewrite bool_decide_false by lia. simpl. lia. }
    assert (Hstop : exists w' ds evs gs,
      (Ret tt w1 = Ret tt w' \/ Ret tt w1 = @OutOfFuel unit w')
      /\ MIN_DELAY w' = MIN_DELAY w /\ MAX_DELAY w' = MAX_DELAY w
      /\ trace w' = trace w ++ evs
      /\ (forall st, foldl gap_step (st, []) evs = (st ++ gs, []))
      /\ ((gs = [] /\ ds = [])
          \/ (iter = 0 /\ gs = [] :: ((fun d => [(d * 1000)%Q]) <$> ds))
          \/ (iter ≠ 0 /\ gs = (fun d => [(d * 1000)%Q]) <$> ds))
      /\ (length wallets * Z.to_nat k = 0 -> gs = [] /\ ds = [])
      /\ Forall (fun d => exists n, d = jitter w (random E n)) ds
      /\ length (results w') = length (results w) + length gs).
    { exists w1, ds1, evs1, gs1. repeat split; try done.
      all: try (rewrite Hres1, length_app, Hlgs; done).
      - by left.
      - destruct Hshape as [(_ & ? & ?)|[(_ & ? & ?)|?]]; tauto.
      - destruct Hshape as [(_ & ? & ?)|[(Hne & _)|(_ & ?)]]; try done.
        + destruct rs; [done|]. simpl in HN. lia.
        + rewrite <- HN in H. destruct rs; [|done]. simpl in Hlen1. subst.
          by destruct ds1.
      - destruct Hshape as [(_ & ? & ?)|[(Hne & _)|(_ & ?)]]; try done.
        + destruct rs; [done|]. simpl in HN. lia.
        + rewrite <- HN in H. destruct rs; [|done]. simpl in Hlen1. by destruct ds1. }
    unfold mret, M_ret in Ho.
    destruct continuous; simpl in Ho; [|subst o; exact Hstop].
    destruct (Diamante.reached maxIter (S iter)); [subst o; exact Hstop|]. clear Hstop.
    unfold sleep, emit, modify, wait, mbind, M_bind in Ho. simpl in Ho. rewrite HE in Ho.
    set (w2 := tick_wait _) in Ho. subst o.
    destruct (IH (S iter) w2) as (w' & ds2 & evs2 & gs2 & Hrun & Hmin2 & Hmax2 & Htr2 & Hg2
                                  & Hshape2 & HN2 & Hds2 & Hres2).
    assert (Hgs2 : gs2 = (fun d => [(d * 1000)%Q]) <$> ds2).
    { destruct Hshape2 as [[-> ->]|[[? _]|[_ ->]]]; done. }
    exists w', (ds1 ++ ds2), (evs1 ++ [EvSleep RoundPause 5000] ++ evs2), (gs1 ++ gs2).
    unfold w2 in *. cbn in Hmin2, Hmax2, Htr2, Hres2.
    repeat split.
    + exact Hrun.
    + by rewrite Hmin2, Hmin1.
    + by rewrite Hmax2, Hmax1.
    + rewrite Htr2, Htr1. rewrite <- !app_assoc. reflexivity.
    + intros st. rewrite foldl_app, Hg1. simpl. rewrite Hg2. by rewrite <- app_assoc.
    + rewrite Hgs2, fmap_app.
      destruct Hshape as [(Hrs & -> & ->)|[(_ & -> & ->)|[Hne ->]]]; simpl.
      * destruct (HN2 ltac:(by rewrite <- HN, Hrs)) as [_ ->]. by left.
      * right. left. done.
      * right. right. done.
    + destruct (HN2 H) as [-> _].
      destruct Hshape as [(_ & -> & _)|[(Hne & _)|(_ & ->)]]; try done.
      * destruct rs; [done|]. simpl in HN. lia.
      * rewrite <- HN in H. destruct rs; [|done]. simpl in Hlen1. by destruct ds1.
    + destruct (HN2 H) as [_ ->].
      destruct Hshape as [(_ & _ & ->)|[(Hne & _)|(_ & _)]]; try done.
      * destruct rs; [done|]. simpl in HN. lia.
      * rewrite <- HN in H. destruct rs; [|done]. simpl in Hlen1. by destruct ds1.
    + apply Forall_app. split; [done|].
      eapply Forall_impl; [exact Hds2|]. intros d [n ->]. exists n. unfold jitter. cbn.
      by rewrite Hmin1, Hmax1.
    + rewrite Hres2, Hres1, !length_app, Hlgs. lia.
Qed.

Lemma gaps_app_closed (evs : list Event) (gs : list (list Q)) :
  (forall st, foldl gap_step (st, []) evs = (st ++ gs, [])) -> gaps evs = gs.
Proof. intros H. unfold gaps. by rewrite (H []). Qed.

Lemma sendRound_paced (E : Env) (fuel : nat) (wallets : list string) (q : Q) (k : Z)
    (continuous : bool) (maxIter : option Z) (w : World) :
  no_sigint E -> random_unit E ->
  exists w' ds evs,
    ((exists rs, Diamante.sendRound E fuel wallets q k continuous maxIter w = Ret rs w')
     \/ Diamante.sendRound E fuel wallets q k continuous maxIter w = OutOfFuel w')
    /\ trace w' = trace w ++ evs
    /\ (gaps evs = [] \/ gaps evs = [] :: ((fun d => [(d * 1000)%Q]) <$> ds))
    /\ loose_pauses evs = []
    /\ length (gaps evs) = length (results w')
    /\ Forall (fun d => exists n, d = jitter w (random E n)) ds.
Proof.
  intros HE HR.
  remember (Diamante.sendRound E fuel wallets q k continuous maxIter w) as o eqn:Ho.
  unfold Diamante.sendRound in Ho.
  unfold mbind at 1 in Ho. unfold M_bind at 1 in Ho. unfold modify at 1 in Ho.
  unfold mbind at 1 in Ho. unfold M_bind at 1 in Ho. unfold try_catch in Ho.
  destruct (rounds_paced E wallets q k continuous maxIter HE HR fuel 0
              (set_results [] w))
    as (w1 & ds & evs & gs & Hrun & Hmin & Hmax & Htr & Hg & Hshape & HN & Hds & Hres).
  cbn in Hmin, Hmax, Htr, Hres.
  assert (Hgaps : gs = [] \/ gs = [] :: ((fun d => [(d * 1000)%Q]) <$> ds)).
  { destruct Hshape as [[-> _]|[[_ ->]|[? _]]]; [by left|by right|done]. }
  destruct Hrun as [Hrun|Hrun]; rewrite Hrun in Ho.
  - unfold mbind, M_bind, get in Ho.
    destruct (printSummary_run E (results w1) (length wallets) w1)
      as (w2 & elapsed & Hp & _ & Hr2 & _ & _ & _ & _ & Htr2).
    rewrite Hp in Ho. unfold mret, M_ret in Ho.
    exists w2, ds, (evs ++ [EvSummary (Diamante.summary_of (stats w1) elapsed (results w1)
                                         (length wallets))]).
    split; [left; by eexists|].
    unfold gaps, loose_pauses. rewrite foldl_app, (Hg []). simpl.
    split; [by rewrite Htr2, Htr, <- app_assoc|].
    split; [done|]. split; [done|]. split; [by rewrite Hr2, Hres|done].
  - exists w1, ds, evs. split; [by right|].
    unfold gaps, loose_pauses. rewrite (Hg []). simpl.
    split; [done|]. split; [done|]. split; [done|]. split; [by rewrite Hres|done].
Qed.


(** A single round, as [sendRound] runs it when it is not continuous. *)
Lemma sendRound_single (E : Env) (fuel : nat) (wallets : list string) (q : Q) (k : Z)
    (maxIter : option Z) (w : World) :
  no_sigint E -> random_unit E ->
  exists rs w',
    Diamante.sendRound E (S fuel) wallets q k false maxIter w = Ret rs w'
    /\ results w' = rs
    /\ length rs = length wallets * Z.to_nat k
    /\ Forall (fun r => r_amount r = q) rs
    /\ (forall r, occurrences r (JStr <$> (r_toAddress <$> rs)) = copies r wallets * Z.to_nat k)
    /\ total (stats w') = total (stats w) + length rs
    /\ success (stats w') = success (stats w) + succeeded rs
    /\ failed (stats w') = failed (stats w) + failures rs
    /\ amount (stats w')
       = foldl (fun acc r => if r_success r then (acc + r_amount r)%Q else acc)
           (amount (stats w)) rs
    /\ n_fetch w' <= n_fetch w + length rs * S Diamante.MAX_RETRIES
    /\ exists elapsed,
         last (trace w') = Some (EvSummary (Diamante.summary_of (stats w') elapsed rs
                                              (length wallets))).
Proof.
  intros HE HR. unfold Diamante.sendRound.
  unfold mbind at 1. unfold M_bind at 1. unfold modify at 1.
  unfold mbind at 1. unfold M_bind at 1. unfold try_catch.
  simpl. unfold mbind at 1. unfold M_bind at 1.
  destruct (round_run E wallets q k 1 (set_results [] w) HE HR)
    as (w1 & rs & ds & evs & -> & _ & _ & Hr & Hlen & Hq & Hocc & Ht & Hs & Hf & Ha & Hnf
        & _).
  cbn in Hr, Ht, Hs, Hf, Ha, Hnf. unfold mret, M_ret, get, mbind, M_bind.
  destruct (printSummary_run E (results w1) (length wallets) w1)
    as (w2 & elapsed & -> & Hs2 & Hr2 & Hnf2 & _ & _ & _ & Htr2).
  exists rs, w2. rewrite Hr. split; [done|].
  rewrite Hs2, Hr2, Hnf2, Htr2, Hr. repeat split; try done.
  exists elapsed. by rewrite last_snoc.
Qed.

(** ** Runs that SIGINT may cut short *)

Lemma interruptible_bind {A B} (E : Env) (m : M A) (f : A -> M B) (w : World) :
  interruptible E w (m w) ->
  (forall a w1, m w = Ret a w1 -> interruptible E w1 (f a w1)) ->
  interruptible E w ((m ≫= f) w).
Proof.
  intros Hm Hf. unfold mbind, M_bind.
  destruct (m w) as [a w1|e w1|c w1|w1]; simpl in *; try done.
  destruct Hm as [Hle Hc]. specialize (Hf a w1 eq_refl).
  destruct (f a w1) as [b w2|e w2|c w2|w2]; simpl in *; try done.
  - destruct Hf as [Hle2 Hc2]. split; [lia|]. by eapply calm_app.
  - destruct Hf as (-> & k & Hk1 & Hk2 & Hk3 & Hk4). split; [done|].
    exists k. repeat split; try done; try lia. by eapply calm_app.
  - destruct Hf as [Hle2 Hc2]. split; [lia|]. by eapply calm_app.
Qed.

Lemma interruptible_silent {A} (E : Env) (w w' : World) (a : A) :
  n_wait w' = n_wait w -> interruptible E w (Ret a w').
Proof. intros H. simpl. rewrite H. split; [lia|apply calm_empty]. Qed.

Lemma interruptible_wait (E : Env) (w : World) : interruptible E w (wait E w).
Proof.
  unfold wait. destruct (sigint E (n_wait w)) eqn:Hs; simpl.
  - split; [done|]. exists (n_wait w). repeat split; try done. apply calm_empty.
  - split; [lia|]. apply calm_snoc; [lia|apply calm_empty|done].
Qed.

Lemma interruptible_sleep (E : Env) (site : Site) (ms : Q) (w : World) :
  interruptible E w (sleep E site ms w).
Proof.
  unfold sleep. apply interruptible_bind.
  - by apply interruptible_silent.
  - intros [] w1 [= <-]. apply interruptible_wait.
Qed.

Lemma interruptible_humanDelay (E : Env) (w : World) :
  interruptible E w (Diamante.humanDelay E w).
Proof.
  unfold Diamante.humanDelay. apply interruptible_bind.
  - by apply interruptible_silent.
  - intros r w1 _. apply interruptible_bind.
    + by apply interruptible_silent.
    + intros w2 w3 _. apply interruptible_sleep.
Qed.

Lemma interruptible_send (E : Env) (a : string) (q : Q) (rc : nat) (w : World) :
  interruptible E w (Diamante.send E a q rc w).
Proof.
  pose proof (send_spec E a q _ rc w eq_refl) as H. unfold send_post in H.
  destruct (Diamante.send E a q rc w) as [r w'|e w'|c w'|w']; simpl in *;
    destruct H as (_&_&_&_&_&_&_&H); try done.
  by destruct H as (? & ? & _).
Qed.

Lemma interruptible_dispatch (E : Env) (q : Q) (iter n : nat) :
  forall (ws : list string) (i : nat) (sendCount : gmap string (option nat)) (w : World),
    interruptible E w (Diamante.dispatch E q iter n i (JStr <$> ws) sendCount w).
Proof.
  induction ws as [|a ws IH]; intros i sendCount w.
  - by apply interruptible_silent.
  - rewrite fmap_cons. simpl. apply interruptible_bind.
    { destruct (decide (0 < i ∨ 1 < iter)).
      - apply interruptible_humanDelay.
      - by apply interruptible_silent. }
    intros _ w1 _. apply interruptible_bind; [by apply interruptible_silent|].
    intros _ w2 _. apply interruptible_bind; [apply interruptible_send|].
    intros r w3 _. apply interruptible_bind; [by apply interruptible_silent|].
    intros _ w4 _. apply interruptible_bind; [by apply interruptible_silent|].
    intros _ w5 _. apply IH.
Qed.

Lemma interruptible_round (E : Env) (wallets : list string) (q : Q) (k : Z) (iter : nat)
    (w : World) :
  random_unit E -> interruptible E w (Diamante.round E wallets q k iter w).
Proof.
  intros HR. unfold Diamante.round. apply interruptible_bind.
  - destruct (buildQueue_spec E wallets k w HR) as (a & ys & h & m & -> & _).
    apply interruptible_silent. by destruct (redrawn_fields h m w) as (_&_&_&_&_&_&_&_&?&_).
  - intros a w1 Hb.
    destruct (buildQueue_spec E wallets k w HR) as (a' & ys & h & m & Hb' & Hys & Hperm).
    rewrite Hb' in Hb. injection Hb as <- <-.
    apply interruptible_bind; [by apply interruptible_silent|].
    intros [] w2 Hw2. injection Hw2 as <-.
    apply interruptible_bind; [by apply interruptible_silent|].
    intros xs w3 Hx. injection Hx as <- <-.
    destruct (redrawn_fields h m w) as (Hh & _).
    unfold array_at. cbn. rewrite Hh, Hys. cbn.
    destruct (expand_names wallets (Z.to_nat k)) as [names Hnames].
    destruct (perm_names ys names) as [ws ->]; [by rewrite <- Hnames|].
    apply interruptible_dispatch.
Qed.

Lemma interruptible_rounds (E : Env) (wallets : list string) (q : Q) (k : Z)
    (continuous : bool) (maxIter : option Z) :
  random_unit E ->
  forall (fuel iter : nat) (w : World),
    interruptible E w (Diamante.rounds E fuel wallets q k continuous maxIter iter w).
Proof.
  intros HR. induction fuel as [|fuel IH]; intros iter w.
  - simpl. split; [lia|apply calm_empty].
  - simpl. apply interruptible_bind; [by apply interruptible_round|].
    intros _ w1 _. destruct (negb continuous); [by apply interruptible_silent|].
    destruct (Diamante.reached maxIter (S iter)); [by apply interruptible_silent|].
    apply interruptible_bind; [apply interruptible_sleep|].
    intros _ w2 _. apply IH.
Qed.

Lemma interruptible_sendRound (E : Env) (fuel : nat) (wallets : list string) (q : Q) (k : Z)
    (continuous : bool) (maxIter : option Z) (w : World) :
  random_unit E ->
  interruptible E w (Diamante.sendRound E fuel wallets q k continuous maxIter w).
Proof.
  intros HR. unfold Diamante.sendRound.
  apply interruptible_bind; [by apply interruptible_silent|].
  intros _ w1 _. apply interruptible_bind.
  - unfold try_catch.
    pose proof (interruptible_rounds E wallets q k continuous maxIter HR fuel 0 w1) as H.
    by destruct (Diamante.rounds E fuel wallets q k continuous maxIter 0 w1).
  - intros _ w2 _. apply interruptible_bind; [by apply interruptible_silent|].
    intros w3 w4 _. apply interruptible_bind.
    + destruct (printSummary_run E (results w3) (length wallets) w4)
        as (w5 & el & -> & _ & _ & _ & Hnw & _).
      by apply interruptible_silent.
    + intros _ w5 _. by apply interruptible_silent.
Qed.

(** ** The retries of [send], response by response *)

Lemma send_final (E : Env) (a : string) (q : Q) (rc : nat) (w : World) :
  no_sigint E ->
  Diamante.MAX_RETRIES <= rc \/ limited (network E (n_fetch w)) = false ->
  exists w',
    Diamante.send E a q rc w = Ret (final_result a q (network E (n_fetch w))) w'
    /\ n_fetch w' = S (n_fetch w)
    /\ trace w' = trace w ++ [EvFetch a q].
Proof.
  intros HE Hfin. rewrite Diamante.send_equation_1. unfold mbind at 1. unfold M_bind at 1.
  destruct (pre_spec E rc w) as (w0 & -> & Hio & _).
  destruct Hio as (_ & _ & _ & _ & _ & Hnf & _ & Htr).
  unfold try_catch, mbind, M_bind, fetch, wait. simpl. rewrite HE, Hnf.
  unfold limited, final_result in *.
  destruct (network E (n_fetch w)) as [msg|status body].
  - eexists. split; [reflexivity|]. simpl. by rewrite Hnf, Htr.
  - simpl.
    assert (Hc : exists w',
       Diamante.conclude a q (Diamante.parse_body body)
         (tick_wait (add_event (EvFetch a q) (tick_fetch w0)))
       = Ret (if strict_eq (j_success (Diamante.parse_body body)) (JBool true)
              then Sent (Diamante.hash_of (Diamante.parse_body body)) a q
                     (Diamante.parse_body body)
              else NotSent (Diamante.errMsg_of (Diamante.parse_body body)) a q) w'
       /\ n_fetch w' = S (n_fetch w) /\ trace w' = trace w ++ [EvFetch a q]).
    { destruct (conclude_spec a q (Diamante.parse_body body)
                  (tick_wait (add_event (EvFetch a q) (tick_fetch w0))))
        as (r & w3 & -> & Hio & _ & _ & _ & _ & _ & _ & _ & ->).
      destruct Hio as (_ & _ & _ & _ & _ & Hnf3 & _ & Htr3). exists w3.
      rewrite Hnf3, Htr3. simpl. by rewrite Hnf, Htr. }
    destruct Hc as (w' & Hc & Hnf' & Htr'). exists w'.
    destruct (Diamante.rate_limited status (Diamante.parse_body body)) eqn:Hrl.
    + destruct (lt_dec rc Diamante.MAX_RETRIES) as [Hlt|Hge].
      * destruct Hfin as [Hfin|Hfin]; [lia|done].
      * by rewrite Hc.
    + by rewrite Hc.
Qed.




(** ** cli.js *)

Lemma countdown_run (E : Env) (site : Site) (n : nat) (w : World) :
  exists w',
    Cli.countdown site n w = Ret tt w'
    /\ heap w' = heap w /\ n_random w' = n_random w /\ n_fetch w' = n_fetch w
    /\ trace w' = trace w ++ replicate n (EvSleep site 1000).
Proof.
  revert w. induction n as [|n IH]; intros w; simpl.
  - exists w. by rewrite app_nil_r.
  - unfold Cli.sleep, emit, modify, mbind, M_bind. simpl.
    destruct (IH (tick_wait (add_event (EvSleep site 1000) w)))
      as (w' & -> & Hh & Hr & Hf & Ht).
    exists w'. simpl in *. rewrite Hh, Hr, Hf, Ht, <- app_assoc. done.
Qed.

Lemma sendTransaction_run (E : Env) (a : string) (q : Q) (rc : nat) (w : World) :
  exists r,
    Cli.sendTransaction E a q rc w
    = Ret r (tick_wait (add_event (EvFetch a q) (tick_fetch w)))
    /\ (forall wt rc', r = Cli.Retry wt rc' ->
          rc < Cli.MAX_RETRIES /\ wt = Cli.waitTime rc /\ rc' = rc + 1).
Proof.
  unfold Cli.sendTransaction, try_catch, mbind, M_bind, Cli.fetch, Cli.res_json,
    Cli.mentions_guardian.
  destruct (network E (n_fetch w)) as [msg|status [data|text stringified]]; simpl;
    try (eexists; split; [reflexivity|]; done).
  destruct (strict_eq (j_status data) (JNum 429) || (status =? 429)%Z); simpl.
  - destruct (bool_decide (rc < Cli.MAX_RETRIES)) eqn:Hlt; simpl.
    + apply bool_decide_eq_true in Hlt. eexists. split; [reflexivity|].
      by intros wt rc' [= <- <-].
    + destruct (truthy (j_success data)); simpl; eexists; (split; [reflexivity|]); done.
  - destruct (truthy (j_message data)); simpl.
    + destruct (j_message data) as [| |b|z|s]; simpl;
        try (eexists; split; [reflexivity|]; done).
      destruct (includes "guardian" s); simpl.
      * destruct (bool_decide (rc < Cli.MAX_RETRIES)) eqn:Hlt; simpl.
        -- apply bool_decide_eq_true in Hlt. eexists. split; [reflexivity|].
           by intros wt rc' [= <- <-].
        -- destruct (truthy (j_success data)); simpl; eexists; (split; [reflexivity|]); done.
      * destruct (truthy (j_success data)); simpl; eexists; (split; [reflexivity|]); done.
    + destruct (truthy (j_success data)); simpl; eexists; (split; [reflexivity|]); done.
Qed.






Lemma retry_loop_run (E : Env) (a : string) (q : Q) :
  forall (fuel : nat) (result : Cli.TxResult) (w : World),
    budget result <= fuel ->
    exists r w' evs,
      Cli.retry_loop E fuel a q result w = Ret r w'
      /\ is_retry r = false
      /\ n_fetch w' <= n_fetch w + budget result
      /\ heap w' = heap w /\ n_random w' = n_random w
      /\ trace w' = trace w ++ evs /\ Forall submit_event evs.
Proof.
  induction fuel as [|fuel IH]; intros result w Hb.
  - destruct result as [wt rc| |]; simpl in *.
    + lia.
    + exists (Cli.TxSent hash), w, []. rewrite app_nil_r. repeat split; try done. lia.
    + exists (Cli.TxFailed error), w, []. rewrite app_nil_r. repeat split; try done. lia.
  - destruct result as [wt rc| |]; simpl in *.
    + unfold mbind, M_bind.
      destruct (countdown_run E RetryCountdown (Z.to_nat wt) w) as (w1 & -> & Hh1 & Hr1 & Hf1 & Ht1).
      destruct (sendTransaction_run E a q rc w1) as (r1 & -> & Hretry).
      set (w2 := tick_wait _).
      destruct (IH r1 w2) as (r & w' & evs & -> & Hnr & Hnf & Hh & Hr & Ht & Hev).
      { destruct r1 as [wt' rc'| |]; simpl; try lia.
        destruct (Hretry wt' rc' eq_refl) as (? & _ & ->). lia. }
      exists r, w', (replicate (Z.to_nat wt) (EvSleep RetryCountdown 1000)
                     ++ [EvFetch a q] ++ evs).
      unfold w2 in *. simpl in Hnf, Hh, Hr, Ht.
      repeat split; try done.
      * rewrite Hf1 in Hnf.
        destruct r1 as [wt' rc'| |]; simpl in Hnf; try lia.
        destruct (Hretry wt' rc' eq_refl) as (? & _ & ->). lia.
      * by rewrite Hh, Hh1.
      * by rewrite Hr, Hr1.
      * rewrite Ht, Ht1. rewrite <- !app_assoc. reflexivity.
      * apply Forall_app. split; [by apply Forall_replicate|].
        constructor; [done|]. done.
    + exists (Cli.TxSent hash), w, []. rewrite app_nil_r. repeat split; try done. lia.
    + exists (Cli.TxFailed error), w, []. rewrite app_nil_r. repeat split; try done. lia.
Qed.

Lemma submit_run (E : Env) (fuel : nat) (a : string) (q : Q) (w : World) :
  Cli.MAX_RETRIES <= fuel ->
  exists r w' evs,
    Cli.submit E fuel a q w = Ret r w'
    /\ is_retry r = false
    /\ n_fetch w' <= n_fetch w + S Cli.MAX_RETRIES
    /\ heap w' = heap w /\ n_random w' = n_random w
    /\ trace w' = trace w ++ evs /\ Forall submit_event evs.
Proof.
  intros Hfuel. unfold Cli.submit, mbind, M_bind.
  destruct (sendTransaction_run E a q 0 w) as (r0 & -> & Hretry).
  set (w1 := tick_wait _).
  destruct (retry_loop_run E a q fuel r0 w1) as (r & w' & evs & -> & Hnr & Hnf & Hh & Hr & Ht & Hev).
  { destruct r0 as [wt rc| |]; simpl; try lia.
    destruct (Hretry wt rc eq_refl) as (_ & _ & ->). unfold Cli.MAX_RETRIES in *. lia. }
  exists r, w', ([EvFetch a q] ++ evs). unfold w1 in *. simpl in Hnf, Hh, Hr, Ht.
  repeat split; try done.
  - destruct r0 as [wt rc| |]; simpl in Hnf; try lia.
    destruct (Hretry wt rc eq_refl) as (_ & _ & ->). unfold Cli.MAX_RETRIES in *. lia.
  - rewrite Ht, <- app_assoc. reflexivity.
  - by constructor.
Qed.



Lemma cli_buildQueue_spec (E : Env) (wallets : list string) (k : Z) (w : World) :
  random_unit E ->
  exists a ys h n,
    Cli.buildQueue E wallets k w = Ret a (redrawn h n w)
    /\ h !! a = Some ys
    /\ ys ≡ₚ expand wallets (Z.to_nat k).
Proof.
  intros HE. unfold Cli.buildQueue, mbind, M_bind, alloc, read_array, array_at.
  set (queue := fresh (dom (heap w))).
  set (w1 := set_heap (<[queue:=[]]> (heap w)) w).
  rewrite (push_wallets_spec queue wallets k w1 []) by (simpl; apply lookup_insert_eq).
  simpl. rewrite insert_insert_eq, lookup_insert_eq. simpl.
  set (w2 := set_heap _ w1).
  destruct (shuffle_loop_spec E queue HE (length (expand wallets (Z.to_nat k)) - 1) w2
              (expand wallets (Z.to_nat k))) as (ys & Hrun & Hperm).
  { simpl. apply lookup_insert_eq. }
  { destruct (expand wallets (Z.to_nat k)); simpl; [by right|left; lia]. }
  rewrite Hrun. eexists _, ys, _, _. split; [|split; [|done]].
  - unfold mret, M_ret. f_equal. unfold redrawn, w2, w1.
    rewrite !iter_tick_set_heap. reflexivity.
  - apply lookup_insert_eq.
Qed.





Lemma run_no_wallets (E : Env) (fuel : nat) (opts : Diamante.Opts) (cfg : option Config)
    (w : World) :
  Diamante.resolve_wallets opts (Diamante.effective_config opts cfg) = [] ->
  exists w' msg,
    Diamante.run E fuel opts cfg w = Exit 1 w'
    /\ n_fetch w' = n_fetch w /\ stats w' = stats w
    /\ trace w' = trace w ++ [EvError msg].
Proof.
  intros Hw. unfold Diamante.run, Diamante.main, try_catch.
  set (config := Diamante.effective_config opts cfg) in *.
  destruct (bool_decide (config = None) && negb (truthy_str (Diamante.o_token opts))).
  { unfold emit, modify, exit, mbind, M_bind. simpl. by eexists _, _. }
  rewrite Hw.
  set (d := config ≫= delays).
  set (t := negb (truthy_str (if truthy_str (Diamante.o_token opts)
                              then Diamante.o_token opts
                              else config ≫= accessToken))).
  clearbody d t.
  destruct d as [[lo hi]|], (Diamante.o_fast opts), t;
    unfold emit, modify, exit, mbind, M_bind; simpl; by eexists _, _.
Qed.

Lemma cli_no_wallets (E : Env) (fuel : nat) (config : Config) (w : World) :
  default [] (c_wallets config) = [] ->
  exists w',
    Cli.runSending E fuel config w = Ret tt w'
    /\ n_fetch w' = n_fetch w
    /\ trace w' = trace w ++ [EvError "no wallets configured"; EvSleep Notice 2000].
Proof.
  intros Hw. unfold Cli.runSending. rewrite Hw. simpl.
  unfold Cli.sleep, emit, modify, mbind, M_bind. simpl.
  eexists. split; [reflexivity|]. simpl. by rewrite <- app_assoc.
Qed.

Lemma num_or_nonzero (x y : option Z) (d : Z) :
  d ≠ 0%Z -> default d (num_or x (num_or y None)) ≠ 0%Z.
Proof.
  intros Hd. unfold num_or.
  destruct x as [n|]; [destruct (n =? 0)%Z eqn:Hn|];
    try (destruct y as [m|]; [destruct (m =? 0)%Z eqn:Hm|]); simpl; try done; lia.
Qed.

Lemma copies_absent (r : string) (ws : list string) : r ∉ ws -> copies r ws = 0.
Proof.
  unfold copies. induction ws as [|x ws IH]; intros Hn; [done|].
  apply not_elem_of_cons in Hn as [Hne Hn].
  rewrite filter_cons_False by congruence. by apply IH.
Qed.

Lemma copies_NoDup (r : string) (ws : list string) :
  NoDup ws -> r ∈ ws -> copies r ws = 1.
Proof.
  induction 1 as [|x ws Hx Hnd IH]; intros Hin; [by apply elem_of_nil in Hin|].
  unfold copies. destruct (decide (x = r)) as [->|Hne].
  - rewrite filter_cons_True by done. simpl. f_equal. by apply copies_absent.
  - rewrite filter_cons_False by done. apply IH.
    apply elem_of_cons in Hin as [->|Hin]; done.
Qed.

(** ** The claims *)

Lemma random_unit_ok : random_unit E_ok.
Proof. intros n. split; [discriminate|reflexivity]. Defined.

(** What the two queue builders return, for any list of recipients: a
    queue of [length wallets * k] elements in which a recipient occurs [k]
    times for each time it is listed. *)
Lemma queue_counts (wallets : list string) (k : nat) (queue : list jsval) :
  queue ≡ₚ expand wallets k ->
  length queue = length wallets * k
  /\ forall r, occurrences r queue = copies r wallets * k.
Proof.
  intros Hperm. split; [by rewrite Hperm, expand_length|].
  intros r. rewrite (occurrences_perm _ _ _ Hperm). apply occurrences_expand.
Qed.

(** C1.  For every non-empty list R of distinct recipients and every
    sendsPerWallet k >= 1, the queue builders of both senders (k copies of
    each recipient, then the Fisher-Yates shuffle) return a queue of length
    |R| * k in which every recipient of R occurs exactly k times.
    [Math.random] is taken to return numbers of [0, 1). *)
Theorem C1_queue_counts (E : Env) (wallets : list string) (k : Z) (w : World) :
  random_unit E -> NoDup wallets -> wallets ≠ [] -> (1 <= k)%Z ->
  (exists a w' queue,
     Diamante.buildQueue E wallets k w = Ret a w'
     /\ heap w' !! a = Some queue
     /\ Z.of_nat (length queue) = (Z.of_nat (length wallets) * k)%Z
     /\ forall r, r ∈ wallets -> Z.of_nat (occurrences r queue) = k)
  /\ (exists a w' queue,
        Cli.buildQueue E wallets k w = Ret a w'
        /\ heap w' !! a = Some queue
        /\ Z.of_nat (length queue) = (Z.of_nat (length wallets) * k)%Z
        /\ forall r, r ∈ wallets -> Z.of_nat (occurrences r queue) = k).
Proof.
  intros HR Hnd _ Hk.
  assert (Hrest : forall ys : list jsval, ys ≡ₚ expand wallets (Z.to_nat k) ->
    Z.of_nat (length ys) = (Z.of_nat (length wallets) * k)%Z
    /\ forall r, r ∈ wallets -> Z.of_nat (occurrences r ys) = k).
  { intros ys Hperm. destruct (queue_counts wallets (Z.to_nat k) ys Hperm) as [Hlen Hocc].
    split; [rewrite Hlen; lia|].
    intros r Hin. rewrite Hocc, (copies_NoDup r wallets Hnd Hin). lia. }
  split.
  - destruct (buildQueue_spec E wallets k w HR) as (a & ys & h & n & Hrun & Hys & Hperm).
    exists a, (redrawn h n w), ys. split; [done|].
    destruct (redrawn_fields h n w) as (-> & _). split; [done|]. by apply Hrest.
  - destruct (cli_buildQueue_spec E wallets k w HR) as (a & ys & h & n & Hrun & Hys & Hperm).
    exists a, (redrawn h n w), ys. split; [done|].
    destruct (redrawn_fields h n w) as (-> & _). split; [done|]. by apply Hrest.
Qed.

Lemma NoDup_three : NoDup ["0xAAA"; "0xBBB"; "0xCCC"].
Proof. apply (bool_decide_unpack _). vm_compute. exact I. Defined.

Lemma C1_queue_counts_witness :
  random_unit E_ok /\ NoDup ["0xAAA"; "0xBBB"; "0xCCC"]
  /\ ["0xAAA"; "0xBBB"; "0xCCC"] ≠ [] /\ (1 <= 2)%Z
  /\ exists a w' queue,
       Diamante.buildQueue E_ok ["0xAAA"; "0xBBB"; "0xCCC"] 2 initial_world = Ret a w'
       /\ heap w' !! a = Some queue
       /\ Z.of_nat (length queue) = 6%Z
       /\ Z.of_nat (occurrences "0xBBB" queue) = 2%Z.
Proof.
  assert (Hne : ["0xAAA"; "0xBBB"; "0xCCC"] ≠ []) by discriminate.
  assert (Hk : (1 <= 2)%Z) by discriminate.
  split; [exact random_unit_ok|]. split; [exact NoDup_three|].
  split; [exact Hne|]. split; [exact Hk|].
  destruct (C1_queue_counts E_ok ["0xAAA"; "0xBBB"; "0xCCC"] 2 initial_world
              random_unit_ok NoDup_three Hne Hk)
    as [(a & w' & queue & Hrun & Hq & Hlen & Hocc) _].
  exists a, w', queue. split; [exact Hrun|]. split; [exact Hq|].
  split; [exact Hlen|].
  exact (Hocc "0xBBB" (list_elem_of_further _ _ _ (list_elem_of_here _ _))).
Defined.

Lemma no_sigint_ok : no_sigint E_ok.
Proof. intros n. reflexivity. Defined.

(** C2.  The retry-wrapped submission makes at most MAX_RETRIES + 1 requests
    (MAX_RETRIES = 3 in both senders) and its outcome is never a retry
    request: [send] of diamante.js does so whatever happens and, when no
    SIGINT ends the process, returns a success or a failure for the given
    recipient and amount; the retry loop of cli.js returns a result that is
    not [{retry: true}]. *)
Theorem C2_retry_bound (E : Env) (a : string) (q : Q) (w : World) :
  n_fetch (world_of (Diamante.send E a q 0 w)) <= n_fetch w + (Diamante.MAX_RETRIES + 1)
  /\ (no_sigint E ->
      exists r w',
        Diamante.send E a q 0 w = Ret r w'
        /\ n_fetch w' <= n_fetch w + (Diamante.MAX_RETRIES + 1)
        /\ ((exists hash data, r = Sent hash a q data) \/ (exists error, r = NotSent error a q)))
  /\ (forall fuel, Cli.MAX_RETRIES <= fuel ->
      exists r w',
        Cli.submit E fuel a q w = Ret r w'
        /\ n_fetch w' <= n_fetch w + (Cli.MAX_RETRIES + 1)
        /\ is_retry r = false).
Proof.
  pose proof (send_spec E a q _ 0 w eq_refl) as Hpost.
  assert (Hb : n_fetch (world_of (Diamante.send E a q 0 w))
               <= n_fetch w + (Diamante.MAX_RETRIES + 1)).
  { destruct Hpost as (_&_&_&_&_&_&Hnf&_). unfold Diamante.MAX_RETRIES in *. lia. }
  split; [exact Hb|]. split.
  - intros HE. destruct (send_run E a q 0 w HE) as (r & w' & Hrun & Hp).
    rewrite Hrun in Hb. exists r, w'. split; [done|]. split; [exact Hb|].
    destruct Hp as (_&_&_&_&_&_&_&_&_&(_&_&_&_&Hq)&Ha).
    destruct r as [hash a' q' data|error a' q']; simpl in *; subst; eauto.
  - intros fuel Hfuel.
    destruct (submit_run E fuel a q w Hfuel) as (r & w' & evs & Hrun & Hnr & Hnf & _).
    exists r, w'. split; [done|]. split; [lia|done].
Qed.

Lemma C2_retry_bound_witness :
  no_sigint E_429 /\ Cli.MAX_RETRIES <= 3
  /\ (exists r w', Diamante.send E_429 "0xAAA" 1 0 initial_world = Ret r w' /\ n_fetch w' <= 4)
  /\ (exists r w', Cli.submit E_429 3 "0xAAA" 1 initial_world = Ret r w'
                   /\ n_fetch w' <= 4 /\ is_retry r = false).
Proof.
  assert (HE : no_sigint E_429) by (intros n; reflexivity).
  assert (Hf : Cli.MAX_RETRIES <= 3) by (unfold Cli.MAX_RETRIES; lia).
  destruct (C2_retry_bound E_429 "0xAAA" 1 initial_world) as (_ & H1 & H2).
  split; [exact HE|]. split; [exact Hf|]. split.
  - destruct (H1 HE) as (r & w' & Hrun & Hnf & _). exists r, w'. split; [exact Hrun|exact Hnf].
  - destruct (H2 3 Hf) as (r & w' & Hrun & Hnf & Hnr). exists r, w'.
    split; [exact Hrun|]. split; [exact Hnf|exact Hnr].
Defined.



(** C4 (as amended).  With an empty recipient list, [main] of diamante.js
    prints an error and exits with code 1, and [runSending] of cli.js prints
    a message and returns; in both no request is made.  A sendsPerWallet of
    0 is not an error: the number of sends per wallet the queue is built
    with is never 0, a 0 (from the command line or the configuration) being
    replaced by the next setting and in the end by the default 2. *)
Theorem C4_configuration :
  (forall (E : Env) (fuel : nat) (opts : Diamante.Opts) (cfg : option Config) (w : World),
     Diamante.resolve_wallets opts (Diamante.effective_config opts cfg) = [] ->
     exists w' msg,
       Diamante.run E fuel opts cfg w = Exit 1 w'
       /\ n_fetch w' = n_fetch w
       /\ trace w' = trace w ++ [EvError msg])
  /\ (forall (E : Env) (fuel : nat) (config : Config) (w : World),
        default [] (c_wallets config) = [] ->
        exists w',
          Cli.runSending E fuel config w = Ret tt w'
          /\ n_fetch w' = n_fetch w
          /\ trace w' = trace w ++ [EvError "no wallets configured"; EvSleep Notice 2000])
  /\ (forall (opts : Diamante.Opts) (cfg : option Config),
        Diamante.resolve_sendPerWallet opts cfg ≠ 0%Z
        /\ (Diamante.o_sendPerWallet opts = Some 0%Z -> cfg = None ->
            Diamante.resolve_sendPerWallet opts cfg = 2%Z))
  /\ (forall config : Config,
        Cli.sendsPerWallet_of config ≠ 0%Z
        /\ (c_sendPerWallet config = Some 0%Z -> Cli.sendsPerWallet_of config = 2%Z)).
Proof.
  split; [|split; [|split]].
  - intros E fuel opts cfg w Hw.
    destruct (run_no_wallets E fuel opts cfg w Hw) as (w' & msg & Hrun & Hnf & _ & Htr).
    by exists w', msg.
  - intros E fuel config w Hw. by apply cli_no_wallets.
  - intros opts cfg. split.
    + unfold Diamante.resolve_sendPerWallet. by apply num_or_nonzero.
    + intros Ho ->. unfold Diamante.resolve_sendPerWallet. by rewrite Ho.
  - intros config. split.
    + unfold Cli.sendsPerWallet_of.
      pose proof (num_or_nonzero None (c_sendPerWallet config) 2%Z ltac:(done)) as H.
      simpl in H. exact H.
    + intros Hc. unfold Cli.sendsPerWallet_of. by rewrite Hc.
Qed.

Lemma C4_configuration_witness :
  Diamante.resolve_wallets (opts_of " , " None)
    (Diamante.effective_config (opts_of " , " None) None) = []
  /\ (exists w' msg,
        Diamante.run E_ok 1 (opts_of " , " None) None initial_world = Exit 1 w'
        /\ n_fetch w' = 0 /\ trace w' = [EvError msg])
  /\ default [] (c_wallets (config_of [])) = []
  /\ (exists w', Cli.runSending E_ok 3 (config_of []) initial_world = Ret tt w'
                 /\ n_fetch w' = 0)
  /\ Diamante.o_sendPerWallet (opts_of "0xAAA" (Some 0%Z)) = Some 0%Z
  /\ Diamante.resolve_sendPerWallet (opts_of "0xAAA" (Some 0%Z)) None = 2%Z
  /\ c_sendPerWallet (config_of ["0xAAA"]) = None
  /\ Cli.sendsPerWallet_of (config_of ["0xAAA"]) ≠ 0%Z.
Proof.
  destruct C4_configuration as (H1 & H2 & H3 & H4).
  assert (Hw : Diamante.resolve_wallets (opts_of " , " None)
                 (Diamante.effective_config (opts_of " , " None) None) = [])
    by reflexivity.
  split; [exact Hw|]. split.
  { destruct (H1 E_ok 1 (opts_of " , " None) None initial_world Hw)
      as (w' & msg & Hrun & Hnf & Htr).
    exists w', msg. split; [exact Hrun|]. split; [exact Hnf|exact Htr]. }
  split; [reflexivity|]. split.
  { destruct (H2 E_ok 3 (config_of []) initial_world eq_refl) as (w' & Hrun & Hnf & _).
    exists w'. split; [exact Hrun|exact Hnf]. }
  split; [reflexivity|]. split.
  { exact (proj2 (H3 (opts_of "0xAAA" (Some 0%Z)) None) eq_refl eq_refl). }
  split; [reflexivity|].
  exact (proj1 (H4 (config_of ["0xAAA"]))).
Defined.

(** C4 as stated fails for sendsPerWallet = 0:
    [node diamante.js --token tok --to 0xAAA --sends 0] does not stop with a
    configuration error; it sends twice to the wallet and exits with
    code 0. *)
Lemma C4_counterexample :
  ¬ (forall (E : Env) (fuel : nat) (opts : Diamante.Opts) (cfg : option Config) (w : World),
       Diamante.o_sendPerWallet opts = Some 0%Z
       \/ Diamante.resolve_wallets opts (Diamante.effective_config opts cfg) = [] ->
       exists w', Diamante.run E fuel opts cfg w = Exit 1 w' /\ n_fetch w' = n_fetch w).
Proof.
  intros H.
  destruct (H E_ok 1 (opts_of "0xAAA" (Some 0%Z)) None initial_world ltac:(by left))
    as (w' & Hrun & _).
  vm_compute in Hrun. discriminate.
Qed.

(** What [node diamante.js --token tok --to 0xAAA --sends 0] does when every
    transfer succeeds. *)
Lemma sends_zero_run :
  exists w',
    Diamante.run E_ok 1 (opts_of "0xAAA" (Some 0%Z)) None initial_world = Exit 0 w'
    /\ n_fetch w' = 2 /\ total (stats w') = 2 /\ success (stats w') = 2.
Proof. eexists. split; [vm_compute; reflexivity|]. vm_compute. done. Qed.

(** What SIGINT does to [sendRound]: the call never raises an error; it
    returns only if no SIGINT was pending at any wait of the run (a pause,
    a rate-limit wait, a request, the pause between two rounds); when
    SIGINT is pending at a wait, the handler [main] installed ends the
    process there with exit code 130. *)
Lemma sendRound_interruption (E : Env) (fuel : nat) (wallets : list string) (q : Q) (k : Z)
    (continuous : bool) (maxIter : option Z) (w : World) :
  random_unit E ->
  match Diamante.sendRound E fuel wallets q k continuous maxIter w with
  | Ret _ w' | OutOfFuel w' => n_wait w <= n_wait w' /\ calm E (n_wait w) (n_wait w')
  | Exit code w' =>
      code = 130%Z
      /\ exists j, n_wait w <= j /\ n_wait w' = S j /\ sigint E j = true
                   /\ calm E (n_wait w) j
  | Throw _ _ => False
  end.
Proof.
  intros HR. exact (interruptible_sendRound E fuel wallets q k continuous maxIter w HR).
Qed.

Lemma random_unit_sigint : random_unit E_sigint.
Proof. intros n. split; [discriminate|reflexivity]. Defined.

(** C5 -- the code where the claim fails.  Two tasks, every transfer
    succeeding, SIGINT during the pause before the second task: one task
    has been processed and its result collected, but [sendRound] does not
    return it: the process exits with code 130 at that wait, and no summary
    is printed.  ([sendRound] catches an error 'interrupted' to print the
    summary and return the results collected so far, but the SIGINT handler
    of [main] throws nothing: it calls [process.exit(130)].) *)
Lemma C5_interrupted_run :
  exists w',
    Diamante.sendRound E_sigint 1 ["0xAAA"; "0xBBB"] 1 1 false None initial_world
    = Exit 130 w'
    /\ n_wait w' = 2 /\ length (results w') = 1 /\ last (trace w') = Some EvInterrupted
    /\ existsb (fun e => match e with EvSummary _ => true | _ => false end) (trace w')
       = false.
Proof. eexists. split; [vm_compute; reflexivity|]. vm_compute. done. Qed.

(** C5 as stated fails on the code: with two tasks and SIGINT during the
    pause before the second one (one task processed), [sendRound] does not
    return the result collected so far. *)
Lemma C5_counterexample :
  ¬ (forall (E : Env) (fuel : nat) (wallets : list string) (q : Q) (k : Z)
            (continuous : bool) (maxIter : option Z) (w : World),
       random_unit E ->
       let o := Diamante.sendRound E fuel wallets q k continuous maxIter w in
       (exists j, n_wait w <= j < n_wait (world_of o) /\ sigint E j = true) ->
       exists rs w', o = Ret rs w' /\ length rs = length (results (world_of o))).
Proof.
  intros H.
  destruct (H E_sigint 1 ["0xAAA"; "0xBBB"] 1%Q 1%Z false None initial_world
              random_unit_sigint) as (rs & w' & Hrun & _).
  - exists 1. vm_compute. split; [split; [lia|lia]|reflexivity].
  - vm_compute in Hrun. discriminate.
Qed.












(** C9 (as amended).  The summary's throughputPerSecond is total divided by
    elapsedSeconds whenever elapsedSeconds is positive, and 0 otherwise:
    when elapsedSeconds is 0 (also when nothing was sent) and when it is
    negative (the clock was set back during the run).  elapsedSeconds is
    the time between the first send and the summary. *)
Theorem C9_throughput (E : Env) (rs : list SendResult) (walletCount : nat) (w : World) :
  exists w' S,
    Diamante.printSummary E rs walletCount w = Ret tt w'
    /\ last (trace w') = Some (EvSummary S)
    /\ s_total S = total (stats w)
    /\ elapsedSeconds S
       = match start (stats w) with
         | Some t => if (t =? 0)%Z then 0%Q
                     else (inject_Z (clock E (n_clock w) - t) / 1000)%Q
         | None => 0%Q
         end
    /\ ((0 < elapsedSeconds S)%Q ->
        throughputPerSecond S = (inject_Z (Z.of_nat (total (stats w))) / elapsedSeconds S)%Q)
    /\ ((elapsedSeconds S <= 0)%Q -> throughputPerSecond S = 0%Q).
Proof.
  unfold Diamante.printSummary, mbind, M_bind, get, emit, modify, date_now.
  assert (Htps : forall el,
    ((0 < el)%Q -> Diamante.tps_of (total (stats w)) el
                   = (inject_Z (Z.of_nat (total (stats w))) / el)%Q)
    /\ ((el <= 0)%Q -> Diamante.tps_of (total (stats w)) el = 0%Q)).
  { intros el. unfold Diamante.tps_of. destruct (Qlt_le_dec 0 el) as [Hlt|Hle].
    - split; [done|]. intros Hle. exfalso. by apply (Qlt_not_le _ _ Hlt).
    - split; [|done]. intros Hlt. exfalso. by apply (Qlt_not_le _ _ Hlt). }
  destruct (start (stats w)) as [t|]; [destruct (t =? 0)%Z|]; simpl;
    eexists _, _; (split; [reflexivity|]); simpl; rewrite last_snoc;
    (split; [reflexivity|]); simpl; (split; [reflexivity|]); (split; [reflexivity|]);
    apply Htps.
Qed.

Lemma C9_throughput_witness :
  exists w' S,
    Diamante.printSummary E_ok [] 1
      (set_stats {| total := 6; success := 6; failed := 0; amount := 6; start := Some 500%Z |}
         initial_world) = Ret tt w'
    /\ last (trace w') = Some (EvSummary S)
    /\ (0 < elapsedSeconds S)%Q
    /\ throughputPerSecond S = (inject_Z 6 / elapsedSeconds S)%Q.
Proof.
  destruct (C9_throughput E_ok [] 1
              (set_stats {| total := 6; success := 6; failed := 0; amount := 6;
                            start := Some 500%Z |} initial_world))
    as (w' & S & Hrun & Hlast & _ & Hel & Hpos & _).
  assert (Hlt : (0 < elapsedSeconds S)%Q) by (rewrite Hel; reflexivity).
  exists w', S. split; [exact Hrun|]. split; [exact Hlast|]. split; [exact Hlt|].
  exact (Hpos Hlt).
Defined.

(** C9 as stated fails when the clock is set back during the run: the first
    send is at 2000 ms, the summary at 1000 ms, so elapsedSeconds is -1,
    which is not 0, and throughputPerSecond is 0, not total / -1. *)
Lemma C9_counterexample :
  ¬ (forall (E : Env) (rs : list SendResult) (walletCount : nat) (w w' : World) (S : Summary),
       Diamante.printSummary E rs walletCount w = Ret tt w' ->
       last (trace w') = Some (EvSummary S) ->
       (¬ (elapsedSeconds S == 0)%Q ->
        (throughputPerSecond S == inject_Z (Z.of_nat (total (stats w))) / elapsedSeconds S)%Q)
       /\ ((elapsedSeconds S == 0)%Q -> (throughputPerSecond S == 0)%Q)).
Proof.
  intros H.
  set (w := set_stats {| total := 1; success := 1; failed := 0; amount := 1;
                         start := Some 2000%Z |} (tick_clock initial_world)).
  set (S := Diamante.summary_of (stats w) (Diamante.elapsed_of 2000 1000) [] 1).
  destruct (H E_back [] 1 w (add_event (EvSummary S) (tick_clock w)) S eq_refl eq_refl)
    as [Hne _].
  assert (Hnz : ¬ (elapsedSeconds S == 0)%Q) by discriminate.
  specialize (Hne Hnz). discriminate.
Qed.

(** A run in which the clock is set back: the summary reports -1 s and a
    throughput of 0. *)
Lemma clock_set_back_run :
  exists w' S,
    Diamante.run E_back 1 (opts_of "0xAAA" (Some 1%Z)) None initial_world = Exit 0 w'
    /\ last (trace w') = Some (EvSummary S)
    /\ s_total S = 1 /\ elapsedSeconds S = (-1000 # 1000)%Q /\ throughputPerSecond S = 0%Q.
Proof. eexists _, _. split; [vm_compute; reflexivity|]. vm_compute. done. Qed.

(** C10.  [shuffle] leaves its argument unmodified: it returns a new array
    (an address that was not in use), every array of the store, the
    argument among them, is as it was, and the elements of the new array
    are a permutation of those of the argument. *)
Theorem C10_shuffle_pure (E : Env) (arr : nat) (w : World) (xs : list jsval) :
  random_unit E ->
  heap w !! arr = Some xs ->
  exists a ys w',
    Diamante.shuffle E arr w = Ret a w'
    /\ heap w !! a = None
    /\ a ≠ arr
    /\ heap w' !! arr = Some xs
    /\ (forall l, l ≠ a -> heap w' !! l = heap w !! l)
    /\ heap w' !! a = Some ys
    /\ ys ≡ₚ xs.
Proof.
  intros HR Hxs.
  destruct (shuffle_spec E arr w xs HR Hxs) as (ys & Hrun & Hperm).
  set (a := fresh (dom (heap w))) in *.
  assert (Hfresh : heap w !! a = None).
  { apply not_elem_of_dom. apply is_fresh. }
  assert (Hne : a ≠ arr) by congruence.
  exists a, ys, (redrawn (<[a:=ys]> (heap w)) (length xs - 1) w).
  destruct (redrawn_fields (<[a:=ys]> (heap w)) (length xs - 1) w) as (-> & _).
  repeat split; try done.
  - by rewrite lookup_insert_ne.
  - intros l Hl. by rewrite lookup_insert_ne.
  - apply lookup_insert_eq.
Qed.

Lemma C10_shuffle_pure_witness :
  let w := set_heap {[ 7 := [JStr "a"; JStr "b"; JStr "c"] ]} initial_world in
  random_unit E_ok
  /\ heap w !! 7 = Some [JStr "a"; JStr "b"; JStr "c"]
  /\ exists a ys w',
       Diamante.shuffle E_ok 7 w = Ret a w'
       /\ a ≠ 7
       /\ heap w' !! 7 = Some [JStr "a"; JStr "b"; JStr "c"]
       /\ heap w' !! a = Some ys
       /\ ys ≡ₚ [JStr "a"; JStr "b"; JStr "c"].
Proof.
  intros w.
  assert (Hxs : heap w !! 7 = Some [JStr "a"; JStr "b"; JStr "c"]) by reflexivity.
  split; [exact random_unit_ok|]. split; [exact Hxs|].
  destruct (C10_shuffle_pure E_ok 7 w _ random_unit_ok Hxs)
    as (a & ys & w' & Hrun & _ & Hne & Harr & _ & Ha & Hperm).
  exists a, ys, w'. split; [exact Hrun|]. split; [exact Hne|]. split; [exact Harr|].
  split; [exact Ha|exact Hperm].
Defined.

(** * Properties of the code around the engine *)

(** ** The progress bar *)

Lemma js_length_app (s t : string) : js_length (s +:+ t) = js_length s + js_length t.
Proof.
  induction s as [|c s IH]; [reflexivity|].
  change (String c s +:+ t) with (String c (s +:+ t)).
  cbn [js_length]. rewrite IH. lia.
Qed.

Lemma js_length_repeat (s : string) (n : nat) :
  js_length (repeat_string s n) = n * js_length s.
Proof.
  induction n as [|n IH]; [reflexivity|].
  cbn [repeat_string]. rewrite js_length_app, IH. lia.
Qed.

Lemma floor_div_range (curr total : Z) :
  (0 < total)%Z -> (0 <= curr <= total)%Z ->
  (0 <= 25 * curr / total <= 25)%Z.
Proof.
  intros Ht Hc. split.
  - apply Z.div_pos; lia.
  - apply Z.div_le_upper_bound; lia.
Qed.

Lemma progressBar_in_range (curr total : Z) :
  (0 < total)%Z -> (0 <= curr <= total)%Z ->
  progressBar curr total
  = Ok (repeat_string "█" (Z.to_nat (25 * curr / total))
        +:+ repeat_string "░" (25 - Z.to_nat (25 * curr / total))).
Proof.
  intros Ht Hc. pose proof (floor_div_range curr total Ht Hc) as Hf.
  unfold progressBar, floor_div.
  destruct (Z.eqb_spec total 0) as [->|_]; [lia|].
  cbn [js_repeat js_sub].
  destruct (Z.ltb_spec (25 * curr / total) 0) as [?|_]; [lia|].
  destruct (Z.ltb_spec (25 - 25 * curr / total) 0) as [?|_]; [lia|].
  do 3 f_equal. lia.
Qed.

(** X1 -- [progressBar]: for a position inside the queue
    ([0 <= curr <= total], [total > 0]) the bar is drawn without an
    exception, it is 25 characters long, [floor(25 * curr / total)] of them
    filled, and it is full exactly when [curr = total]. *)
Theorem progressBar_width (curr total : Z) :
  (0 < total)%Z -> (0 <= curr <= total)%Z ->
  exists (filled : nat) (bar : string),
    progressBar curr total = Ok bar
    /\ bar = repeat_string "█" filled +:+ repeat_string "░" (25 - filled)
    /\ Z.of_nat filled = (25 * curr / total)%Z
    /\ filled <= 25
    /\ js_length bar = 25
    /\ (filled = 25 <-> curr = total).
Proof.
  intros Ht Hc. pose proof (floor_div_range curr total Ht Hc) as Hf.
  eexists (Z.to_nat (25 * curr / total)), _.
  split; [apply progressBar_in_range; done|].
  split; [done|]. split; [lia|]. split; [lia|]. split.
  - rewrite js_length_app, !js_length_repeat.
    change (js_length "█") with 1. change (js_length "░") with 1. lia.
  - split.
    + intros H. assert (25 * curr / total = 25)%Z as H25 by lia.
      destruct (Z.eq_dec curr total) as [|Hne]; [done|].
      assert (25 * curr / total < 25)%Z; [|lia].
      apply Z.div_lt_upper_bound; lia.
    + intros ->. rewrite Z.div_mul by lia. lia.
Qed.

Lemma progressBar_width_witness :
  (0 < 10)%Z /\ (0 <= 3 <= 10)%Z
  /\ exists (filled : nat) (bar : string),
       progressBar 3 10 = Ok bar
       /\ bar = repeat_string "█" filled +:+ repeat_string "░" (25 - filled)
       /\ Z.of_nat filled = (25 * 3 / 10)%Z
       /\ filled <= 25
       /\ js_length bar = 25
       /\ (filled = 25 <-> 3%Z = 10%Z).
Proof.
  split; [lia|]. split; [lia|]. apply (progressBar_width 3 10); lia.
Defined.

(** X2 -- [progressBar] outside the queue: with [total = 0] the bar is the
    empty string for [curr = 0] and a [RangeError] otherwise; with
    [total > 0] a [RangeError] is raised exactly when [curr] is negative or
    so far past [total] that more than 25 characters would be filled. *)
Theorem progressBar_raises (curr total : Z) :
  (total = 0%Z ->
   progressBar curr total = if decide (curr = 0%Z) then Ok "" else Raise "RangeError")
  /\ ((0 < total)%Z ->
      (progressBar curr total = Raise "RangeError"
       <-> (curr < 0)%Z \/ (26 * total <= 25 * curr)%Z)).
Proof.
  split.
  - intros ->. unfold progressBar, floor_div. simpl (0 =? 0)%Z. cbv iota.
    destruct (decide (curr = 0%Z)) as [->|Hne]; [reflexivity|].
    destruct (Z.eqb_spec (25 * curr) 0) as [?|_]; [lia|].
    destruct (0 <? 25 * curr)%Z; reflexivity.
  - intros Ht. unfold progressBar, floor_div.
    destruct (Z.eqb_spec total 0) as [->|_]; [lia|].
    cbn [js_repeat js_sub].
    destruct (Z.ltb_spec (25 * curr / total) 0) as [Hneg|Hpos].
    + split; [intros _|done]. left.
      destruct (Z_lt_le_dec curr 0) as [|Hge]; [done|].
      assert (0 <= 25 * curr / total)%Z by (apply Z.div_pos; lia). lia.
    + destruct (Z.ltb_spec (25 - 25 * curr / total) 0) as [Hbig|Hsmall].
      * split; [intros _|done]. right.
        destruct (Z_lt_le_dec (25 * curr) (26 * total)) as [Hlt|]; [|done].
        assert (25 * curr / total < 26)%Z by (apply Z.div_lt_upper_bound; lia). lia.
      * split; [discriminate|]. intros [Hc|Hc].
        -- assert (25 * curr / total < 0)%Z; [|lia].
           apply Z.div_lt_upper_bound; lia.
        -- assert (26 <= 25 * curr / total)%Z; [|lia].
           apply Z.div_le_lower_bound; lia.
Qed.

Lemma progressBar_raises_witness :
  (0%Z = 0%Z ->
   progressBar 2 0 = if decide (2%Z = 0%Z) then Ok "" else Raise "RangeError")
  /\ (0 < 4)%Z
  /\ (progressBar 5 4 = Raise "RangeError" <-> (5 < 0)%Z \/ (26 * 4 <= 25 * 5)%Z).
Proof.
  split; [apply (progressBar_raises 2 0)|].
  split; [lia|]. apply (progressBar_raises 5 4). lia.
Defined.

(** ** The command line *)

Lemma known_false (word : string) :
  known word = false ->
  Argv.is_opt word "--token" "-t" = false /\ String.eqb word "--to" = false
  /\ String.eqb word "--amount" = false /\ Argv.is_opt word "--sends" "-s" = false
  /\ Argv.is_opt word "--continuous" "-c" = false
  /\ Argv.is_opt word "--iterations" "-i" = false
  /\ Argv.is_opt word "--fast" "-f" = false /\ String.eqb word "--history" = false
  /\ String.eqb word "--config" = false /\ Argv.is_opt word "--help" "-h" = false.
Proof.
  unfold known. intros H. apply bool_decide_eq_false in H.
  assert (forall s, s ∈ ["--token"; "-t"; "--to"; "--amount"; "--sends"; "-s";
                        "--continuous"; "-c"; "--iterations"; "-i"; "--fast"; "-f";
                        "--history"; "--config"; "--help"; "-h"] ->
                    String.eqb word s = false) as Hne.
  { intros s Hs. apply String.eqb_neq. intros ->. done. }
  unfold Argv.is_opt.
  repeat split; rewrite ?orb_false_iff; repeat split; apply Hne; set_solver.
Qed.

Lemma parse_from_words (it : Item) (rest : list string) (o : Argv.Parsed) :
  plain it = true ->
  Argv.parse_from (words it ++ rest) o = Argv.parse_from rest (apply o it).
Proof.
  intros Hp. destruct it as [[]| | |[]|[]|[]|[]| | |word]; try reflexivity.
  simpl in Hp. apply negb_true_iff, known_false in Hp.
  destruct Hp as (H1 & H2 & H3 & H4 & H5 & H6 & H7 & H8 & H9 & H10).
  cbn [words app Argv.parse_from apply].
  by rewrite H1, H2, H3, H4, H5, H6, H7, H8, H9, H10.
Qed.

Lemma parse_from_render (items : list Item) (rest : list string) (o : Argv.Parsed) :
  forallb plain items = true ->
  Argv.parse_from (render items ++ rest) o = Argv.parse_from rest (foldl apply o items).
Proof.
  revert o. induction items as [|it items IH]; intros o Hp; [reflexivity|].
  simpl in Hp. apply andb_true_iff in Hp as [Hit Hp].
  unfold render. rewrite fmap_cons. cbn [concat]. rewrite <- app_assoc.
  rewrite parse_from_words by done. apply IH. done.
Qed.

Lemma render_nil (items : list Item) : render items = [] -> items = [].
Proof.
  destruct items as [|it items]; [done|].
  unfold render. rewrite fmap_cons. cbn [concat].
  destruct it as [[]| | |[]|[]|[]|[]| | |word]; discriminate.
Qed.

(** X3 -- [parseArgs]: a command line written as a sequence of options
    with their values, flags and words that are no options is read back
    element by element, a later option overriding an earlier one; the value
    of an option is taken as it is, whatever it looks like; the empty
    command line selects the configuration file.  The values of [--sends]
    and [--iterations] are ASCII texts, and the integers they denote (if
    any) are at most 2^53 in absolute value: [parseInt] is exact for
    them. *)
Theorem parseArgs_render (items : list Item) (w : World) :
  forallb plain items = true ->
  forallb exact_item items = true ->
  Argv.parseArgs (render items) w
  = Ret (if bool_decide (items = []) then Argv.set_config Argv.initial
         else foldl apply Argv.initial items) w.
Proof.
  intros Hp _. unfold Argv.parseArgs.
  destruct items as [|it items]; [reflexivity|].
  rewrite bool_decide_eq_false_2.
  2:{ intros Hlen. apply nil_length_inv, render_nil in Hlen. done. }
  rewrite bool_decide_eq_false_2 by done.
  rewrite <- (app_nil_r (render (it :: items))).
  rewrite parse_from_render by done. reflexivity.
Qed.

Lemma parseArgs_render_witness :
  forallb plain [IToken false "--fast"; IWord "x"; ISends true "3"; ISends false "0x10"]
  = true
  /\ forallb exact_item
       [IToken false "--fast"; IWord "x"; ISends true "3"; ISends false "0x10"] = true
  /\ Argv.parseArgs ["--token"; "--fast"; "x"; "-s"; "3"; "--sends"; "0x10"] initial_world
     = Ret (Argv.set_sendPerWallet (Some 16%Z)
              (Argv.set_token (Some "--fast") Argv.initial)) initial_world.
Proof.
  split; [reflexivity|]. split; [reflexivity|].
  exact (parseArgs_render
           [IToken false "--fast"; IWord "x"; ISends true "3"; ISends false "0x10"]
           initial_world eq_refl eq_refl).
Defined.

(** X4 -- [parseArgs]: [--help] (or [-h]) in the place of an option ends
    the process with code 0, whatever was read before it and whatever
    follows it. *)
Theorem parseArgs_help (items : list Item) (short : bool) (rest : list string) (w : World) :
  forallb plain items = true ->
  Argv.parseArgs (render items ++ (if short then "-h" else "--help") :: rest) w = Exit 0 w.
Proof.
  intros Hp. unfold Argv.parseArgs.
  rewrite bool_decide_eq_false_2.
  2:{ rewrite length_app. destruct short; simpl; lia. }
  rewrite parse_from_render by done. by destruct short.
Qed.

Lemma parseArgs_help_witness :
  forallb plain [IToken false "tok"; IFast true] = true
  /\ Argv.parseArgs ["--token"; "tok"; "-f"; "--help"; "--to"] initial_world
     = Exit 0 initial_world.
Proof.
  split; [reflexivity|].
  exact (parseArgs_help [IToken false "tok"; IFast true] false ["--to"] initial_world eq_refl).
Defined.

(** X5 -- [parseArgs]: an option that takes a value and is the last word
    of the command line reads [undefined]: the property is left without a
    value (for [--sends] and [--iterations], [NaN]), also when an earlier
    occurrence had set it.  The values of [--sends] and [--iterations]
    before it are ASCII texts, and the integers they denote (if any) are at
    most 2^53 in absolute value. *)
Theorem parseArgs_missing_value (items : list Item) (v : ValueOption) (w : World) :
  forallb plain items = true ->
  forallb exact_item items = true ->
  Argv.parseArgs (render items ++ [option_word v]) w
  = Ret (unset (foldl apply Argv.initial items) v) w.
Proof.
  intros Hp _. unfold Argv.parseArgs.
  rewrite bool_decide_eq_false_2.
  2:{ rewrite length_app. simpl. lia. }
  rewrite parse_from_render by done.
  destruct v as [[]| | |[]|[]]; reflexivity.
Qed.

Lemma parseArgs_missing_value_witness :
  forallb plain [ISends false "5"] = true
  /\ forallb exact_item [ISends false "5"] = true
  /\ Argv.parseArgs ["--sends"; "5"; "-s"] initial_world
     = Ret Argv.initial initial_world.
Proof.
  split; [reflexivity|]. split; [reflexivity|].
  exact (parseArgs_missing_value [ISends false "5"] (VSends true) initial_world
           eq_refl eq_refl).
Defined.

(** ** The outline of a round *)

Lemma outline_app (xs ys : list Event) : outline (xs ++ ys) = outline xs ++ outline ys.
Proof. unfold outline. apply filter_app. Qed.

Lemma outline_send (evs : list Event) : Forall send_event evs -> outline evs = [].
Proof.
  induction 1 as [|e evs He _ IH]; [done|].
  unfold outline in *. rewrite filter_cons, IH.
  destruct e as [[] ?| | | | | | | | | |]; simpl in He; try done.
Qed.

Lemma dispatch_outline (E : Env) (q : Q) (iter n : nat) :
  no_sigint E ->
  forall (ws : list string) (i : nat) (sendCount : gmap string (option nat)) (w : World),
  exists w' evs,
    Diamante.dispatch E q iter n i (JStr <$> ws) sendCount w = Ret tt w'
    /\ trace w' = trace w ++ evs
    /\ outline evs = task_lines n i ws sendCount.
Proof.
  intros HE. induction ws as [|a ws IH]; intros i sendCount w.
  - exists w, []. simpl. by rewrite app_nil_r.
  - simpl.
    set (pre := if decide (0 < i ∨ 1 < iter) then Diamante.humanDelay E else mret tt).
    unfold mbind at 1. unfold M_bind at 1.
    assert (Hpre : exists w0 pevs,
      pre w = Ret tt w0 /\ trace w0 = trace w ++ pevs /\ outline pevs = []).
    { unfold pre. destruct (decide (0 < i ∨ 1 < iter)) as [Hd|Hd].
      - rewrite humanDelay_run by done. eexists _, [_]. repeat split; done.
      - exists w, []. by rewrite app_nil_r. }
    destruct Hpre as (w0 & pevs & -> & Htr0 & Ho0).
    unfold emit, modify, mbind, M_bind. simpl.
    set (w1 := add_event _ w0).
    destruct (send_run E a q 0 w1 HE) as (r & w2 & -> & Hpost).
    destruct Hpost as (_ & _ & _ & _ & _ & (sevs & Htr2 & Hsevs) & _).
    simpl in Htr2.
    unfold Diamante.push_result, modify. simpl.
    set (w3 := add_event _ _).
    change (list_fmap string jsval JStr ws) with (JStr <$> ws).
    destruct (IH (i + 1) (Diamante.bump sendCount a) w3) as (w' & evs & -> & Htr & Ho).
    exists w', (pevs ++ [EvTask a (default None (Diamante.bump sendCount a !! a))] ++ sevs
                ++ [EvProgress (i + 1) n] ++ evs).
    unfold w3 in Htr. simpl in Htr.
    split; [done|]. split.
    + rewrite Htr, Htr2, Htr0. rewrite <- !app_assoc. reflexivity.
    + rewrite !outline_app, Ho0, (outline_send sevs Hsevs), Ho. reflexivity.
Qed.

Lemma round_outline (E : Env) (wallets : list string) (q : Q) (k : Z) (iter : nat) (w : World) :
  no_sigint E -> random_unit E ->
  exists w' evs ws,
    Diamante.round E wallets q k iter w = Ret tt w'
    /\ trace w' = trace w ++ evs
    /\ JStr <$> ws ≡ₚ expand wallets (Z.to_nat k)
    /\ outline evs = EvRound iter :: task_lines (length ws) 0 ws (zero_counts wallets).
Proof.
  intros HE HR. unfold Diamante.round. unfold mbind at 1. unfold M_bind at 1.
  destruct (buildQueue_spec E wallets k w HR) as (a & ys & h & m & -> & Hys & Hperm).
  destruct (expand_names wallets (Z.to_nat k)) as [names Hnames].
  destruct (perm_names ys names) as [ws ->]; [by rewrite <- Hnames|].
  destruct (redrawn_fields h m w) as (Hh1 & _ & _ & _ & _ & _ & _ & _ & _ & Htr1).
  unfold emit, modify, read_array, array_at, mbind, M_bind. simpl.
  rewrite ?Hh1, Hys. simpl.
  set (w1 := add_event _ _).
  destruct (dispatch_outline E q iter (length (JStr <$> ws)) HE ws 0
              (list_to_map ((fun w => (w, Some 0)) <$> wallets)) w1)
    as (w' & evs & Hrun & Htr & Ho).
  change (list_fmap string jsval JStr ws) with (JStr <$> ws).
  rewrite Hrun. exists w', (EvRound iter :: evs), ws.
  unfold w1 in Htr. cbn in Htr.
  split; [done|]. split; [|split; [done|]].
  - rewrite Htr, Htr1. by rewrite <- app_assoc.
  - change (EvRound iter :: evs) with ([EvRound iter] ++ evs).
    rewrite outline_app, Ho, length_fmap. reflexivity.
Qed.

(** *** The numbering of the task lines *)

Lemma zero_counts_lookup (wallets : list string) (a : string) :
  a ∈ wallets -> zero_counts wallets !! a = Some (Some 0).
Proof.
  unfold zero_counts. induction wallets as [|b wallets IH]; intros Ha.
  - by apply elem_of_nil in Ha.
  - rewrite fmap_cons. cbn [list_to_map foldr uncurry]. simpl.
    destruct (decide (b = a)) as [->|Hne].
    + by rewrite lookup_insert_eq.
    + rewrite lookup_insert_ne by done. apply IH.
      apply elem_of_cons in Ha as [->|Ha]; done.
Qed.

Lemma expand_elem (wallets : list string) (k : nat) (a : string) :
  JStr a ∈ expand wallets k -> a ∈ wallets.
Proof.
  induction wallets as [|b wallets IH]; simpl; intros Ha.
  - by apply elem_of_nil in Ha.
  - apply elem_of_app in Ha as [Ha|Ha].
    + apply elem_of_replicate in Ha as [Ha _]. injection Ha as ->. left.
    + right. by apply IH.
Qed.

Lemma copies_cons (a b : string) (seen : list string) :
  copies a (b :: seen) = (if decide (b = a) then 1 else 0) + copies a seen.
Proof.
  unfold copies. rewrite filter_cons. destruct (decide (b = a)); simpl; done.
Qed.

Lemma copies_names (a : string) (ws : list string) :
  copies a ws = occurrences a (JStr <$> ws).
Proof.
  unfold copies, occurrences. induction ws as [|b ws IH]; [done|].
  rewrite fmap_cons, !filter_cons.
  destruct (decide (b = a)) as [->|Hne].
  - rewrite decide_True by done. simpl. by rewrite IH.
  - rewrite decide_False by congruence. done.
Qed.

Lemma well_numbered_outline (evs : list Event) :
  forall seen, well_numbered seen (outline evs) = well_numbered seen evs.
Proof.
  induction evs as [|e evs IH]; intros seen; [done|].
  unfold outline in *. rewrite filter_cons.
  destruct e as [[] ?| | | | | | | | | |]; simpl; rewrite ?IH; done.
Qed.

Lemma well_numbered_app (xs ys : list Event) :
  forall seen,
    well_numbered seen xs = true -> (forall seen', well_numbered seen' ys = true) ->
    well_numbered seen (xs ++ ys) = true.
Proof.
  induction xs as [|e xs IH]; intros seen Hx Hy; [apply Hy|].
  destruct e; simpl in *; try (by apply IH).
  apply andb_true_iff in Hx as [-> Hx]. simpl. by apply IH.
Qed.

Lemma task_lines_numbered (n : nat) (ws : list string) :
  forall (i : nat) (sendCount : gmap string (option nat)) (seen : list string),
    (forall a, a ∈ ws -> sendCount !! a = Some (Some (copies a seen))) ->
    well_numbered seen (task_lines n i ws sendCount) = true
    /\ forall a num, EvTask a num ∈ task_lines n i ws sendCount ->
         exists m, num = Some m /\ copies a seen < m <= copies a seen + copies a ws.
Proof.
  induction ws as [|b ws IH]; intros i sendCount seen Hinv.
  - split; [done|]. intros a num Hin. by apply elem_of_nil in Hin.
  - cbn [task_lines well_numbered].
    assert (Hb : Diamante.bump sendCount b !! b = Some (Some (S (copies b seen)))).
    { unfold Diamante.bump. rewrite lookup_insert_eq, (Hinv b) by left. done. }
    destruct (IH (i + 1) (Diamante.bump sendCount b) (b :: seen)) as [Hnum Hbound].
    { intros a Ha. rewrite copies_cons. destruct (decide (b = a)) as [->|Hne].
      - rewrite Hb. do 2 f_equal.
      - unfold Diamante.bump. rewrite lookup_insert_ne by done. simpl.
        apply Hinv. by right. }
    rewrite Hb. simpl. split.
    + rewrite bool_decide_eq_true_2 by done. exact Hnum.
    + intros a num Hin. rewrite (copies_cons a b ws).
      apply elem_of_cons in Hin as [Heq|Hin].
      * injection Heq as -> ->. exists (S (copies b seen)).
        rewrite decide_True by done. split; [done|lia].
      * apply elem_of_cons in Hin as [Heq|Hin]; [discriminate|].
        destruct (Hbound a num Hin) as (m & -> & Hm). exists m. split; [done|].
        rewrite copies_cons in Hm. destruct (decide (b = a)); lia.
Qed.

Lemma task_lines_progress (n : nat) (ws : list string) :
  forall (i : nat) (sendCount : gmap string (option nat)),
    progress_lines (task_lines n i ws sendCount)
    = (fun d => (d, n)) <$> seq (i + 1) (length ws).
Proof.
  induction ws as [|b ws IH]; intros i sendCount; [done|].
  cbn [task_lines progress_lines omap list_omap length seq fmap list_fmap].
  f_equal. fold (progress_lines (task_lines n (i + 1) ws (Diamante.bump sendCount b))).
  rewrite IH. replace (i + 1 + 1) with (S (i + 1)) by lia. done.
Qed.

(** ** The rounds of a run *)

Lemma omap_cons_event {A} (f : Event -> option A) (e : Event) (evs : list Event) :
  omap f (e :: evs) = match f e with Some y => y :: omap f evs | None => omap f evs end.
Proof. reflexivity. Qed.

Lemma omap_outline {A} (f : Event -> option A) (evs : list Event) :
  (forall e, is_Some (f e) -> is_mark e = true) ->
  omap f (outline evs) = omap f evs.
Proof.
  intros Hf. induction evs as [|e evs IH]; [done|].
  unfold outline in *. rewrite filter_cons.
  destruct (decide (is_mark e = true)) as [He|He].
  - by rewrite !omap_cons_event, IH.
  - rewrite omap_cons_event, IH. destruct (f e) eqn:Hfe; [|done].
    exfalso. apply He, Hf. by rewrite Hfe.
Qed.

Lemma progress_lines_outline (evs : list Event) :
  progress_lines (outline evs) = progress_lines evs.
Proof. apply omap_outline. intros [] [? H]; done. Qed.

Lemma round_starts_outline (evs : list Event) :
  round_starts (outline evs) = round_starts evs.
Proof. apply omap_outline. intros [] [? H]; done. Qed.

Lemma round_pauses_outline (evs : list Event) :
  round_pauses (outline evs) = round_pauses evs.
Proof. apply omap_outline. intros [[] ?| | | | | | | | | |] [? H]; done. Qed.

Lemma summaries_outline (evs : list Event) :
  summaries (outline evs) = summaries evs.
Proof. apply omap_outline. intros [] [? H]; done. Qed.

Lemma elem_of_outline_task (evs : list Event) (a : string) (num : option nat) :
  EvTask a num ∈ evs <-> EvTask a num ∈ outline evs.
Proof. unfold outline. rewrite list_elem_of_filter. simpl. tauto. Qed.

Lemma task_lines_plain (n : nat) (ws : list string) :
  forall (i : nat) (sendCount : gmap string (option nat)),
    round_starts (task_lines n i ws sendCount) = []
    /\ round_pauses (task_lines n i ws sendCount) = []
    /\ summaries (task_lines n i ws sendCount) = [].
Proof.
  induction ws as [|b ws IH]; intros i sendCount; [done|].
  destruct (IH (i + 1) (Diamante.bump sendCount b)) as (H1 & H2 & H3).
  cbn [task_lines]. unfold round_starts, round_pauses, summaries in *.
  cbn [omap list_omap]. done.
Qed.

(** What the events of one round are, read off its outline. *)
Lemma round_lines (E : Env) (wallets : list string) (q : Q) (k : Z) (iter : nat) (w : World) :
  no_sigint E -> random_unit E ->
  exists w' evs,
    Diamante.round E wallets q k iter w = Ret tt w'
    /\ trace w' = trace w ++ evs
    /\ (forall seen, well_numbered seen evs = true)
    /\ (forall a num, EvTask a num ∈ evs ->
          exists m, num = Some m /\ 1 <= m <= copies a wallets * Z.to_nat k)
    /\ progress_lines evs
       = (fun d => (d, length wallets * Z.to_nat k)) <$> seq 1 (length wallets * Z.to_nat k)
    /\ round_starts evs = [iter]
    /\ round_pauses evs = []
    /\ summaries evs = [].
Proof.
  intros HE HR.
  destruct (round_outline E wallets q k iter w HE HR) as (w' & evs & ws & Hrun & Htr & Hperm & Ho).
  exists w', evs. split; [done|]. split; [done|].
  assert (Hlen : length ws = length wallets * Z.to_nat k).
  { rewrite <- (length_fmap JStr ws), Hperm. apply expand_length. }
  destruct (task_lines_numbered (length ws) ws 0 (zero_counts wallets) []) as [Hnum Hbound].
  { intros a Ha. apply zero_counts_lookup. apply (expand_elem _ (Z.to_nat k)).
    rewrite <- Hperm. by apply list_elem_of_fmap_2. }
  destruct (task_lines_plain (length ws) ws 0 (zero_counts wallets)) as (Hp1 & Hp2 & Hp3).
  repeat split.
  - intros seen. rewrite <- well_numbered_outline, Ho. exact Hnum.
  - intros a num Hin. apply elem_of_outline_task in Hin. rewrite Ho in Hin.
    apply elem_of_cons in Hin as [Heq|Hin]; [discriminate|].
    destruct (Hbound a num Hin) as (m & -> & Hm). exists m. split; [done|].
    change (copies a []) with 0 in Hm.
    rewrite copies_names, (occurrences_perm _ _ _ Hperm), occurrences_expand in Hm. lia.
  - rewrite <- progress_lines_outline, Ho.
    change (progress_lines (EvRound iter :: ?l)) with (progress_lines l).
    rewrite task_lines_progress, Hlen. done.
  - rewrite <- round_starts_outline, Ho.
    change (round_starts (EvRound iter :: ?l)) with (iter :: round_starts l).
    by rewrite Hp1.
  - rewrite <- round_pauses_outline, Ho.
    change (round_pauses (EvRound iter :: ?l)) with (round_pauses l). done.
  - rewrite <- summaries_outline, Ho.
    change (summaries (EvRound iter :: ?l)) with (summaries l). done.
Qed.

Lemma rounds_made_pos (fuel : nat) (continuous : bool) (maxIter : option Z) :
  forall iter, (rounds_made fuel continuous maxIter iter).2 = true ->
               1 <= (rounds_made fuel continuous maxIter iter).1.
Proof.
  induction fuel as [|fuel IH]; intros iter; simpl; [done|].
  destruct continuous; simpl; [|lia].
  destruct (Diamante.reached maxIter (S iter)); simpl; [lia|].
  destruct (rounds_made fuel true maxIter (S iter)); simpl. lia.
Qed.

Lemma progress_lines_app (xs ys : list Event) :
  progress_lines (xs ++ ys) = progress_lines xs ++ progress_lines ys.
Proof. apply omap_app. Qed.

Lemma round_starts_app (xs ys : list Event) :
  round_starts (xs ++ ys) = round_starts xs ++ round_starts ys.
Proof. apply omap_app. Qed.

Lemma round_pauses_app (xs ys : list Event) :
  round_pauses (xs ++ ys) = round_pauses xs ++ round_pauses ys.
Proof. apply omap_app. Qed.

Lemma summaries_app (xs ys : list Event) :
  summaries (xs ++ ys) = summaries xs ++ summaries ys.
Proof. apply omap_app. Qed.

(** The loop of [sendRound], round by round. *)
Lemma rounds_exact (E : Env) (wallets : list string) (q : Q) (k : Z)
    (continuous : bool) (maxIter : option Z) :
  no_sigint E -> random_unit E ->
  forall (fuel iter : nat) (w : World),
  exists w' rs evs,
    Diamante.rounds E fuel wallets q k continuous maxIter iter w
    = (if (rounds_made fuel continuous maxIter iter).2 then Ret tt w' else OutOfFuel w')
    /\ results w' = results w ++ rs
    /\ length rs = (rounds_made fuel continuous maxIter iter).1
                   * (length wallets * Z.to_nat k)
    /\ Forall (fun r => r_amount r = q) rs
    /\ total (stats w') = total (stats w) + length rs
    /\ success (stats w') = success (stats w) + succeeded rs
    /\ failed (stats w') = failed (stats w) + failures rs
    /\ amount (stats w')
       = foldl (fun acc r => if r_success r then (acc + r_amount r)%Q else acc)
           (amount (stats w)) rs
    /\ n_fetch w' <= n_fetch w + length rs * S Diamante.MAX_RETRIES
    /\ trace w' = trace w ++ evs
    /\ (forall seen, well_numbered seen evs = true)
    /\ (forall a num, EvTask a num ∈ evs ->
          exists m, num = Some m /\ 1 <= m <= copies a wallets * Z.to_nat k)
    /\ progress_lines evs
       = concat (replicate (rounds_made fuel continuous maxIter iter).1
                   ((fun d => (d, length wallets * Z.to_nat k))
                      <$> seq 1 (length wallets * Z.to_nat k)))
    /\ round_starts evs = seq (S iter) (rounds_made fuel continuous maxIter iter).1
    /\ round_pauses evs
       = replicate ((rounds_made fuel continuous maxIter iter).1
                    - (if (rounds_made fuel continuous maxIter iter).2 then 1 else 0)) 5000%Q
    /\ summaries evs = [].
Proof.
  intros HE HR. induction fuel as [|fuel IH]; intros iter w.
  - exists w, [], []. simpl. rewrite !app_nil_r. repeat split; try done; try lia.
    intros a num Hin. by apply elem_of_nil in Hin.
  - remember (Diamante.rounds E (S fuel) wallets q k continuous maxIter iter w) as o eqn:Ho.
    simpl in Ho. unfold mbind at 1 in Ho. unfold M_bind at 1 in Ho.
    destruct (round_run E wallets q k (S iter) w HE HR)
      as (w1 & rs1 & ds1 & evs0 & Hround & _ & _ & Hres1 & HN & Hq1 & _ & Ht1 & Hs1 & Hf1
          & Ha1 & Hnf1 & _).
    destruct (round_lines E wallets q k (S iter) w HE HR)
      as (w1' & evs1 & Hround' & Htr1 & Hnum1 & Hb1 & Hp1 & Hst1 & Hpa1 & Hsu1).
    rewrite Hround in Hround'. injection Hround' as <-.
    rewrite Hround in Ho. clear Hround.
    assert (Hstop : exists w' rs evs,
      Ret tt w1 = @Ret unit tt w'
      /\ results w' = results w ++ rs
      /\ length rs = 1 * (length wallets * Z.to_nat k)
      /\ Forall (fun r => r_amount r = q) rs
      /\ total (stats w') = total (stats w) + length rs
      /\ success (stats w') = success (stats w) + succeeded rs
      /\ failed (stats w') = failed (stats w) + failures rs
      /\ amount (stats w')
         = foldl (fun acc r => if r_success r then (acc + r_amount r)%Q else acc)
             (amount (stats w)) rs
      /\ n_fetch w' <= n_fetch w + length rs * S Diamante.MAX_RETRIES
      /\ trace w' = trace w ++ evs
      /\ (forall seen, well_numbered seen evs = true)
      /\ (forall a num, EvTask a num ∈ evs ->
            exists m, num = Some m /\ 1 <= m <= copies a wallets * Z.to_nat k)
      /\ progress_lines evs
         = concat (replicate 1 ((fun d => (d, length wallets * Z.to_nat k))
                                  <$> seq 1 (length wallets * Z.to_nat k)))
      /\ round_starts evs = seq (S iter) 1
      /\ round_pauses evs = replicate (1 - 1) 5000%Q
      /\ summaries evs = []).
    { exists w1, rs1, evs1. simpl. rewrite app_nil_r.
      repeat split; try done. lia. }
    unfold mret, M_ret in Ho.
    cbn [rounds_made].
    destruct continuous; simpl in Ho |- *; [|subst o; exact Hstop].
    destruct (Diamante.reached maxIter (S iter)); [subst o; exact Hstop|]. clear Hstop.
    unfold sleep, emit, modify, wait, mbind, M_bind in Ho. simpl in Ho. rewrite HE in Ho.
    set (w2 := tick_wait _) in Ho. subst o.
    destruct (IH (S iter) w2)
      as (w' & rs2 & evs2 & Hrun & Hres2 & HN2 & Hq2 & Ht2 & Hs2 & Hf2 & Ha2 & Hnf2 & Htr2
          & Hnum2 & Hb2 & Hp2 & Hst2 & Hpa2 & Hsu2).
    pose proof (rounds_made_pos fuel true maxIter (S iter)) as Hpos.
    destruct (rounds_made fuel true maxIter (S iter)) as [j2 b2]. simpl in *.
    exists w', (rs1 ++ rs2), (evs1 ++ [EvSleep RoundPause 5000] ++ evs2).
    unfold w2 in *. cbn in Hres2, Ht2, Hs2, Hf2, Ha2, Hnf2, Htr2.
    repeat split.
    + exact Hrun.
    + rewrite Hres2, Hres1. by rewrite <- app_assoc.
    + rewrite length_app, HN, HN2. lia.
    + by apply Forall_app.
    + rewrite Ht2, Ht1, length_app. lia.
    + rewrite Hs2, Hs1, succeeded_app. lia.
    + rewrite Hf2, Hf1, failures_app. lia.
    + rewrite Ha2, Ha1, foldl_app. done.
    + rewrite length_app. unfold Diamante.MAX_RETRIES in *. lia.
    + rewrite Htr2, Htr1. rewrite <- !app_assoc. reflexivity.
    + intros seen. apply well_numbered_app; [apply Hnum1|].
      intros seen'. simpl. apply Hnum2.
    + intros a num Hin. apply elem_of_app in Hin as [Hin|Hin]; [by apply Hb1|].
      apply elem_of_cons in Hin as [Heq|Hin]; [discriminate|]. by apply Hb2.
    + rewrite progress_lines_app, Hp1.
      change (progress_lines ([EvSleep RoundPause 5000] ++ evs2)) with (progress_lines evs2).
      rewrite Hp2. done.
    + rewrite round_starts_app, Hst1.
      change (round_starts ([EvSleep RoundPause 5000] ++ evs2)) with (round_starts evs2).
      rewrite Hst2. done.
    + rewrite round_pauses_app, Hpa1.
      change (round_pauses ([EvSleep RoundPause 5000] ++ evs2))
        with (5000%Q :: round_pauses evs2).
      rewrite Hpa2. simpl. destruct b2; simpl.
      * specialize (Hpos eq_refl). destruct j2; [lia|]. simpl. by rewrite Nat.sub_0_r.
      * by rewrite Nat.sub_0_r.
    + rewrite summaries_app, Hsu1.
      change (summaries ([EvSleep RoundPause 5000] ++ evs2)) with (summaries evs2). done.
Qed.

(** [sendRound], round by round. *)
Lemma sendRound_exact (E : Env) (fuel : nat) (wallets : list string) (q : Q) (k : Z)
    (continuous : bool) (maxIter : option Z) (w : World) :
  no_sigint E -> random_unit E ->
  exists w' rs evs,
    Diamante.sendRound E fuel wallets q k continuous maxIter w
    = (if (rounds_made fuel continuous maxIter 0).2 then Ret rs w' else OutOfFuel w')
    /\ results w' = rs
    /\ length rs = (rounds_made fuel continuous maxIter 0).1 * (length wallets * Z.to_nat k)
    /\ Forall (fun r => r_amount r = q) rs
    /\ total (stats w') = total (stats w) + length rs
    /\ success (stats w') = success (stats w) + succeeded rs
    /\ failed (stats w') = failed (stats w) + failures rs
    /\ amount (stats w')
       = foldl (fun acc r => if r_success r then (acc + r_amount r)%Q else acc)
           (amount (stats w)) rs
    /\ n_fetch w' <= n_fetch w + length rs * S Diamante.MAX_RETRIES
    /\ trace w' = trace w ++ evs
    /\ (forall seen, well_numbered seen evs = true)
    /\ (forall a num, EvTask a num ∈ evs ->
          exists m, num = Some m /\ 1 <= m <= copies a wallets * Z.to_nat k)
    /\ progress_lines evs
       = concat (replicate (rounds_made fuel continuous maxIter 0).1
                   ((fun d => (d, length wallets * Z.to_nat k))
                      <$> seq 1 (length wallets * Z.to_nat k)))
    /\ round_starts evs = seq 1 (rounds_made fuel continuous maxIter 0).1
    /\ round_pauses evs
       = replicate ((rounds_made fuel continuous maxIter 0).1
                    - (if (rounds_made fuel continuous maxIter 0).2 then 1 else 0)) 5000%Q
    /\ exists elapsed,
         summaries evs
         = if (rounds_made fuel continuous maxIter 0).2
           then [Diamante.summary_of (stats w') elapsed rs (length wallets)] else [].
Proof.
  intros HE HR.
  remember (Diamante.sendRound E fuel wallets q k continuous maxIter w) as o eqn:Ho.
  unfold Diamante.sendRound in Ho.
  unfold mbind at 1 in Ho. unfold M_bind at 1 in Ho. unfold modify at 1 in Ho.
  unfold mbind at 1 in Ho. unfold M_bind at 1 in Ho. unfold try_catch in Ho.
  destruct (rounds_exact E wallets q k continuous maxIter HE HR fuel 0 (set_results [] w))
    as (w1 & rs & evs & Hrun & Hres & HN & Hq & Ht & Hs & Hf & Ha & Hnf & Htr & Hnum & Hb
        & Hp & Hst & Hpa & Hsu).
  cbn in Hres, Ht, Hs, Hf, Ha, Hnf, Htr.
  rewrite Hrun in Ho. clear Hrun.
  destruct (rounds_made fuel continuous maxIter 0) as [j stops]. simpl in *.
  destruct stops.
  - unfold mbind, M_bind, get in Ho.
    destruct (printSummary_run E (results w1) (length wallets) w1)
      as (w2 & elapsed & Hprint & Hs2 & Hr2 & Hnf2 & _ & _ & _ & Htr2).
    rewrite Hprint in Ho. unfold mret, M_ret in Ho. rewrite Hres in Ho.
    exists w2, rs, (evs ++ [EvSummary (Diamante.summary_of (stats w1) elapsed (results w1)
                                         (length wallets))]).
    rewrite Hs2, Hr2, Hnf2, Htr2, Htr, Hres.
    split; [done|]. repeat split; try done.
    + by rewrite <- app_assoc.
    + intros seen. apply well_numbered_app; [apply Hnum|done].
    + intros a num Hin. apply elem_of_app in Hin as [Hin|Hin]; [by apply Hb|].
      apply elem_of_cons in Hin as [Heq|Hin]; [discriminate|].
      by apply elem_of_nil in Hin.
    + by rewrite progress_lines_app, Hp, app_nil_r.
    + by rewrite round_starts_app, Hst, app_nil_r.
    + by rewrite round_pauses_app, Hpa, app_nil_r.
    + exists elapsed. by rewrite summaries_app, Hsu.
  - exists w1, rs, evs. do 15 (split; [done|]). by exists 0%Q.
Qed.


Lemma reached_never (maxIter : option Z) (iter : nat) :
  num_or maxIter None = None -> Diamante.reached maxIter iter = false.
Proof.
  destruct maxIter as [m|]; [|done]. simpl.
  destruct (Z.eqb_spec m 0) as [->|]; [done|discriminate].
Qed.

Lemma rounds_made_forever (maxIter : option Z) :
  num_or maxIter None = None ->
  forall (fuel iter : nat), rounds_made fuel true maxIter iter = (fuel, false).
Proof.
  intros Hm. induction fuel as [|fuel IH]; intros iter; [done|].
  cbn [rounds_made negb]. rewrite reached_never by done. by rewrite IH.
Qed.

Lemma existsb_failures (rs : list SendResult) :
  existsb (fun r => negb (r_success r)) rs = negb (Nat.eqb (failures rs) 0).
Proof.
  unfold failures. induction rs as [|r rs IH]; [done|].
  cbn [existsb]. rewrite filter_cons. destruct (r_success r) eqn:Hr; simpl; [exact IH|done].
Qed.

(** [main] once its checks are passed: it creates the sender in the
    prepared world, which raises when the user id of the token is neither a
    string nor missing; then it runs [sendRound] and exits with 1 if a
    result is a failure or an exception was thrown, with 0 otherwise. *)
Lemma run_sends (E : Env) (fuel : nat) (opts : Diamante.Opts) (cfg : option Config)
    (w : World) :
  let config := Diamante.effective_config opts cfg in
  truthy_str (if truthy_str (Diamante.o_token opts) then Diamante.o_token opts
              else config ≫= accessToken) = true ->
  Diamante.resolve_wallets opts config ≠ [] ->
  Diamante.o_history opts = false ->
  Diamante.run E fuel opts cfg w
  = if known_user E (token_of opts config) then
      match Diamante.sendRound E fuel (Diamante.resolve_wallets opts config)
              (Diamante.resolve_amount opts config)
              (Diamante.resolve_sendPerWallet opts config)
              (Diamante.o_continuous opts || from_option c_continuous false config)
              (num_or (Diamante.o_iterations opts) (num_or (config ≫= maxIterations) None))
              (prepared opts config w) with
      | Ret rs w' => Exit (if Nat.eqb (failures rs) 0 then 0%Z else 1%Z) w'
      | Throw e w' => Exit 1 (add_event (EvError e) w')
      | Exit c w' => Exit c w'
      | OutOfFuel w' => OutOfFuel w'
      end
    else Exit 1 (add_event (EvError "this.userId?.slice is not a function")
                   (prepared opts config w)).
Proof.
  intros config Htok Hws Hhist.
  unfold Diamante.run, Diamante.main, try_catch, Diamante.new_sender, known_user, token_of.
  fold config.
  set (ws := Diamante.resolve_wallets opts config) in *.
  set (d := config ≫= delays). set (tokv := if truthy_str _ then _ else _) in *.
  assert (Hfirst : bool_decide (config = None) && negb (truthy_str (Diamante.o_token opts))
                   = false).
  { unfold tokv in Htok. destruct (truthy_str (Diamante.o_token opts)) eqn:Ht.
    - by rewrite andb_false_r.
    - destruct config; [done|]. simpl in Htok. done. }
  rewrite Hfirst, Htok. simpl negb. cbv iota.
  rewrite bool_decide_eq_false_2.
  2:{ intros Hlen. apply nil_length_inv in Hlen. done. }
  rewrite Hhist.
  unfold prepared. fold d.
  unfold mbind, M_bind, modify, mret, M_ret, exit, throw, emit.
  destruct (extractUserId E (default "" tokv)) as [|u| |];
    destruct d as [[lo hi]|]; destruct (Diamante.o_fast opts); simpl; try reflexivity;
    match goal with
    | |- context [Diamante.sendRound ?E0 ?f0 ?a0 ?b0 ?c0 ?d0 ?e0 ?w0] =>
        destruct (Diamante.sendRound E0 f0 a0 b0 c0 d0 e0 w0) as [rs w'|msg w'|code w'|w']
    end; try reflexivity;
    rewrite existsb_failures; destruct (Nat.eqb (failures rs) 0); reflexivity.
Qed.

Lemma expand_0 (wallets : list string) : expand wallets 0 = [].
Proof. induction wallets as [|a wallets IH]; [done|]. simpl. exact IH. Qed.

(** A round whose queue is empty: nothing is drawn, awaited or sent. *)
Lemma round_empty (E : Env) (wallets : list string) (q : Q) (k : Z) (iter : nat) (w : World) :
  Z.to_nat k = 0 ->
  exists h,
    Diamante.round E wallets q k iter w = Ret tt (add_event (EvRound iter) (set_heap h w)).
Proof.
  intros Hk. unfold Diamante.round, Diamante.buildQueue.
  unfold mbind at 1. unfold M_bind at 1.
  unfold mbind at 1. unfold M_bind at 1. unfold alloc at 1.
  set (l := fresh (dom (heap w))).
  set (w1 := set_heap (<[l:=[]]> (heap w)) w).
  unfold mbind at 1. unfold M_bind at 1.
  rewrite (push_wallets_spec l wallets k w1 []) by (unfold w1; simpl; apply lookup_insert_eq).
  rewrite Hk, expand_0. simpl app.
  set (w2 := set_heap _ w1).
  unfold Diamante.shuffle, read_array, array_at, alloc, mbind, M_bind, mret, M_ret, emit, modify.
  unfold w2 at 1. simpl heap. rewrite lookup_insert_eq. simpl default. simpl length.
  simpl shuffle_loop. unfold mret, M_ret. simpl heap.
  rewrite lookup_insert_eq. simpl.
  eexists. reflexivity.
Qed.

Lemma sendRound_empty (E : Env) (fuel : nat) (wallets : list string) (q : Q) (k : Z)
    (maxIter : option Z) (w : World) :
  Z.to_nat k = 0 ->
  exists w' elapsed,
    Diamante.sendRound E (S fuel) wallets q k false maxIter w = Ret [] w'
    /\ stats w' = stats w /\ n_fetch w' = n_fetch w /\ n_wait w' = n_wait w
    /\ trace w' = trace w ++ [EvRound 1;
                              EvSummary (Diamante.summary_of (stats w) elapsed []
                                           (length wallets))].
Proof.
  intros Hk. unfold Diamante.sendRound.
  unfold mbind at 1. unfold M_bind at 1. unfold modify at 1.
  unfold mbind at 1. unfold M_bind at 1. unfold try_catch.
  simpl. unfold mbind at 1. unfold M_bind at 1.
  destruct (round_empty E wallets q k 1 (set_results [] w) Hk) as [h ->].
  unfold mret, M_ret, get, mbind, M_bind.
  set (w1 := add_event _ _).
  destruct (printSummary_run E (results w1) (length wallets) w1)
    as (w2 & elapsed & -> & Hs2 & Hr2 & Hnf2 & Hnw2 & _ & _ & Htr2).
  exists w2, elapsed. split; [done|].
  rewrite Hs2, Hnf2, Hnw2, Htr2. unfold w1. simpl.
  repeat split. by rewrite <- app_assoc.
Qed.

Lemma prepared_fields (opts : Diamante.Opts) (config : option Config) (w : World) :
  stats (prepared opts config w) = new_stats
  /\ n_fetch (prepared opts config w) = n_fetch w
  /\ n_wait (prepared opts config w) = n_wait w
  /\ trace (prepared opts config w) = trace w
  /\ MIN_DELAY (prepared opts config w)
     = (if Diamante.o_fast opts then 0.5%Q
        else match config ≫= delays with Some d => d.1 | None => MIN_DELAY w end)
  /\ MAX_DELAY (prepared opts config w)
     = (if Diamante.o_fast opts then 1.0%Q
        else match config ≫= delays with Some d => d.2 | None => MAX_DELAY w end).
Proof.
  unfold prepared. destruct (config ≫= delays) as [[lo hi]|];
    destruct (Diamante.o_fast opts); done.
Qed.

(** ** Properties of the rounds *)

(** X6 -- [sendRound], the line "Send n/k" of a task: in every round the
    tasks of a wallet are numbered 1, 2, ... in the order they are
    dispatched; the counter is never [NaN] and never exceeds the number of
    times the wallet is listed times [sendPerWallet] (so it is at most
    [sendPerWallet] when the wallets are distinct).  The wallets are
    addresses (they start with [0x]): the counters are kept in a plain
    object, and a name like [__proto__] is no counter of it. *)
Theorem task_numbers (E : Env) (fuel : nat) (wallets : list string) (q : Q) (k : Z)
    (continuous : bool) (maxIter : option Z) (w : World) :
  no_sigint E -> random_unit E -> forallb is_address wallets = true ->
  exists evs,
    trace (world_of (Diamante.sendRound E fuel wallets q k continuous maxIter w))
    = trace w ++ evs
    /\ well_numbered [] evs = true
    /\ (forall a num, EvTask a num ∈ evs ->
          exists m, num = Some m /\ 1 <= m <= copies a wallets * Z.to_nat k)
    /\ (NoDup wallets ->
        forall a num, EvTask a num ∈ evs -> exists m, num = Some m /\ 1 <= m <= Z.to_nat k).
Proof.
  intros HE HR _.
  destruct (sendRound_exact E fuel wallets q k continuous maxIter w HE HR)
    as (w' & rs & evs & -> & _ & _ & _ & _ & _ & _ & _ & _ & Htr & Hnum & Hb & _).
  exists evs. split; [by destruct (rounds_made _ _ _ _).2|].
  split; [apply Hnum|]. split; [exact Hb|].
  intros Hnd a num Hin. destruct (Hb a num Hin) as (m & -> & Hm).
  exists m. split; [done|].
  destruct (decide (a ∈ wallets)) as [Ha|Ha].
  - rewrite (copies_NoDup a wallets Hnd Ha) in Hm. lia.
  - rewrite (copies_absent a wallets Ha) in Hm. lia.
Qed.

Lemma NoDup_example : NoDup ["0xAAA"; "0xBBB"].
Proof.
  apply NoDup_cons. split.
  - intros H. apply elem_of_cons in H as [H|H]; [discriminate H|]. by apply elem_of_nil in H.
  - apply NoDup_cons. split; [apply not_elem_of_nil|apply NoDup_nil_2].
Defined.

Lemma task_numbers_witness :
  no_sigint E_ok /\ random_unit E_ok /\ forallb is_address ["0xAAA"; "0xBBB"] = true
  /\ NoDup ["0xAAA"; "0xBBB"]
  /\ exists evs,
       trace (world_of (Diamante.sendRound E_ok 1 ["0xAAA"; "0xBBB"] 1 2 false None
                          initial_world)) = [] ++ evs
       /\ well_numbered [] evs = true
       /\ (forall a num, EvTask a num ∈ evs ->
             exists m, num = Some m /\ 1 <= m <= copies a ["0xAAA"; "0xBBB"] * Z.to_nat 2)
       /\ (forall a num, EvTask a num ∈ evs -> exists m, num = Some m /\ 1 <= m <= Z.to_nat 2).
Proof.
  split; [exact no_sigint_ok|]. split; [exact random_unit_ok|].
  split; [reflexivity|]. split; [exact NoDup_example|].
  destruct (task_numbers E_ok 1 ["0xAAA"; "0xBBB"] 1 2 false None initial_world
              no_sigint_ok random_unit_ok eq_refl) as (evs & Htr & Hnum & Hb & Hnd).
  exists evs. split; [exact Htr|]. split; [exact Hnum|]. split; [exact Hb|].
  exact (Hnd NoDup_example).
Defined.

Lemma progressBar_drawn (curr total : Z) :
  (0 < total)%Z -> (0 <= curr <= total)%Z ->
  exists bar, progressBar curr total = Ok bar /\ js_length bar = 25.
Proof.
  intros Ht Hc. pose proof (floor_div_range curr total Ht Hc) as Hf.
  eexists. split; [apply progressBar_in_range; done|].
  rewrite js_length_app, !js_length_repeat.
  change (js_length "█") with 1. change (js_length "░") with 1. lia.
Qed.

Lemma elem_of_concat_replicate {A} (x : A) (n : nat) (l : list A) :
  x ∈ concat (replicate n l) -> x ∈ l.
Proof.
  induction n as [|n IH]; simpl; intros Hin.
  - by apply elem_of_nil in Hin.
  - apply elem_of_app in Hin as [Hin|Hin]; [done|by apply IH].
Qed.

(** X7 -- [sendRound], the progress line after a task: in every round the
    lines count the tasks done from 1 to the length of the queue, and for
    each of them [progressBar] draws its 25 characters without an
    exception. *)
Theorem progress_drawn (E : Env) (fuel : nat) (wallets : list string) (q : Q) (k : Z)
    (continuous : bool) (maxIter : option Z) (w : World) :
  no_sigint E -> random_unit E ->
  exists evs rounds,
    trace (world_of (Diamante.sendRound E fuel wallets q k continuous maxIter w))
    = trace w ++ evs
    /\ progress_lines evs
       = concat (replicate rounds
                   ((fun d => (d, length wallets * Z.to_nat k))
                      <$> seq 1 (length wallets * Z.to_nat k)))
    /\ forall d n, (d, n) ∈ progress_lines evs ->
         1 <= d <= n
         /\ exists bar, progressBar (Z.of_nat d) (Z.of_nat n) = Ok bar /\ js_length bar = 25.
Proof.
  intros HE HR.
  destruct (sendRound_exact E fuel wallets q k continuous maxIter w HE HR)
    as (w' & rs & evs & -> & _ & _ & _ & _ & _ & _ & _ & _ & Htr & _ & _ & Hp & _).
  exists evs, (rounds_made fuel continuous maxIter 0).1.
  split; [by destruct (rounds_made _ _ _ _).2|]. split; [exact Hp|].
  intros d n Hin. rewrite Hp in Hin. apply elem_of_concat_replicate in Hin.
  apply list_elem_of_fmap in Hin as (d' & Heq & Hd'). injection Heq as -> ->.
  apply elem_of_seq in Hd'. split; [lia|].
  apply progressBar_drawn; lia.
Qed.

Lemma progress_drawn_witness :
  no_sigint E_ok /\ random_unit E_ok
  /\ exists evs rounds,
       trace (world_of (Diamante.sendRound E_ok 1 ["0xAAA"; "0xBBB"] 1 2 false None
                          initial_world)) = [] ++ evs
       /\ progress_lines evs
          = concat (replicate rounds ((fun d => (d, 2 * Z.to_nat 2)) <$> seq 1 (2 * Z.to_nat 2)))
       /\ forall d n, (d, n) ∈ progress_lines evs ->
            1 <= d <= n
            /\ exists bar, progressBar (Z.of_nat d) (Z.of_nat n) = Ok bar
                           /\ js_length bar = 25.
Proof.
  split; [exact no_sigint_ok|]. split; [exact random_unit_ok|].
  exact (progress_drawn E_ok 1 ["0xAAA"; "0xBBB"] 1 2 false None initial_world
           no_sigint_ok random_unit_ok).
Defined.



(** X9 -- [sendRound] in continuous mode without a bound ([maxIter] is
    [null] or 0): the loop never ends.  Whatever the number of rounds it is
    given, it makes them all, pauses 5 s after each and is still running;
    no summary is printed. *)
Theorem continuous_unbounded (E : Env) (wallets : list string) (q : Q) (k : Z)
    (maxIter : option Z) (w : World) :
  no_sigint E -> random_unit E -> num_or maxIter None = None ->
  forall fuel,
  exists w' evs,
    Diamante.sendRound E fuel wallets q k true maxIter w = OutOfFuel w'
    /\ length (results w') = fuel * (length wallets * Z.to_nat k)
    /\ total (stats w') = total (stats w) + fuel * (length wallets * Z.to_nat k)
    /\ trace w' = trace w ++ evs
    /\ round_starts evs = seq 1 fuel
    /\ round_pauses evs = replicate fuel 5000%Q
    /\ summaries evs = [].
Proof.
  intros HE HR Hm fuel.
  destruct (sendRound_exact E fuel wallets q k true maxIter w HE HR)
    as (w' & rs & evs & Hrun & Hres & HN & _ & Ht & _ & _ & _ & _ & Htr & _ & _ & _ & Hst
        & Hpa & elapsed & Hsu).
  rewrite (rounds_made_forever maxIter Hm fuel 0) in *. simpl in *.
  exists w', evs. rewrite Hres, Ht, HN, Nat.sub_0_r in *. repeat split; done.
Qed.

Lemma continuous_unbounded_witness :
  no_sigint E_ok /\ random_unit E_ok /\ num_or (Some 0%Z) None = None
  /\ exists w' evs,
       Diamante.sendRound E_ok 2 ["0xAAA"] 1 1 true (Some 0%Z) initial_world = OutOfFuel w'
       /\ length (results w') = 2 * (1 * Z.to_nat 1)
       /\ total (stats w') = 0 + 2 * (1 * Z.to_nat 1)
       /\ trace w' = [] ++ evs
       /\ round_starts evs = seq 1 2
       /\ round_pauses evs = replicate 2 5000%Q
       /\ summaries evs = [].
Proof.
  split; [exact no_sigint_ok|]. split; [exact random_unit_ok|]. split; [reflexivity|].
  exact (continuous_unbounded E_ok ["0xAAA"] 1 1 (Some 0%Z) initial_world
           no_sigint_ok random_unit_ok eq_refl 2).
Defined.

(** ** Properties of [main] *)

(** X23 -- [main] without a token: when neither the command line nor the
    configuration gives a token, the process prints an error and exits
    with code 1 before a sender exists: no request is made, nothing is
    awaited and the statistics are untouched.  The message tells whether
    a configuration was loaded. *)
Theorem missing_token (E : Env) (fuel : nat) (opts : Diamante.Opts) (cfg : option Config)
    (w : World) :
  let config := Diamante.effective_config opts cfg in
  truthy_str (Diamante.o_token opts) = false ->
  truthy_str (config ≫= accessToken) = false ->
  exists w',
    Diamante.run E fuel opts cfg w = Exit 1 w'
    /\ n_fetch w' = n_fetch w /\ n_wait w' = n_wait w /\ stats w' = stats w
    /\ trace w' = trace w ++ [EvError (if bool_decide (config = None)
                                       then "No config.json found and no --token provided"
                                       else "--token is required")].
Proof.
  intros config Ht Hc. unfold Diamante.run, Diamante.main, try_catch. fold config.
  rewrite Ht. simpl negb. rewrite andb_true_r.
  destruct (bool_decide (config = None)) eqn:Hnone.
  - unfold mbind, M_bind, emit, modify, exit. simpl.
    eexists. split; [reflexivity|]. repeat split; done.
  - cbv iota. rewrite Hc. simpl negb. cbv iota.
    set (d := config ≫= delays). clearbody d.
    unfold mbind, M_bind, emit, modify, exit, mret, M_ret.
    destruct d as [[lo hi]|]; destruct (Diamante.o_fast opts); simpl;
      (eexists; split; [reflexivity|]; repeat split; done).
Qed.

Lemma missing_token_witness :
  let opts := {| Diamante.o_token := None; Diamante.o_to := Some "0xAAA";
                 Diamante.o_amount := None; Diamante.o_sendPerWallet := None;
                 Diamante.o_continuous := false; Diamante.o_iterations := None;
                 Diamante.o_fast := false; Diamante.o_history := false;
                 Diamante.o_config := false |} in
  let cfg := Some {| accessToken := Some ""; c_wallets := Some ["0xBBB"];
                     amountPerSend := None; c_sendPerWallet := None;
                     c_continuous := false; maxIterations := None; delays := None |} in
  let config := Diamante.effective_config opts cfg in
  truthy_str (Diamante.o_token opts) = false
  /\ truthy_str (config ≫= accessToken) = false
  /\ exists w',
       Diamante.run E_ok 1 opts cfg initial_world = Exit 1 w'
       /\ n_fetch w' = 0 /\ n_wait w' = 0 /\ stats w' = new_stats
       /\ trace w' = [] ++ [EvError (if bool_decide (config = None)
                                     then "No config.json found and no --token provided"
                                     else "--token is required")].
Proof.
  intros opts cfg config. split; [reflexivity|]. split; [reflexivity|].
  exact (missing_token E_ok 1 opts cfg initial_world eq_refl eq_refl).
Defined.




(** X11 -- [main] with a negative number of sends per wallet (as
    [--sends -1] gives), a token whose user id is a string or missing and
    at least one wallet: the queue of the round is empty, so nothing is
    requested or awaited; the summary counts 0 transfers and the process
    exits with code 0.  The value of [--to], if any, is an ASCII text. *)
Theorem negative_sends (E : Env) (fuel : nat) (opts : Diamante.Opts) (cfg : option Config)
    (w : World) :
  let config := Diamante.effective_config opts cfg in
  truthy_str (if truthy_str (Diamante.o_token opts) then Diamante.o_token opts
              else config ≫= accessToken) = true ->
  known_user E (token_of opts config) = true ->
  from_option ascii_only true (Diamante.o_to opts) = true ->
  Diamante.resolve_wallets opts config ≠ [] ->
  Diamante.o_history opts = false ->
  Diamante.o_continuous opts || from_option c_continuous false config = false ->
  (Diamante.resolve_sendPerWallet opts config < 0)%Z ->
  exists w' sm,
    Diamante.run E (S fuel) opts cfg w = Exit 0 w'
    /\ n_fetch w' = n_fetch w /\ n_wait w' = n_wait w
    /\ trace w' = trace w ++ [EvRound 1; EvSummary sm]
    /\ s_total sm = 0 /\ s_success sm = 0 /\ s_failed sm = 0.
Proof.
  intros config Htok Huser _ Hws Hhist Hcont Hneg.
  rewrite (run_sends E (S fuel) opts cfg w Htok Hws Hhist). fold config.
  rewrite Huser, Hcont.
  set (maxIter := num_or _ _).
  destruct (prepared_fields opts config w) as (Hs0 & Hnf0 & Hnw0 & Htr0 & _).
  destruct (sendRound_empty E fuel (Diamante.resolve_wallets opts config)
              (Diamante.resolve_amount opts config)
              (Diamante.resolve_sendPerWallet opts config) maxIter
              (prepared opts config w) ltac:(lia))
    as (w' & elapsed & -> & Hs & Hnf & Hnw & Htr).
  eexists w', _. split; [reflexivity|].
  rewrite Hnf, Hnw, Htr, Hnf0, Hnw0, Htr0, Hs0. repeat split.
Qed.

Lemma negative_sends_witness :
  let opts := opts_of "0xAAA" (Some (-1)%Z) in
  let config := Diamante.effective_config opts None in
  truthy_str (if truthy_str (Diamante.o_token opts) then Diamante.o_token opts
              else config ≫= accessToken) = true
  /\ known_user E_ok (token_of opts config) = true
  /\ from_option ascii_only true (Diamante.o_to opts) = true
  /\ Diamante.resolve_wallets opts config ≠ []
  /\ Diamante.o_history opts = false
  /\ Diamante.o_continuous opts || from_option c_continuous false config = false
  /\ (Diamante.resolve_sendPerWallet opts config < 0)%Z
  /\ exists w' sm,
       Diamante.run E_ok 1 opts None initial_world = Exit 0 w'
       /\ n_fetch w' = 0 /\ n_wait w' = 0
       /\ trace w' = [] ++ [EvRound 1; EvSummary sm]
       /\ s_total sm = 0 /\ s_success sm = 0 /\ s_failed sm = 0.
Proof.
  split; [reflexivity|]. split; [reflexivity|]. split; [reflexivity|].
  split; [discriminate|]. split; [reflexivity|].
  split; [reflexivity|]. split; [reflexivity|].
  exact (negative_sends E_ok 0 (opts_of "0xAAA" (Some (-1)%Z)) None initial_world
           eq_refl eq_refl eq_refl ltac:(discriminate) eq_refl eq_refl eq_refl).
Defined.

(** X12 -- [main], which delays apply: [--fast] sets the bounds of the
    pause between two tasks to 0.5 s and 1 s whatever the configuration
    says; without it the [delays] of the configuration apply, and without
    them the bounds of the module.  When the lower bound is not above the
    upper one, every pause of the run lies between them. *)
Theorem delay_precedence (E : Env) (fuel : nat) (opts : Diamante.Opts) (cfg : option Config)
    (w : World) :
  let config := Diamante.effective_config opts cfg in
  let lo := if Diamante.o_fast opts then 0.5%Q
            else match config ≫= delays with Some d => d.1 | None => MIN_DELAY w end in
  let hi := if Diamante.o_fast opts then 1.0%Q
            else match config ≫= delays with Some d => d.2 | None => MAX_DELAY w end in
  no_sigint E -> random_unit E ->
  truthy_str (if truthy_str (Diamante.o_token opts) then Diamante.o_token opts
              else config ≫= accessToken) = true ->
  Diamante.resolve_wallets opts config ≠ [] ->
  Diamante.o_history opts = false ->
  (lo <= hi)%Q ->
  exists ds evs,
    trace (world_of (Diamante.run E fuel opts cfg w)) = trace w ++ evs
    /\ (gaps evs = [] \/ gaps evs = [] :: ((fun d => [(d * 1000)%Q]) <$> ds))
    /\ loose_pauses evs = []
    /\ Forall (fun d => (lo <= d)%Q /\ (d <= hi)%Q) ds.
Proof.
  intros config lo hi HE HR Htok Hws Hhist Hle.
  rewrite (run_sends E fuel opts cfg w Htok Hws Hhist). fold config.
  set (continuous := _ || _). set (maxIter := num_or _ _).
  destruct (prepared_fields opts config w) as (_ & _ & _ & Htr0 & Hmin0 & Hmax0).
  fold lo in Hmin0. fold hi in Hmax0.
  destruct (known_user E (token_of opts config)).
  2:{ exists [], [EvError "this.userId?.slice is not a function"].
      cbn [world_of add_event trace]. rewrite Htr0.
      split; [done|]. split; [by left|]. split; done. }
  destruct (sendRound_paced E fuel (Diamante.resolve_wallets opts config)
              (Diamante.resolve_amount opts config)
              (Diamante.resolve_sendPerWallet opts config) continuous maxIter
              (prepared opts config w) HE HR)
    as (w' & ds & evs & Hrun & Htr & Hg & Hl & _ & Hds).
  exists ds, evs. split.
  { destruct Hrun as [[rs ->]| ->]; simpl; by rewrite Htr, Htr0. }
  split; [done|]. split; [done|].
  eapply Forall_impl; [exact Hds|]. intros d [n ->].
  rewrite <- Hmin0, <- Hmax0. apply in_range_jitter.
  - by rewrite Hmin0, Hmax0.
  - apply HR.
  - apply HR.
Qed.

Lemma delay_precedence_witness :
  let opts := {| Diamante.o_token := None; Diamante.o_to := None;
                 Diamante.o_amount := None; Diamante.o_sendPerWallet := None;
                 Diamante.o_continuous := false; Diamante.o_iterations := None;
                 Diamante.o_fast := true; Diamante.o_history := false;
                 Diamante.o_config := true |} in
  let cfg := Some {| accessToken := Some "tok"; c_wallets := Some ["0xAAA"; "0xBBB"];
                     amountPerSend := None; c_sendPerWallet := None;
                     c_continuous := false; maxIterations := None;
                     delays := Some (60%Q, 120%Q) |} in
  let config := Diamante.effective_config opts cfg in
  no_sigint E_ok /\ random_unit E_ok
  /\ truthy_str (if truthy_str (Diamante.o_token opts) then Diamante.o_token opts
                 else config ≫= accessToken) = true
  /\ Diamante.resolve_wallets opts config ≠ []
  /\ Diamante.o_history opts = false
  /\ (0.5 <= 1.0)%Q
  /\ exists ds evs,
       trace (world_of (Diamante.run E_ok 1 opts cfg initial_world)) = [] ++ evs
       /\ (gaps evs = [] \/ gaps evs = [] :: ((fun d => [(d * 1000)%Q]) <$> ds))
       /\ loose_pauses evs = []
       /\ Forall (fun d => (0.5 <= d)%Q /\ (d <= 1.0)%Q) ds.
Proof.
  intros opts cfg config.
  split; [exact no_sigint_ok|]. split; [exact random_unit_ok|].
  split; [reflexivity|]. split; [discriminate|]. split; [reflexivity|].
  split; [discriminate|].
  exact (delay_precedence E_ok 1 opts cfg initial_world no_sigint_ok random_unit_ok
           eq_refl ltac:(discriminate) eq_refl ltac:(discriminate)).
Defined.

(** ** The wallets of the command line *)

Lemma split_comma_cons (s : string) : exists x xs, split_comma s = x :: xs.
Proof.
  induction s as [|c s (x & xs & IH)]; simpl; [by eexists _, _|].
  destruct (Ascii.eqb c ","); [by eexists _, _|]. rewrite IH. by eexists _, _.
Qed.

Lemma split_comma_clean (s : string) : Forall (fun a => has_comma a = false) (split_comma s).
Proof.
  induction s as [|c s IH]; simpl; [by repeat constructor|].
  destruct (Ascii.eqb c ",") eqn:Hc; [by constructor|].
  destruct (split_comma s) as [|x xs]; [by repeat constructor; simpl; rewrite Hc|].
  apply Forall_cons in IH as [Hx Hxs]. constructor; [|done]. simpl. by rewrite Hc.
Qed.

Lemma split_comma_plain (a : string) : has_comma a = false -> split_comma a = [a].
Proof.
  induction a as [|c a IH]; simpl; [done|]. intros H.
  apply orb_false_iff in H as [Hc Ha]. rewrite Hc, IH by done. done.
Qed.

Lemma split_comma_app (a s : string) :
  has_comma a = false -> split_comma (a +:+ "," +:+ s) = a :: split_comma s.
Proof.
  induction a as [|c a IH]; simpl; [done|]. intros H.
  apply orb_false_iff in H as [Hc Ha]. rewrite Hc.
  change (split_comma (a +:+ String "," s)) with (split_comma (a +:+ "," +:+ s)).
  rewrite IH by done. done.
Qed.

Lemma split_join (ws : list string) :
  ws ≠ [] -> Forall (fun a => has_comma a = false) ws -> split_comma (join_comma ws) = ws.
Proof.
  induction ws as [|a ws IH]; [done|]. intros _ Hall.
  apply Forall_cons in Hall as [Ha Hws].
  destruct ws as [|b ws]; [by apply split_comma_plain|].
  change (join_comma (a :: b :: ws)) with (a +:+ "," +:+ join_comma (b :: ws)).
  rewrite split_comma_app by done. f_equal. by apply IH.
Qed.

Lemma has_comma_trim_left (s : string) : has_comma s = false -> has_comma (trim_left s) = false.
Proof.
  induction s as [|c s IH]; simpl; [done|]. intros H.
  apply orb_false_iff in H as [Hc Hs].
  destruct (is_space c); [by apply IH|]. simpl. by rewrite Hc, Hs.
Qed.

Lemma has_comma_trim_right (s : string) : has_comma s = false -> has_comma (trim_right s) = false.
Proof.
  induction s as [|c s IH]; simpl; [done|]. intros H.
  apply orb_false_iff in H as [Hc Hs]. specialize (IH Hs).
  destruct (trim_right s) as [|d t].
  - destruct (is_space c); simpl; [done|]. by rewrite Hc.
  - simpl in *. by rewrite Hc, IH.
Qed.

Lemma trim_right_idem (s : string) : trim_right (trim_right s) = trim_right s.
Proof.
  induction s as [|c s IH]; simpl; [done|].
  destruct (trim_right s) as [|d t] eqn:Ht.
  - destruct (is_space c) eqn:Hc; simpl; [done|]. by rewrite Hc.
  - cbn [trim_right]. fold trim_right. simpl in IH. rewrite IH. done.
Qed.

Lemma trim_right_head (c : ascii) (s : string) :
  is_space c = false -> exists t, trim_right (String c s) = String c t.
Proof.
  intros Hc. simpl. destruct (trim_right s); [rewrite Hc|]; by eexists.
Qed.

Lemma trim_left_head (s : string) :
  trim_left s = "" \/ exists c t, trim_left s = String c t /\ is_space c = false.
Proof.
  induction s as [|c s IH]; simpl; [by left|].
  destruct (is_space c) eqn:Hc; [done|]. right. by eexists _, _.
Qed.

Lemma trim_idem (s : string) : trim (trim s) = trim s.
Proof.
  unfold trim.
  destruct (trim_left_head s) as [->|(c & t & -> & Hc)]; [done|].
  destruct (trim_right_head c t Hc) as [u Hu]. rewrite Hu.
  assert (trim_left (String c u) = String c u) as -> by (simpl; by rewrite Hc).
  rewrite <- Hu. apply trim_right_idem.
Qed.

Lemma join_comma_nonempty (a : string) (ws : list string) :
  a ≠ "" -> join_comma (a :: ws) ≠ "".
Proof.
  intros Ha. destruct ws as [|b ws]; [done|].
  change (join_comma (a :: b :: ws)) with (a +:+ "," +:+ join_comma (b :: ws)).
  destruct a; [done|discriminate].
Qed.

(** X13 -- [main], the wallets of [--to]: whatever the (non-empty) ASCII
    string, every wallet [main] sends to is not empty, has no comma and no
    white space at its ends; and a list of such addresses written with
    commas is read back as it is, in its order and with its repetitions. *)
Theorem wallets_of_to (opts : Diamante.Opts) (config : option Config) (to : string) :
  Diamante.o_to opts = Some to -> to ≠ "" -> ascii_only to = true ->
  Forall clean (Diamante.resolve_wallets opts config)
  /\ (forall ws, ws ≠ [] -> Forall clean ws -> to = join_comma ws ->
                 Diamante.resolve_wallets opts config = ws).
Proof.
  intros Hto Hne _. unfold Diamante.resolve_wallets. rewrite Hto.
  destruct (String.eqb_spec to "") as [?|_]; [done|]. split.
  - apply Forall_forall. intros a Ha.
    apply list_elem_of_filter in Ha as [Hane Ha].
    apply list_elem_of_fmap in Ha as (x & -> & Hx).
    pose proof (split_comma_clean to) as Hall.
    rewrite Forall_forall in Hall. specialize (Hall x Hx).
    split; [done|]. split; [|apply trim_idem].
    unfold trim. by apply has_comma_trim_right, has_comma_trim_left.
  - intros ws Hws Hclean ->.
    rewrite split_join; [|done|by eapply Forall_impl; [exact Hclean|]; intros a (_ & ? & _)].
    clear Hto Hne Hws. induction Hclean as [|a ws (Ha & _ & Htrim) _ IH]; [done|].
    rewrite fmap_cons, filter_cons, Htrim. rewrite decide_True by done. by rewrite IH.
Qed.

Lemma clean_example : Forall clean ["0xAAA"; "0xBBB"; "0xAAA"].
Proof. repeat constructor; discriminate. Defined.

Lemma wallets_of_to_witness :
  Diamante.o_to (opts_of "0xAAA,0xBBB,0xAAA" None) = Some "0xAAA,0xBBB,0xAAA"
  /\ "0xAAA,0xBBB,0xAAA" ≠ ""
  /\ ascii_only "0xAAA,0xBBB,0xAAA" = true
  /\ Forall clean (Diamante.resolve_wallets (opts_of "0xAAA,0xBBB,0xAAA" None) None)
  /\ ["0xAAA"; "0xBBB"; "0xAAA"] ≠ []
  /\ Forall clean ["0xAAA"; "0xBBB"; "0xAAA"]
  /\ "0xAAA,0xBBB,0xAAA" = join_comma ["0xAAA"; "0xBBB"; "0xAAA"]
  /\ Diamante.resolve_wallets (opts_of "0xAAA,0xBBB,0xAAA" None) None
     = ["0xAAA"; "0xBBB"; "0xAAA"].
Proof.
  split; [reflexivity|]. split; [discriminate|]. split; [reflexivity|].
  destruct (wallets_of_to (opts_of "0xAAA,0xBBB,0xAAA" None) None "0xAAA,0xBBB,0xAAA"
              eq_refl ltac:(discriminate) eq_refl) as [H1 H2].
  split; [exact H1|]. split; [discriminate|]. split; [exact clean_example|].
  split; [reflexivity|].
  exact (H2 ["0xAAA"; "0xBBB"; "0xAAA"] ltac:(discriminate) clean_example eq_refl).
Defined.

(** ** Requests that fail *)

(** A request [send] does not retry on: one request, no wait, and the
    result counted once. *)
Lemma send_once (E : Env) (a : string) (q : Q) (w : World) :
  no_sigint E ->
  limited (network E (n_fetch w)) = false ->
  exists w',
    Diamante.send E a q 0 w = Ret (final_result a q (network E (n_fetch w))) w'
    /\ n_fetch w' = S (n_fetch w)
    /\ trace w' = trace w ++ [EvFetch a q]
    /\ counted 0 q (stats w) (final_result a q (network E (n_fetch w))) (stats w').
Proof.
  intros HE Hlim.
  destruct (send_final E a q 0 w HE (or_intror Hlim)) as (w' & Hrun & Hnf & Htr).
  destruct (send_run E a q 0 w HE) as (r & w'' & Hrun' & Hpost).
  rewrite Hrun in Hrun'. injection Hrun' as <- <-.
  exists w'. split; [done|]. split; [done|]. split; [done|].
  by destruct Hpost as (_ & _ & _ & _ & _ & _ & _ & _ & _ & Hc & _).
Qed.

(** X14 -- [send], a request that fails: when [fetch] rejects (a network
    error), or when a response that is not a 429 has a body that is not
    JSON, [send] does not throw and does not retry: it makes its one
    request, waits for nothing else, counts one attempt and one failure,
    and returns a failure whose reason is the message of the error, resp.
    the first 60 UTF-16 code units of the stringified [{ raw }] object. *)
Theorem send_failure (E : Env) (a : string) (q : Q) (w : World) :
  no_sigint E ->
  forall reason,
    (network E (n_fetch w) = NetworkError reason
     \/ exists status text stringified error,
          network E (n_fetch w) = Response status (BodyRaw text stringified error)
          /\ status ≠ 429%Z /\ reason = slice0 60 stringified) ->
    exists w',
      Diamante.send E a q 0 w = Ret (NotSent (JStr reason) a q) w'
      /\ n_fetch w' = S (n_fetch w)
      /\ trace w' = trace w ++ [EvFetch a q]
      /\ total (stats w') = S (total (stats w))
      /\ failed (stats w') = S (failed (stats w))
      /\ success (stats w') = success (stats w)
      /\ amount (stats w') = amount (stats w).
Proof.
  intros HE reason Hnet.
  assert (Hlim : limited (network E (n_fetch w)) = false).
  { destruct Hnet as [->|(status & text & s & e & -> & Hst & _)]; [done|].
    simpl. unfold Diamante.rate_limited. simpl.
    by destruct (Z.eqb_spec status 429). }
  assert (Hres : final_result a q (network E (n_fetch w)) = NotSent (JStr reason) a q).
  { destruct Hnet as [->|(status & text & s & e & -> & _ & ->)]; done. }
  destruct (send_once E a q w HE Hlim) as (w' & Hrun & Hnf & Htr & Hc).
  rewrite Hres in Hrun, Hc. destruct Hc as (Ht & Hs & Hf & Ha & _). simpl in *.
  exists w'. repeat split; try done; lia.
Qed.

Lemma send_failure_witness :
  let E := {| random := fun _ => 0%Q; network := fun _ => NetworkError "fetch failed";
              clock := fun _ => 1000%Z; sigint := fun _ => false;
              extractUserId := fun _ => NoUserId |} in
  no_sigint E
  /\ network E (n_fetch initial_world) = NetworkError "fetch failed"
  /\ exists w',
       Diamante.send E "0xAAA" 1 0 initial_world
       = Ret (NotSent (JStr "fetch failed") "0xAAA" 1) w'
       /\ n_fetch w' = 1
       /\ trace w' = [] ++ [EvFetch "0xAAA" 1]
       /\ total (stats w') = 1
       /\ failed (stats w') = 1
       /\ success (stats w') = 0
       /\ amount (stats w') = 0%Q.
Proof.
  intros E. split; [intros n; reflexivity|]. split; [reflexivity|].
  exact (send_failure E "0xAAA" 1 initial_world (fun n => eq_refl) "fetch failed"
           (or_introl eq_refl)).
Defined.

(** X15 -- [sendTransaction] of cli.js, a request that fails: when [fetch]
    rejects, or when the body of the response is not JSON (whatever its
    status, 429 included), the function does not throw and asks for no
    retry, whatever the number of retries left: it returns a failure with
    the message of the error ([fetch]'s, resp. the SyntaxError of
    [res.json()]), after its one request. *)
Theorem sendTransaction_failure (E : Env) (a : string) (q : Q) (retryCount : nat) (w : World) :
  forall reason,
    (network E (n_fetch w) = NetworkError reason
     \/ exists status text stringified,
          network E (n_fetch w) = Response status (BodyRaw text stringified reason)) ->
    exists w',
      Cli.sendTransaction E a q retryCount w = Ret (Cli.TxFailed (JStr reason)) w'
      /\ n_fetch w' = S (n_fetch w)
      /\ trace w' = trace w ++ [EvFetch a q].
Proof.
  intros reason Hnet. unfold Cli.sendTransaction, try_catch, mbind, M_bind, Cli.fetch.
  destruct Hnet as [->|(status & text & s & ->)]; simpl;
    eexists; (split; [reflexivity|]); done.
Qed.

Lemma sendTransaction_failure_witness :
  let E := {| random := fun _ => 0%Q;
              network := fun _ => Response 429 (BodyRaw "Too Many Requests" "{}"
                                                  "Unexpected token T in JSON at position 0");
              clock := fun _ => 1000%Z; sigint := fun _ => false;
              extractUserId := fun _ => NoUserId |} in
  let reason := "Unexpected token T in JSON at position 0" in
  (network E (n_fetch initial_world) = NetworkError reason
   \/ exists status text stringified,
        network E (n_fetch initial_world) = Response status (BodyRaw text stringified reason))
  /\ exists w',
       Cli.sendTransaction E "0xAAA" 1 0 initial_world = Ret (Cli.TxFailed (JStr reason)) w'
       /\ n_fetch w' = 1
       /\ trace w' = [] ++ [EvFetch "0xAAA" 1].
Proof.
  intros E reason.
  assert (H : network E (n_fetch initial_world) = NetworkError reason
              \/ exists status text stringified,
                   network E (n_fetch initial_world)
                   = Response status (BodyRaw text stringified reason)).
  { right. exists 429%Z, "Too Many Requests", "{}". reflexivity. }
  split; [exact H|].
  exact (sendTransaction_failure E "0xAAA" 1 0 initial_world reason H).
Defined.

(** ** The per-wallet lines of the summary *)

Lemma sent_to_cons (a : string) (r : SendResult) (rs : list SendResult) :
  sent_to a (r :: rs)
  = (if decide (r_toAddress r = a) then if r_success r then 1 else 0 else 0) + sent_to a rs.
Proof.
  unfold sent_to. rewrite filter_cons.
  destruct (decide (r_toAddress r = a)) as [Ha|Ha]; destruct (r_success r) eqn:Hs.
  - rewrite decide_True by done. done.
  - rewrite decide_False by (intros [_ ?]; done). done.
  - rewrite decide_False by (intros [? _]; done). done.
  - rewrite decide_False by (intros [? _]; done). done.
Qed.

Lemma failed_to_cons (a : string) (r : SendResult) (rs : list SendResult) :
  failed_to a (r :: rs)
  = (if decide (r_toAddress r = a) then if r_success r then 0 else 1 else 0) + failed_to a rs.
Proof.
  unfold failed_to. rewrite filter_cons.
  destruct (decide (r_toAddress r = a)) as [Ha|Ha]; destruct (r_success r) eqn:Hs.
  - rewrite decide_False by (intros [_ ?]; done). done.
  - rewrite decide_True by done. done.
  - rewrite decide_False by (intros [? _]; done). done.
  - rewrite decide_False by (intros [? _]; done). done.
Qed.

Lemma sent_failed_absent (a : string) (rs : list SendResult) :
  a ∉ r_toAddress <$> rs -> sent_to a rs = 0 /\ failed_to a rs = 0.
Proof.
  induction rs as [|r rs IH]; [done|]. rewrite fmap_cons, not_elem_of_cons.
  intros [Hne Hrs]. rewrite sent_to_cons, failed_to_cons.
  rewrite !decide_False by done. by apply IH.
Qed.

Lemma sent_failed_occurrences (a : string) (rs : list SendResult) :
  sent_to a rs + failed_to a rs = occurrences a (JStr <$> (r_toAddress <$> rs)).
Proof.
  induction rs as [|r rs IH]; [done|].
  rewrite sent_to_cons, failed_to_cons, !fmap_cons.
  change (JStr (r_toAddress r) :: ?l) with ([JStr (r_toAddress r)] ++ l).
  rewrite occurrences_app, <- IH. unfold occurrences at 1. rewrite filter_cons.
  destruct (decide (r_toAddress r = a)) as [->|Hne].
  - rewrite decide_True by done. destruct (r_success r); simpl; lia.
  - rewrite decide_False by congruence. simpl. lia.
Qed.

Lemma tally_lookup (a : string) (rs : list SendResult) :
  forall m : gmap string (nat * nat),
    foldl Diamante.tally m rs !! a
    = if decide (a ∈ r_toAddress <$> rs)
      then Some ((default (0, 0) (m !! a)).1 + sent_to a rs,
                 (default (0, 0) (m !! a)).2 + failed_to a rs)
      else m !! a.
Proof.
  induction rs as [|r rs IH]; intros m.
  - rewrite decide_False; [done|]. apply not_elem_of_nil.
  - cbn [foldl]. rewrite IH, fmap_cons, sent_to_cons, failed_to_cons.
    unfold Diamante.tally.
    destruct (default (0, 0) (m !! r_toAddress r)) as [s f] eqn:Hm.
    destruct (decide (r_toAddress r = a)) as [Ha|Ha].
    + rewrite Ha in *. rewrite lookup_insert_eq, Hm.
      rewrite (decide_True (P := a ∈ a :: _)) by left.
      destruct (decide (a ∈ r_toAddress <$> rs)) as [Hin|Hin].
      * destruct (r_success r); simpl; f_equal; f_equal; lia.
      * destruct (sent_failed_absent a rs Hin) as [-> ->].
        destruct (r_success r); simpl; f_equal; f_equal; lia.
    + rewrite lookup_insert_ne by done.
      destruct (decide (a ∈ r_toAddress <$> rs)) as [Hin|Hin].
      * rewrite decide_True by (by right). done.
      * rewrite decide_False; [done|]. rewrite not_elem_of_cons. done.
Qed.

(** X16 -- the per-wallet lines of the summary of a single round: with at
    most 10 wallets the summary has, for each wallet of the list (and for
    no other address), the number of its successful and of its failed
    transfers, which add up to the number of times the wallet is listed
    times [sendPerWallet]; with more than 10 wallets it has no per-wallet
    lines.  The wallets are addresses (they start with [0x]): the tally is
    kept in a plain object, and a name like [constructor] or [__proto__]
    gets no line of it. *)
Theorem per_wallet_summary (E : Env) (fuel : nat) (wallets : list string) (q : Q) (k : Z)
    (maxIter : option Z) (w : World) :
  no_sigint E -> random_unit E -> forallb is_address wallets = true ->
  exists rs w' sm,
    Diamante.sendRound E (S fuel) wallets q k false maxIter w = Ret rs w'
    /\ last (trace w') = Some (EvSummary sm)
    /\ (10 < length wallets -> perWallet sm = None)
    /\ (length wallets <= 10 ->
        exists m, perWallet sm = Some m
          /\ (forall a, a ∈ wallets -> (0 < k)%Z ->
                m !! a = Some (sent_to a rs, failed_to a rs)
                /\ sent_to a rs + failed_to a rs = copies a wallets * Z.to_nat k)
          /\ (forall a, a ∉ wallets -> m !! a = None)).
Proof.
  intros HE HR _.
  destruct (sendRound_single E fuel wallets q k maxIter w HE HR)
    as (rs & w' & Hrun & _ & _ & _ & Hocc & _ & _ & _ & _ & _ & elapsed & Hlast).
  exists rs, w', (Diamante.summary_of (stats w') elapsed rs (length wallets)).
  split; [done|]. split; [done|]. simpl. split.
  - intros Hlen. rewrite decide_False by lia. done.
  - intros Hlen. rewrite decide_True by done. eexists. split; [reflexivity|].
    assert (Hsum : forall a, sent_to a rs + failed_to a rs = copies a wallets * Z.to_nat k).
    { intros a. rewrite sent_failed_occurrences. apply Hocc. }
    split.
    + intros a Ha Hk. split; [|apply Hsum].
      rewrite tally_lookup, lookup_empty. simpl.
      rewrite decide_True; [done|].
      destruct (decide (a ∈ r_toAddress <$> rs)) as [|Hin]; [done|].
      destruct (sent_failed_absent a rs Hin) as [Hs Hf].
      specialize (Hsum a). rewrite Hs, Hf in Hsum.
      assert (0 < copies a wallets).
      { unfold copies. destruct (filter _ wallets) eqn:Hfil; simpl; [|lia].
        assert (a ∈ filter (fun w0 => w0 = a) wallets) as Hin'
          by (by apply list_elem_of_filter).
        rewrite Hfil in Hin'. by apply elem_of_nil in Hin'. }
      nia.
    + intros a Ha. rewrite tally_lookup, lookup_empty.
      rewrite decide_False; [done|]. intros Hin.
      assert (0 < sent_to a rs + failed_to a rs).
      { clear -Hin. induction rs as [|r rs IH]; [by apply elem_of_nil in Hin|].
        rewrite fmap_cons in Hin. rewrite sent_to_cons, failed_to_cons.
        apply elem_of_cons in Hin as [->|Hin].
        - rewrite !decide_True by done. destruct (r_success r); lia.
        - specialize (IH Hin). lia. }
      rewrite Hsum, (copies_absent a wallets Ha) in H. lia.
Qed.

Lemma per_wallet_summary_witness :
  no_sigint E_ok /\ random_unit E_ok /\ forallb is_address ["0xAAA"; "0xBBB"] = true
  /\ length ["0xAAA"; "0xBBB"] <= 10
  /\ "0xAAA" ∈ ["0xAAA"; "0xBBB"] /\ (0 < 2)%Z
  /\ exists rs w' sm m,
       Diamante.sendRound E_ok 1 ["0xAAA"; "0xBBB"] 1 2 false None initial_world = Ret rs w'
       /\ last (trace w') = Some (EvSummary sm)
       /\ perWallet sm = Some m
       /\ m !! "0xAAA" = Some (sent_to "0xAAA" rs, failed_to "0xAAA" rs)
       /\ sent_to "0xAAA" rs + failed_to "0xAAA" rs
          = copies "0xAAA" ["0xAAA"; "0xBBB"] * Z.to_nat 2.
Proof.
  split; [exact no_sigint_ok|]. split; [exact random_unit_ok|]. split; [reflexivity|].
  split; [simpl; lia|]. split; [apply list_elem_of_here|]. split; [lia|].
  destruct (per_wallet_summary E_ok 0 ["0xAAA"; "0xBBB"] 1 2 None initial_world
              no_sigint_ok random_unit_ok eq_refl) as (rs & w' & sm & Hrun & Hlast & _ & Hm).
  destruct (Hm ltac:(simpl; lia)) as (m & Hpw & Hin & _).
  pose proof (Hin "0xAAA" (list_elem_of_here _ _) eq_refl) as [H1 H2].
  exists rs, w', sm, m.
  split; [exact Hrun|]. split; [exact Hlast|]. split; [exact Hpw|].
  split; [exact H1|exact H2].
Defined.

(** ** Numerals *)









(** ** The menus of cli.js *)


Lemma Forall_delete {A} (P : A -> Prop) (i : nat) (l : list A) :
  Forall P l -> Forall P (delete i l).
Proof.
  intros H. revert i. induction H as [|x l Hx Hl IH]; intros i; [done|].
  destruct i as [|i]; simpl; [done|]. constructor; [done|apply IH].
Qed.

(** X17 -- the wallets menu of cli.js keeps the configuration in order:
    whatever the user adds and removes before going back, the list stays a
    list, each address added is stored trimmed and is not empty (so a list
    of such addresses stays one), no other setting changes, and a
    configuration that was saved is saved again after each change. *)
Theorem wallets_menu_keeps (choices : list Menu.WalletsChoice) :
  forall (s : Menu.Session) (ws : list string),
    c_wallets (Menu.config s) = Some ws ->
    exists s' ws',
      Menu.wallets_menu choices s = Ok s'
      /\ c_wallets (Menu.config s') = Some ws'
      /\ (Forall (fun a => a ≠ "" /\ trim a = a) ws ->
          Forall (fun a => a ≠ "" /\ trim a = a) ws')
      /\ (Menu.file s = Some (Menu.config s) -> Menu.file s' = Some (Menu.config s'))
      /\ accessToken (Menu.config s') = accessToken (Menu.config s)
      /\ amountPerSend (Menu.config s') = amountPerSend (Menu.config s)
      /\ c_sendPerWallet (Menu.config s') = c_sendPerWallet (Menu.config s)
      /\ c_continuous (Menu.config s') = c_continuous (Menu.config s)
      /\ maxIterations (Menu.config s') = maxIterations (Menu.config s)
      /\ delays (Menu.config s') = delays (Menu.config s).
Proof.
  induction choices as [|c choices IH]; intros s ws Hws.
  - exists s, ws. split; [done|]. split; [done|]. split; [tauto|]. split; [tauto|].
    repeat split; done.
  - cbn [Menu.wallets_menu].
    assert (Hturn : exists s1 ws1,
      Menu.wallets_turn c s = Ok s1
      /\ c_wallets (Menu.config s1) = Some ws1
      /\ (Forall (fun a => a ≠ "" /\ trim a = a) ws ->
          Forall (fun a => a ≠ "" /\ trim a = a) ws1)
      /\ (Menu.file s = Some (Menu.config s) -> Menu.file s1 = Some (Menu.config s1))
      /\ accessToken (Menu.config s1) = accessToken (Menu.config s)
      /\ amountPerSend (Menu.config s1) = amountPerSend (Menu.config s)
      /\ c_sendPerWallet (Menu.config s1) = c_sendPerWallet (Menu.config s)
      /\ c_continuous (Menu.config s1) = c_continuous (Menu.config s)
      /\ maxIterations (Menu.config s1) = maxIterations (Menu.config s)
      /\ delays (Menu.config s1) = delays (Menu.config s)).
    { destruct c as [addr|idx []]; cbn [Menu.wallets_turn].
      - destruct (String.eqb_spec (trim addr) "") as [He|Hne]; cbn [negb].
        + exists s, ws. repeat split; done.
        + eexists _, _. split; [reflexivity|]. rewrite Hws. simpl.
          repeat split; try done.
          intros Hall. apply Forall_app. split; [done|].
          repeat constructor; [done|apply trim_idem].
      - rewrite Hws. eexists _, _. split; [reflexivity|]. simpl.
        repeat split; try done. apply Forall_delete.
      - exists s, ws. repeat split; done. }
    destruct Hturn as (s1 & ws1 & -> & Hws1 & Hc1 & Hf1 & H1 & H2 & H3 & H4 & H5 & H6).
    destruct (IH s1 ws1 Hws1) as (s' & ws' & Hrun & Hws' & Hc & Hf & G1 & G2 & G3 & G4 & G5 & G6).
    exists s', ws'. split; [done|]. split; [done|].
    split; [tauto|]. split; [tauto|].
    rewrite G1, G2, G3, G4, G5, G6. done.
Qed.

Lemma wallets_menu_keeps_witness :
  let s := {| Menu.config := config_of ["0xAAA"]; Menu.file := Some (config_of ["0xAAA"]) |} in
  c_wallets (Menu.config s) = Some ["0xAAA"]
  /\ Forall (fun a => a ≠ "" /\ trim a = a) ["0xAAA"]
  /\ Menu.file s = Some (Menu.config s)
  /\ exists s' ws',
       Menu.wallets_menu [Menu.Add " 0xBBB "; Menu.Remove 0 true; Menu.Add "  "] s = Ok s'
       /\ c_wallets (Menu.config s') = Some ws'
       /\ Forall (fun a => a ≠ "" /\ trim a = a) ws'
       /\ Menu.file s' = Some (Menu.config s').
Proof.
  intros s. split; [reflexivity|].
  assert (Hclean : Forall (fun a => a ≠ "" /\ trim a = a) ["0xAAA"]).
  { repeat constructor. discriminate. }
  split; [exact Hclean|]. split; [reflexivity|].
  destruct (wallets_menu_keeps [Menu.Add " 0xBBB "; Menu.Remove 0 true; Menu.Add "  "]
              s ["0xAAA"] eq_refl) as (s' & ws' & Hrun & Hws & Hc & Hf & _).
  exists s', ws'. split; [exact Hrun|]. split; [exact Hws|].
  split; [exact (Hc Hclean)|exact (Hf eq_refl)].
Defined.





(** X20 -- the switches of the settings menu that "send tokens" ignores:
    [runSending] of cli.js reads neither [continuous] nor [maxIterations],
    so toggling "continuous" or setting "max rounds" any number of times
    changes nothing in what the next "send tokens" does; the stored number
    of max rounds is never 0. *)
Theorem settings_ignored (E : Env) (fuel : nat) (w : World)
    (choices : list Menu.SettingsChoice) :
  Forall (fun c => match c with Menu.Sends _ => False | _ => True end) choices ->
  forall s,
    let s' := foldl (fun s c => Menu.settings_turn c s) s choices in
    Cli.runSending E fuel (Menu.config s') w = Cli.runSending E fuel (Menu.config s) w
    /\ (maxIterations (Menu.config s) ≠ Some 0%Z -> maxIterations (Menu.config s') ≠ Some 0%Z).
Proof.
  induction 1 as [|c choices Hc _ IH]; intros s; [done|].
  cbn [foldl]. specialize (IH (Menu.settings_turn c s)). destruct IH as [IH1 IH2].
  split.
  - rewrite IH1. destruct c as [|val|val]; [done|done|].
    cbn [Menu.settings_turn]. destruct (negb (String.eqb val "")); done.
  - intros Hm. apply IH2. destruct c as [|val|val]; [done|done|].
    cbn [Menu.settings_turn]. destruct (negb (String.eqb val "")); [|done]. simpl.
    destruct (parseInt val) as [z|]; simpl; [|done].
    destruct (Z.eqb_spec z 0); [done|congruence].
Qed.

Lemma settings_ignored_witness :
  let s := {| Menu.config := config_of ["0xAAA"]; Menu.file := None |} in
  let s' := foldl (fun s c => Menu.settings_turn c s) s
              [Menu.Continuous; Menu.MaxIterations "5"] in
  Forall (fun c => match c with Menu.Sends _ => False | _ => True end)
    [Menu.Continuous; Menu.MaxIterations "5"]
  /\ c_continuous (Menu.config s') = true
  /\ maxIterations (Menu.config s') = Some 5%Z
  /\ Cli.runSending E_ok 3 (Menu.config s') initial_world
     = Cli.runSending E_ok 3 (Menu.config s) initial_world.
Proof.
  intros s s'.
  assert (H : Forall (fun c => match c with Menu.Sends _ => False | _ => True end)
                [Menu.Continuous; Menu.MaxIterations "5"]) by (repeat constructor).
  split; [exact H|]. split; [reflexivity|]. split; [reflexivity|].
  exact (proj1 (settings_ignored E_ok 3 initial_world
                  [Menu.Continuous; Menu.MaxIterations "5"] H s)).
Defined.

(** ** The clock of a run *)

Lemma pre_clock (E : Env) (rc : nat) (w : World) :
  exists w0,
    (if decide (rc = 0) then Diamante.count_attempt E else mret tt) w = Ret tt w0
    /\ n_wait w0 = n_wait w /\ n_fetch w0 = n_fetch w
    /\ start (stats w0) = (if decide (rc = 0) then start_after E w else start (stats w))
    /\ n_clock w0 = (if decide (rc = 0) then clock_after w else n_clock w).
Proof.
  destruct (decide (rc = 0)) as [_|_]; [|by exists w].
  unfold Diamante.count_attempt, start_after, clock_after, mbind, M_bind, modify, get, date_now.
  simpl. destruct (start (stats w)) as [t|]; [destruct (t =? 0)%Z|]; simpl;
    eexists; (split; [reflexivity|]); done.
Qed.

Lemma conclude_clock (a : string) (q : Q) (data : Json) (w : World) :
  exists r w',
    Diamante.conclude a q data w = Ret r w'
    /\ start (stats w') = start (stats w) /\ n_clock w' = n_clock w.
Proof.
  unfold Diamante.conclude, Diamante.count_success, Diamante.count_failed, mbind, M_bind,
    modify, mret, M_ret.
  destruct (strict_eq (j_success data) (JBool true)); simpl; eexists _, _; done.
Qed.

Lemma send_clock (E : Env) (a : string) (q : Q) :
  no_sigint E ->
  forall (k rc : nat) (w : World),
    Diamante.MAX_RETRIES - rc = k ->
    start (stats (world_of (Diamante.send E a q rc w)))
    = (if decide (rc = 0) then start_after E w else start (stats w))
    /\ n_clock (world_of (Diamante.send E a q rc w))
       = (if decide (rc = 0) then clock_after w else n_clock w).
Proof.
  intros HE. induction k as [k IH] using lt_wf_ind. intros rc w Hk.
  remember (Diamante.send E a q rc w) as o eqn:Ho.
  rewrite Diamante.send_equation_1 in Ho. unfold mbind at 1 in Ho. unfold M_bind at 1 in Ho.
  destruct (pre_clock E rc w) as (w0 & Hpre & Hnw & Hnf & Hst & Hcl).
  rewrite Hpre in Ho. clear Hpre.
  rewrite <- Hst, <- Hcl. clear Hst Hcl.
  unfold try_catch, mbind, M_bind, fetch, wait in Ho. simpl in Ho. rewrite HE in Ho.
  destruct (network E (n_fetch w0)) as [msg|status body] eqn:Hnet.
  { subst o. done. }
  simpl in Ho.
  set (w2 := tick_wait (add_event (EvFetch a q) (tick_fetch w0))) in Ho.
  set (data := Diamante.parse_body body) in Ho.
  assert (Hconcl : forall o',
    o' = match Diamante.conclude a q data w2 with
         | Throw e w' =>
             Ret (NotSent (JStr e) a q)
               (set_stats
                  {| total := total (stats w'); success := success (stats w');
                     failed := S (failed (stats w')); amount := amount (stats w');
                     start := start (stats w') |} w')
         | o => o
         end ->
    start (stats (world_of o')) = start (stats w0) /\ n_clock (world_of o') = n_clock w0).
  { intros o' ->. destruct (conclude_clock a q data w2) as (r & w3 & -> & Hs3 & Hc3). simpl.
    rewrite Hs3, Hc3. done. }
  destruct (Diamante.rate_limited status data); [|exact (Hconcl o Ho)].
  destruct (lt_dec rc Diamante.MAX_RETRIES) as [Hlt|Hge]; [|exact (Hconcl o Ho)].
  clear Hconcl.
  unfold sleep, mbind, M_bind, emit, modify, wait in Ho. simpl in Ho. rewrite HE in Ho.
  set (w4 := tick_wait _) in Ho.
  destruct (IH (Diamante.MAX_RETRIES - (rc + 1)) ltac:(lia) (rc + 1) w4 eq_refl) as [Hs5 Hc5].
  destruct (decide (rc + 1 = 0)) as [?|_]; [lia|].
  destruct (Diamante.send E a q (rc + 1) w4) as [r w5|e w5|c w5|w5]; subst o; simpl in *;
    rewrite Hs5, Hc5; done.
Qed.

(** The clock over the [for] loop of a round: a sender that has started
    keeps its start; one that has not reads the clock once, at its first
    task. *)
Lemma dispatch_clock (E : Env) (q : Q) (iter n : nat) :
  no_sigint E ->
  forall (ws : list string) (i : nat) (sendCount : gmap string (option nat)) (w w' : World),
    w' = world_of (Diamante.dispatch E q iter n i (JStr <$> ws) sendCount w) ->
    (forall t, start (stats w) = Some t -> t ≠ 0%Z ->
               start (stats w') = Some t /\ n_clock w' = n_clock w)
    /\ (start (stats w) = None -> clock E (n_clock w) ≠ 0%Z -> ws ≠ [] ->
        start (stats w') = Some (clock E (n_clock w)) /\ n_clock w' = S (n_clock w))
    /\ (ws = [] -> start (stats w') = start (stats w) /\ n_clock w' = n_clock w).
Proof.
  intros HE. induction ws as [|a ws IH]; intros i sendCount w w' Hw'.
  - simpl in Hw'. subst w'. repeat split; done.
  - simpl in Hw'.
    set (pre := if decide (0 < i ∨ 1 < iter) then Diamante.humanDelay E else mret tt) in Hw'.
    unfold mbind at 1 in Hw'. unfold M_bind at 1 in Hw'.
    assert (Hpre : exists w0,
      pre w = Ret tt w0 /\ stats w0 = stats w /\ n_clock w0 = n_clock w).
    { unfold pre. destruct (decide (0 < i ∨ 1 < iter)) as [Hd|Hd].
      - rewrite humanDelay_run by done. eexists. repeat split; done.
      - by exists w. }
    destruct Hpre as (w0 & Hpre & Hs0 & Hc0). rewrite Hpre in Hw'. clear Hpre.
    unfold emit, modify, mbind, M_bind in Hw'. simpl in Hw'.
    set (w1 := add_event _ w0) in Hw'.
    destruct (send_clock E a q HE _ 0 w1 eq_refl) as [Hs2 Hc2].
    destruct (send_run E a q 0 w1 HE) as (r & w2 & Hrun & _).
    rewrite Hrun in Hs2, Hc2, Hw'. simpl in Hs2, Hc2.
    unfold start_after, clock_after in Hs2, Hc2. unfold w1 in Hs2, Hc2. simpl in Hs2, Hc2.
    rewrite Hs0, Hc0 in Hs2, Hc2.
    unfold Diamante.push_result, modify in Hw'. simpl in Hw'.
    set (w3 := add_event _ _) in Hw'.
    change (list_fmap string jsval JStr ws) with (JStr <$> ws) in Hw'.
    destruct (IH (i + 1) (Diamante.bump sendCount a) w3 w' Hw') as (IH1 & IH2 & IH3).
    assert (Hs3 : stats w3 = stats w2) by reflexivity.
    assert (Hc3 : n_clock w3 = n_clock w2) by reflexivity.
    rewrite Hs3, Hc3 in IH1, IH2, IH3. clear Hw'.
    split; [|split].
    + intros t Ht Ht0. rewrite Ht in Hs2, Hc2.
      destruct (Z.eqb_spec t 0) as [?|_]; [done|].
      destruct (IH1 t Hs2 Ht0) as [-> ->]. by rewrite Hc2.
    + intros Hnone Hclk _. rewrite Hnone in Hs2, Hc2.
      destruct (IH1 _ Hs2 Hclk) as [-> ->]. by rewrite Hc2.
    + done.
Qed.

Lemma round_clock (E : Env) (wallets : list string) (q : Q) (k : Z) (iter : nat)
    (w w' : World) :
  no_sigint E -> random_unit E ->
  w' = world_of (Diamante.round E wallets q k iter w) ->
  (start (stats w) = None -> clock E (n_clock w) ≠ 0%Z -> 0 < length wallets * Z.to_nat k ->
   start (stats w') = Some (clock E (n_clock w)) /\ n_clock w' = S (n_clock w))
  /\ (length wallets * Z.to_nat k = 0 ->
      start (stats w') = start (stats w) /\ n_clock w' = n_clock w).
Proof.
  intros HE HR Hw'. unfold Diamante.round in Hw'.
  unfold mbind at 1 in Hw'. unfold M_bind at 1 in Hw'.
  destruct (buildQueue_spec E wallets k w HR) as (a & ys & h & m & Hbuild & Hys & Hperm).
  rewrite Hbuild in Hw'. clear Hbuild.
  destruct (expand_names wallets (Z.to_nat k)) as [names Hnames].
  destruct (perm_names ys names) as [ws ->]; [by rewrite <- Hnames|].
  destruct (redrawn_fields h m w) as (Hh1 & Hs1 & _ & _ & _ & _ & _ & Hc1 & _ & _).
  unfold emit, modify, read_array, array_at, mbind, M_bind in Hw'. simpl in Hw'.
  rewrite ?Hh1, Hys in Hw'. simpl in Hw'.
  set (w1 := add_event _ _) in Hw'.
  change (list_fmap string jsval JStr ws) with (JStr <$> ws) in Hw'.
  destruct (dispatch_clock E q iter (length (JStr <$> ws)) HE ws 0
              (list_to_map ((fun w => (w, Some 0)) <$> wallets)) w1 w' Hw') as (_ & H2 & H3).
  assert (Hs3 : stats w1 = stats w) by (unfold w1; cbn; exact Hs1).
  assert (Hc3 : n_clock w1 = n_clock w) by (unfold w1; cbn; exact Hc1).
  rewrite Hs3, Hc3 in H2, H3.
  assert (Hlen : length ws = length wallets * Z.to_nat k).
  { rewrite <- (length_fmap JStr ws), Hperm. apply expand_length. }
  split.
  - intros Hnone Hclk HN. apply H2; [done|done|]. intros ->. simpl in Hlen. lia.
  - intros HN. apply H3. destruct ws; [done|]. simpl in Hlen. lia.
Qed.

(** X21 -- the duration of the summary of a single round: a new sender
    reads the clock once, when it makes its first attempt, and, when that
    reading is not 0, [printSummary] reads it once more; the duration
    printed is the time between these two readings, in seconds, whatever
    the number of transfers, retries and pauses in between.  With an empty
    queue the clock is not read and the duration is 0. *)
Theorem summary_duration (E : Env) (fuel : nat) (wallets : list string) (q : Q) (k : Z)
    (maxIter : option Z) (w : World) :
  no_sigint E -> random_unit E -> start (stats w) = None ->
  exists rs w' sm,
    Diamante.sendRound E (S fuel) wallets q k false maxIter w = Ret rs w'
    /\ last (trace w') = Some (EvSummary sm)
    /\ (0 < length wallets * Z.to_nat k -> clock E (n_clock w) ≠ 0%Z ->
        start (stats w') = Some (clock E (n_clock w))
        /\ n_clock w' = n_clock w + 2
        /\ elapsedSeconds sm
           = (inject_Z (clock E (S (n_clock w)) - clock E (n_clock w)) / 1000)%Q)
    /\ (length wallets * Z.to_nat k = 0 ->
        start (stats w') = None /\ n_clock w' = n_clock w /\ elapsedSeconds sm = 0%Q).
Proof.
  intros HE HR Hnone. unfold Diamante.sendRound.
  unfold mbind at 1. unfold M_bind at 1. unfold modify at 1.
  unfold mbind at 1. unfold M_bind at 1. unfold try_catch.
  simpl. unfold mbind at 1. unfold M_bind at 1.
  destruct (round_run E wallets q k 1 (set_results [] w) HE HR)
    as (w1 & rs & ds & evs & Hround & _ & _ & Hr & _).
  destruct (round_clock E wallets q k 1 (set_results [] w) w1 HE HR) as [Hc1 Hc2];
    [by rewrite Hround|].
  rewrite Hround. simpl in Hc1, Hc2, Hr.
  unfold mret, M_ret, get, mbind, M_bind.
  unfold Diamante.printSummary, mbind, M_bind, get, emit, modify, date_now, mret, M_ret.
  destruct (Nat.eq_dec (length wallets * Z.to_nat k) 0) as [HN|HN].
  - destruct (Hc2 HN) as [Hs Hc]. rewrite Hs, Hnone. simpl.
    eexists _, _, _. split; [reflexivity|]. simpl.
    split; [by rewrite last_snoc|]. split; [lia|]. intros _. by rewrite Hs, Hnone.
  - destruct (clock E (n_clock w) =? 0)%Z eqn:Hclk.
    + (* the first reading is 0: nothing is claimed *)
      destruct (start (stats w1)) as [t|]; [destruct (t =? 0)%Z|]; simpl;
        eexists _, _, _; (split; [reflexivity|]); simpl;
        (split; [by rewrite last_snoc|]); (split; [|lia]);
        intros _ Hne; apply Z.eqb_eq in Hclk; done.
    + apply Z.eqb_neq in Hclk. destruct (Hc1 Hnone Hclk ltac:(lia)) as [Hs Hc].
      rewrite Hs. apply Z.eqb_neq in Hclk. rewrite Hclk. simpl.
      eexists _, _, _. split; [reflexivity|]. simpl.
      split; [by rewrite last_snoc|]. split; [|lia]. intros _ _.
      rewrite Hs, Hc. split; [done|]. split; [lia|]. done.
Qed.

Lemma summary_duration_witness :
  no_sigint E_ok /\ random_unit E_ok /\ start (stats initial_world) = None
  /\ 0 < length ["0xAAA"; "0xBBB"] * Z.to_nat 2 /\ clock E_ok (n_clock initial_world) ≠ 0%Z
  /\ exists rs w' sm,
       Diamante.sendRound E_ok 1 ["0xAAA"; "0xBBB"] 1 2 false None initial_world = Ret rs w'
       /\ last (trace w') = Some (EvSummary sm)
       /\ start (stats w') = Some (clock E_ok (n_clock initial_world))
       /\ n_clock w' = n_clock initial_world + 2
       /\ elapsedSeconds sm
          = (inject_Z (clock E_ok (S (n_clock initial_world))
                       - clock E_ok (n_clock initial_world)) / 1000)%Q.
Proof.
  split; [exact no_sigint_ok|]. split; [exact random_unit_ok|]. split; [reflexivity|].
  split; [simpl; lia|]. split; [discriminate|].
  destruct (summary_duration E_ok 0 ["0xAAA"; "0xBBB"] 1 2 None initial_world
              no_sigint_ok random_unit_ok eq_refl) as (rs & w' & sm & Hrun & Hlast & H1 & _).
  destruct (H1 ltac:(simpl; lia) ltac:(discriminate)) as (Hs & Hc & He).
  exists rs, w', sm.
  split; [exact Hrun|]. split; [exact Hlast|]. split; [exact Hs|]. split; [exact Hc|exact He].
Defined.

(** ** The count of cli.js *)






